(** * Release-file validation of eva-accession: RS-ID reconciliation

    A shallow embedding of
    [eva-accession-release-automation/run_release_in_embassy/validate_rs_release_files.py]
    together with the behaviour of the shell utilities it composes
    ([sort], [uniq], [comm], [grep], [cut], [sed], [wc]) and of the MongoDB
    aggregation pipelines it issues.

    Files are lists of lines (without the trailing newline); a compressed
    file is represented by its decompressed lines.  Lines are compared in
    byte order (the [C] collation); [sort], [uniq] and [comm] share it.

    [run_command_with_output] and [file_diff] come from the package
    ebi_eva_common_pyutils, and [mongoexport] and the aggregation framework
    from MongoDB; they are modelled by their documented behaviour.  The
    port forwarding of [release_common_utils] is a parameter of a run. *)

From Stdlib Require Import List String Ascii ZArith NArith Lia Bool Arith.
From Stdlib Require Import Sorting.Sorted Sorting.Permutation.
From Stdlib Require Import Structures.OrderedTypeEx.
From Stdlib Require Import Numbers.DecimalString Numbers.DecimalZ.
Import ListNotations.
Open Scope string_scope.
Open Scope list_scope.

(** ** Lines and their order *)

Definition line := string.
Definition file := list line.

Definition line_lt (x y : line) : Prop := String.compare x y = Lt.
Definition line_le (x y : line) : Prop := String.compare x y <> Gt.

(** ** Shell utilities *)

Module Shell.

(** [sort]: the lines in non-decreasing byte order.  Over a total order in
    which equivalent lines are equal, every sorting algorithm produces the
    same output; insertion is the simplest to state. *)
Fixpoint insert_line (x : line) (l : file) : file :=
  match l with
  | [] => [x]
  | y :: l' => if String.leb x y then x :: y :: l' else y :: insert_line x l'
  end.

Fixpoint sort (l : file) : file :=
  match l with
  | [] => []
  | x :: l' => insert_line x (sort l')
  end.

(** [uniq]: adjacent repeated lines collapse to one. *)
Fixpoint uniq (l : file) : file :=
  match l with
  | [] => []
  | x :: l' =>
      match l' with
      | [] => [x]
      | y :: _ => if String.eqb x y then uniq l' else x :: uniq l'
      end
  end.

(** [sort -u] *)
Definition sort_u (l : file) : file := uniq (sort l).

(** [comm FILE1 FILE2]: one merging pass over both files; a line goes to
    column 1 (only in FILE1), column 2 (only in FILE2) or column 3 (paired
    in both). *)
Inductive column := Col1 | Col2 | Col3.

Definition column_eqb (a b : column) : bool :=
  match a, b with
  | Col1, Col1 | Col2, Col2 | Col3, Col3 => true
  | _, _ => false
  end.

Fixpoint comm (l1 : file) : file -> list (column * line) :=
  fix comm_l1 (l2 : file) : list (column * line) :=
    match l1, l2 with
    | [], _ => map (pair Col2) l2
    | _, [] => map (pair Col1) l1
    | x :: l1', y :: l2' =>
        match String.compare x y with
        | Eq => (Col3, x) :: comm l1' l2'
        | Lt => (Col1, x) :: comm l1' l2
        | Gt => (Col2, y) :: comm_l1 l2'
        end
    end.

Definition select_column (c : column) (out : list (column * line)) : file :=
  map snd (filter (fun cl => column_eqb (fst cl) c) out).

(** [comm -31]: columns 3 and 1 suppressed, the lines only in FILE2. *)
Definition comm_31 (l1 l2 : file) : file := select_column Col2 (comm l1 l2).

(** [comm -23]: columns 2 and 3 suppressed, the lines only in FILE1. *)
Definition comm_23 (l1 l2 : file) : file := select_column Col1 (comm l1 l2).

Definition is_digit (c : ascii) : bool :=
  (48 <=? nat_of_ascii c)%nat && (nat_of_ascii c <=? 57)%nat.

Fixpoint all_digits (s : string) : bool :=
  match s with
  | EmptyString => true
  | String c r => is_digit c && all_digits r
  end.

(** The extended regular expression [^[0-9]+$]. *)
Definition matches_digits (s : string) : bool :=
  match s with
  | EmptyString => false
  | _ => all_digits s
  end.

(** [grep -E "^[0-9]+$"] *)
Definition grep_E_digits (l : file) : file := filter matches_digits l.

(** [grep -v ^#] *)
Definition grep_v_hash (l : file) : file :=
  filter (fun s => match s with String "#" _ => false | _ => true end) l.

Definition tab : ascii := ascii_of_nat 9.

(** The TAB-separated fields of a line. *)
Fixpoint fields (s : string) : list string :=
  match s with
  | EmptyString => [EmptyString]
  | String c r =>
      if Ascii.eqb c tab then EmptyString :: fields r
      else match fields r with
           | f :: fs => String c f :: fs
           | [] => [String c EmptyString]
           end
  end.

(** [cut -fN]: a line without delimiter is printed whole; otherwise the
    N-th field, empty when the line has fewer fields. *)
Definition cut_f (n : nat) (l : file) : file :=
  map (fun s => match fields s with
                | [_] => s
                | fs => nth (n - 1) fs EmptyString
                end) l.

(** [sed s/rs//g] on one line: every occurrence of "rs", left to right. *)
Fixpoint remove_rs (s : string) : string :=
  match s with
  | EmptyString => EmptyString
  | String c r =>
      match r with
      | String c' r' =>
          if Ascii.eqb c "r" && Ascii.eqb c' "s" then remove_rs r'
          else String c (remove_rs r)
      | EmptyString => String c EmptyString
      end
  end.

Definition sed_s_rs_g (l : file) : file := map remove_rs l.

(** [wc -l] *)
Definition wc_l (l : file) : nat := List.length l.

End Shell.

(** ** Python built-ins used by the script *)

Module Py.

(** [str.strip()] and [int()] are given for ASCII text, where a character
    is a byte: the white space removed is the ASCII white space and the
    digits are [0] to [9].  A file that holds other bytes is decoded by
    [open()] into characters that this model does not have (digits and
    blanks outside ASCII among them); [is_ascii] below states the scope.
    [int()] is the one of the interpreters that put no limit on the number
    of digits of a literal. *)

(** Characters removed by [str.strip()] (ASCII white space). *)
Definition is_space (c : ascii) : bool :=
  let n := nat_of_ascii c in
  ((9 <=? n)%nat && (n <=? 13)%nat) || ((28 <=? n)%nat && (n <=? 32)%nat).

Fixpoint lstrip (s : string) : string :=
  match s with
  | EmptyString => EmptyString
  | String c r => if is_space c then lstrip r else s
  end.

Fixpoint rstrip (s : string) : string :=
  match s with
  | EmptyString => EmptyString
  | String c r =>
      match rstrip r with
      | EmptyString => if is_space c then EmptyString else String c EmptyString
      | r' => String c r'
      end
  end.

Definition strip (s : string) : string := rstrip (lstrip s).

(** Digit groups may be separated by single underscores: the digits of a
    literal, or [None] where an underscore is misplaced. *)
Fixpoint drop_underscores (after_digit : bool) (s : string) : option string :=
  match s with
  | EmptyString => if after_digit then Some EmptyString else None
  | String c r =>
      if Ascii.eqb c "_" then
        if after_digit then drop_underscores false r else None
      else option_map (String c) (drop_underscores true r)
  end.

Definition int_of_digits (s : string) : option Z :=
  match drop_underscores false s with
  | Some ds => option_map (fun u => Z.of_N (N.of_uint u)) (NilZero.uint_of_string ds)
  | None => None
  end.

(** [int(s)] for a string argument; [None] stands for [ValueError]. *)
Definition int (s : string) : option Z :=
  match strip s with
  | String "-" r => option_map Z.opp (int_of_digits r)
  | String "+" r => int_of_digits r
  | t => int_of_digits t
  end.

(** [str(n)] for an integer. *)
Definition str (z : Z) : string := NilZero.string_of_int (Z.to_int z).

Fixpoint join (sep : string) (l : list string) : string :=
  match l with
  | [] => EmptyString
  | [x] => x
  | x :: l' => x ++ sep ++ join sep l'
  end.

(** [str(l)] for a list of integers. *)
Definition str_list (l : list Z) : string := "[" ++ join ", " (map str l) ++ "]".

(** [s.replace(old, empty)] for a non-empty [old]. *)
Fixpoint replace_by_empty (fuel : nat) (old s : string) : string :=
  match fuel with
  | O => s
  | S fuel' =>
      match s with
      | EmptyString => EmptyString
      | String c r =>
          if String.prefix old s
          then replace_by_empty fuel' old (substring (String.length old) (String.length s - String.length old) s)
          else String c (replace_by_empty fuel' old r)
      end
  end.

Definition replace (s old : string) : string :=
  replace_by_empty (String.length s) old s.

(** [old in s]. *)
Fixpoint occurs (old s : string) : bool :=
  String.prefix old s
  || match s with
     | EmptyString => false
     | String _ r => occurs old r
     end.

Definition carriage_return : ascii := ascii_of_nat 13.

(** The pieces of a string between its carriage returns. *)
Fixpoint split_cr (s : string) : list string :=
  match s with
  | EmptyString => [EmptyString]
  | String c r =>
      if Ascii.eqb c carriage_return then EmptyString :: split_cr r
      else match split_cr r with
           | piece :: pieces => String c piece :: pieces
           | [] => [String c EmptyString]
           end
  end.

(** The lines that a file opened in text mode yields for one line of the
    shell.  With universal newlines a carriage return ends a line as the
    line feed does, and a carriage return just before the line feed ends
    the same line. *)
Definition text_lines (s : string) : list string :=
  let pieces := split_cr s in
  match pieces with
  | _ :: _ :: _ =>
      match last pieces EmptyString with
      | EmptyString => removelast pieces
      | _ => pieces
      end
  | _ => pieces
  end.

(** The lines that iterating over a file handle yields. *)
Definition readlines (l : list string) : list string := flat_map text_lines l.

(** Text whose characters are all ASCII, so that a byte is a character. *)
Definition is_ascii (s : string) : bool :=
  forallb (fun c => (nat_of_ascii c <? 128)%nat) (list_ascii_of_string s).

End Py.

(** ** The temporary MongoDB instance *)

Module Mongo.

Record InactiveObject := {
  io_rs : option Z;
  io_ref : option string;
  io_alt : option string }.

(** The fields of a stored document that the queries of the script read;
    [None] is an absent field. *)
Record Document := {
  doc_accession : option Z;
  doc_type : option string;
  doc_rs : option Z;
  doc_ref : option string;
  doc_alt : option string;
  doc_eventType : option string;
  doc_reason : option string;
  doc_inactiveObjects : list InactiveObject }.

Definition opt_list {A : Type} (o : option A) : list A :=
  match o with Some a => [a] | None => [] end.

(** An integer field of a stored document is a 64-bit BSON integer.  A
    field is given by an integer; what the store holds and returns is its
    64-bit two's-complement value. *)
Definition is_int64 (z : Z) : bool :=
  (- 9223372036854775808 <=? z)%Z && (z <=? 9223372036854775807)%Z.

Definition int64 (z : Z) : Z :=
  ((z + 9223372036854775808) mod 18446744073709551616 - 9223372036854775808)%Z.

(** The integers found at a field path; a path through the array
    [inactiveObjects] reaches every element. *)
Definition int_values (path : string) (d : Document) : list Z :=
  if path =? "accession" then opt_list (option_map int64 (doc_accession d))
  else if path =? "rs" then opt_list (option_map int64 (doc_rs d))
  else if path =? "inactiveObjects.rs"
       then flat_map (fun o => opt_list (option_map int64 (io_rs o)))
                     (doc_inactiveObjects d)
  else [].

Definition string_values (path : string) (d : Document) : list string :=
  if path =? "type" then opt_list (doc_type d)
  else if path =? "ref" then opt_list (doc_ref d)
  else if path =? "alt" then opt_list (doc_alt d)
  else if path =? "eventType" then opt_list (doc_eventType d)
  else if path =? "reason" then opt_list (doc_reason d)
  else if path =? "inactiveObjects.ref"
       then flat_map (fun o => opt_list (io_ref o)) (doc_inactiveObjects d)
  else if path =? "inactiveObjects.alt"
       then flat_map (fun o => opt_list (io_alt o)) (doc_inactiveObjects d)
  else [].

(** The two regular expressions of the queries. *)
Inductive regex :=
| Declustered_prefix  (* ^Declustered.* *)
| Nucleotide_letters. (* ^[acgtnACGTN]+$ *)

Definition is_nucleotide_letter (c : ascii) : bool :=
  existsb (Ascii.eqb c) (list_ascii_of_string "acgtnACGTN").

Definition newline : ascii := ascii_of_nat 10.

(** [^[acgtnACGTN]+$]: one or more letters; [$] also matches before a final
    newline. *)
Fixpoint nucleotide_letters (s : string) : bool :=
  match s with
  | EmptyString => false
  | String c r =>
      is_nucleotide_letter c
      && match r with
         | EmptyString => true
         | String c' EmptyString => Ascii.eqb c' newline || is_nucleotide_letter c'
         | _ => nucleotide_letters r
         end
  end.

Definition regex_match (re : regex) (s : string) : bool :=
  match re with
  | Declustered_prefix => String.prefix "Declustered" s
  | Nucleotide_letters => nucleotide_letters s
  end.

(** The conditions of a [$match] stage. *)
Inductive clause :=
| Equals (path : string) (v : string)         (* path: v *)
| Regex (path : string) (re : regex)          (* path: {"$regex": re} *)
| Not_regex (path : string) (re : regex)      (* path: {"$not": re} *)
| In_ (path : string) (values : list Z)       (* path: {"$in": values} *)
| Or_ (c1 c2 : clause).                       (* "$or": [c1, c2] *)

Fixpoint clause_holds (c : clause) (d : Document) : bool :=
  match c with
  | Equals p v => existsb (String.eqb v) (string_values p d)
  | Regex p re => existsb (regex_match re) (string_values p d)
  | Not_regex p re => negb (existsb (regex_match re) (string_values p d))
  | In_ p vs => existsb (fun z => existsb (Z.eqb z) vs) (int_values p d)
  | Or_ c1 c2 => clause_holds c1 d || clause_holds c2 d
  end.

(** What the driver can encode in a command: every integer fits in 8
    bytes. *)
Fixpoint clause_encodable (c : clause) : bool :=
  match c with
  | In_ _ vs => forallb is_int64 vs
  | Or_ c1 c2 => clause_encodable c1 && clause_encodable c2
  | _ => true
  end.

(** An aggregation pipeline of the script: the conditions of its [$match]
    stage and the field projected as [accession]; the remaining stages
    ([$group] with [$addToSet], [$unwind], [$project]) are the same in all
    five pipelines and return the distinct projected values. *)
Record pipeline := {
  match_stage : list clause;
  project_accession : string }.

(** What [elem["accession"]] holds in a returned element. *)
Inductive value :=
| Number (z : Z)
| Array (zs : list Z)
| Missing.

Definition value_eq_dec (a b : value) : {a = b} + {a <> b}.
Proof. decide equality; try apply Z.eq_dec. apply (list_eq_dec Z.eq_dec). Defined.

Definition project (path : string) (d : Document) : value :=
  if path =? "inactiveObjects.rs" then Array (int_values path d)
  else match int_values path d with
       | z :: _ => Number z
       | [] => Missing
       end.

Definition encodable (p : pipeline) : bool :=
  forallb clause_encodable (match_stage p).

(** The conditions of a [$match] stage hold together. *)
Definition all_hold (cs : list clause) (d : Document) : bool :=
  forallb (fun c => clause_holds c d) cs.

Definition matches (p : pipeline) (d : Document) : bool :=
  all_hold (match_stage p) d.

(** [collection.aggregate(pipeline=p)] *)
Definition aggregate (collection : list Document) (p : pipeline) : list value :=
  nodup value_eq_dec (map (project (project_accession p)) (filter (matches p) collection)).

(** [pipeline[0]["$match"][path]["$in"] = batch]; [None] stands for the
    [KeyError] of a path that the stage does not constrain.  All call sites
    name the path that carries the [$in] of their pipeline. *)
Fixpoint set_in_clauses (path : string) (batch : list Z) (cs : list clause)
  : option (list clause) :=
  match cs with
  | [] => None
  | In_ p vs :: cs' =>
      if p =? path then Some (In_ p batch :: cs')
      else option_map (cons (In_ p vs)) (set_in_clauses path batch cs')
  | c :: cs' => option_map (cons c) (set_in_clauses path batch cs')
  end.

Definition set_in (path : string) (batch : list Z) (p : pipeline) : option pipeline :=
  option_map (fun cs => {| match_stage := cs; project_accession := project_accession p |})
             (set_in_clauses path batch (match_stage p)).

(** A database handle: the documents of each collection, or [None] where
    the instance cannot be queried. *)
Definition database := string -> option (list Document).

(** [mongoexport --fields accession --type csv --noHeaderLine]: one line
    per document, empty where the field is absent. *)
Definition mongoexport_accession (collection : list Document) : file :=
  map (fun d => match doc_accession d with
                | Some z => Py.str (int64 z)
                | None => EmptyString
                end) collection.

End Mongo.

(** ** Files on disk, exceptions and the effect monad *)

(** The files one validation run touches, for a fixed release folder,
    assembly accession and working directory, none of which holds ["_SVE"].
    Their names differ in their final component, so distinct constructors
    are distinct files. *)
Inductive path :=
| current_ids_vcf_gz            (* <release_folder>/<assembly>_current_ids.vcf.gz *)
| merged_ids_vcf_gz             (* ..._merged_ids.vcf.gz *)
| multimap_ids_vcf_gz           (* ..._multimap_ids.vcf.gz *)
| merged_deprecated_ids_txt_gz  (* ..._merged_deprecated_ids.txt.gz *)
| deprecated_ids_txt_gz         (* ..._deprecated_ids.txt.gz *)
| mongo_unique_rs_ids_txt       (* <release_folder>/<assembly>/<assembly>_mongo_unique_rs_ids.txt *)
| all_ids_txt                   (* <cwd>/<assembly>_all_ids.txt *)
| unique_ids_txt                (* <cwd>/<assembly>_unique_ids.txt *)
| missing_ids_txt               (* <cwd>/<assembly>_missing_ids.txt *)
| rs_still_missing_txt          (* <assembly>_rs_still_missing.txt *)
| category_txt (attribution_category : string) (* <assembly>_<category>.txt *)
| temp_file.                    (* the file made by tempfile.mkstemp *)

Definition path_eqb (p q : path) : bool :=
  match p, q with
  | current_ids_vcf_gz, current_ids_vcf_gz
  | merged_ids_vcf_gz, merged_ids_vcf_gz
  | multimap_ids_vcf_gz, multimap_ids_vcf_gz
  | merged_deprecated_ids_txt_gz, merged_deprecated_ids_txt_gz
  | deprecated_ids_txt_gz, deprecated_ids_txt_gz
  | mongo_unique_rs_ids_txt, mongo_unique_rs_ids_txt
  | all_ids_txt, all_ids_txt
  | unique_ids_txt, unique_ids_txt
  | missing_ids_txt, missing_ids_txt
  | rs_still_missing_txt, rs_still_missing_txt
  | temp_file, temp_file => true
  | category_txt a, category_txt b => String.eqb a b
  | _, _ => false
  end.

Definition filesystem := path -> option file.

Definition write (p : path) (content : option file) (fs : filesystem) : filesystem :=
  fun q => if path_eqb q p then content else fs q.

(** What a reading stage of a shell pipeline passes on: the lines of the
    file, nothing when it cannot be opened. *)
Definition contents (fs : filesystem) (p : path) : file :=
  match fs p with Some l => l | None => [] end.

Inductive exn :=
| CalledProcessError (returncode : Z)
| FileNotFoundError (p : path)
| ValueError
| KeyError
| IndexError
| TypeError
| OverflowError
| PyMongoError
| PortForwardingError
(* Exception("There are still {0} missing IDs. See {1}.") *)
| Exception_still_missing (count : Z) (residual : path).

Inductive result (A : Type) :=
| Ok (a : A)
| Raise (e : exn).
Arguments Ok {A} a.
Arguments Raise {A} e.

Definition M (A : Type) : Type := filesystem -> result A * filesystem.

Definition ret {A : Type} (a : A) : M A := fun fs => (Ok a, fs).

Definition raise {A : Type} (e : exn) : M A := fun fs => (Raise e, fs).

Definition bind {A B : Type} (m : M A) (k : A -> M B) : M B :=
  fun fs =>
    match m fs with
    | (Ok a, fs') => k a fs'
    | (Raise e, fs') => (Raise e, fs')
    end.

Notation "x <- m ;; k" := (bind m (fun x => k))
  (at level 61, m at next level, right associativity).
Notation "m ;;; k" := (bind m (fun _ => k))
  (at level 61, right associativity).

(** ** Shell commands as the script composes them *)

(** A command line: from the files on disk to its exit status, its standard
    output and the files it leaves.  The status of a pipeline is the status
    of its last command. *)
Definition command := filesystem -> Z * file * filesystem.

(** [run_command_with_output] of ebi_eva_common_pyutils: the output of the
    command, [CalledProcessError] on a non-zero exit status. *)
Definition run_command_with_output (c : command) : M file :=
  fun fs =>
    match c fs with
    | (status, out, fs') =>
        if Z.eqb status 0 then (Ok out, fs') else (Raise (CalledProcessError status), fs')
    end.

Module Cmd.

(** [rm -f a b] *)
Definition rm_f (a b : path) : command :=
  fun fs => (0%Z, [], write b None (write a None fs)).

(** [<pipeline> >> out]: the redirection creates [out] when absent. *)
Definition append_to (out : path) (pipeline : filesystem -> file) : command :=
  fun fs => (0%Z, [], write out (Some (contents fs out ++ pipeline fs)) fs).

(** [<pipeline> > out]: [out] is truncated before the pipeline reads. *)
Definition redirect_to (out : path) (pipeline : filesystem -> file) : command :=
  fun fs => let fs0 := write out (Some []) fs in
            (0%Z, [], write out (Some (pipeline fs0)) fs0).

(** [cp a b] *)
Definition cp (a b : path) : command :=
  fun fs => match fs a with
            | Some l => (0%Z, [], write b (Some l) fs)
            | None => (1%Z, [], fs)
            end.

(** [sort -o f f] *)
Definition sort_o (f : path) : command :=
  fun fs => match fs f with
            | Some l => (0%Z, [], write f (Some (Shell.sort l)) fs)
            | None => (2%Z, [], fs)
            end.

(** [sort -u -o f f] *)
Definition sort_u_o (f : path) : command :=
  fun fs => match fs f with
            | Some l => (0%Z, [], write f (Some (Shell.sort_u l)) fs)
            | None => (2%Z, [], fs)
            end.

(** [(wc -l < f)] *)
Definition wc_l_from (f : path) : command :=
  fun fs => match fs f with
            | Some l => (0%Z, [Py.str (Z.of_nat (Shell.wc_l l))], fs)
            | None => (1%Z, [], fs)
            end.

(** [mongoexport ... --collection c --fields accession --type csv
    --noHeaderLine --out f]: the output file is created anew. *)
Definition mongoexport (db : Mongo.database) (c : string) (f : path) : command :=
  fun fs => match db c with
            | Some docs => (0%Z, [], write f (Some (Mongo.mongoexport_accession docs)) fs)
            | None => (1%Z, [], fs)
            end.

(** [comm -23 a b > out] *)
Definition comm_23_to (a b out : path) : command :=
  fun fs => let fs0 := write out (Some []) fs in
            match fs0 a, fs0 b with
            | Some la, Some lb => (0%Z, [], write out (Some (Shell.comm_23 la lb)) fs0)
            | _, _ => (1%Z, [], fs0)
            end.

End Cmd.

(** ** The script *)

(** The five aggregation pipelines, with the empty [$in] they are declared
    with. *)
Definition get_merged_ss_query : Mongo.pipeline :=
  {| Mongo.match_stage :=
       [Mongo.Equals "eventType" "MERGED";
        Mongo.In_ "inactiveObjects.rs" []];
     Mongo.project_accession := "inactiveObjects.rs" |}.

Definition get_declustered_ss_query : Mongo.pipeline :=
  {| Mongo.match_stage :=
       [Mongo.Equals "eventType" "UPDATED";
        Mongo.Regex "reason" Mongo.Declustered_prefix;
        Mongo.In_ "inactiveObjects.rs" []];
     Mongo.project_accession := "inactiveObjects.rs" |}.

Definition get_tandem_repeat_rs_query : Mongo.pipeline :=
  {| Mongo.match_stage :=
       [Mongo.Equals "type" "TANDEM_REPEAT";
        Mongo.In_ "accession" []];
     Mongo.project_accession := "accession" |}.

Definition get_rs_with_non_nucleotide_letters_query_SVE : Mongo.pipeline :=
  {| Mongo.match_stage :=
       [Mongo.In_ "rs" [];
        Mongo.Or_ (Mongo.Not_regex "ref" Mongo.Nucleotide_letters)
                  (Mongo.Not_regex "alt" Mongo.Nucleotide_letters)];
     Mongo.project_accession := "rs" |}.

Definition get_rs_with_non_nucleotide_letters_query_SVOE : Mongo.pipeline :=
  {| Mongo.match_stage :=
       [Mongo.In_ "inactiveObjects.rs" [];
        Mongo.Or_ (Mongo.Not_regex "inactiveObjects.ref" Mongo.Nucleotide_letters)
                  (Mongo.Not_regex "inactiveObjects.alt" Mongo.Nucleotide_letters)];
     Mongo.project_accession := "inactiveObjects.rs" |}.

Definition sve_collection_name := "submittedVariantEntity".
Definition svoe_collection_name := "submittedVariantOperationEntity".
Definition dbsnp_sve_collection_name := "dbsnpSubmittedVariantEntity".
Definition dbsnp_svoe_collection_name := "dbsnpSubmittedVariantOperationEntity".
Definition cve_collection_name := "clusteredVariantEntity".
Definition dbsnp_cve_collection_name := "dbsnpClusteredVariantEntity".

(** [iter(lambda: list(itertools.islice(handle, n)), [])]: successive slices
    of [n] lines until an empty one.  Every slice but the last empty one
    consumes a line, so [S (length lines)] rounds exhaust the handle. *)
Fixpoint islice_batches (fuel n : nat) (lines : file) : list file :=
  match fuel with
  | O => []
  | S fuel' =>
      match firstn n lines with
      | [] => []
      | batch => batch :: islice_batches fuel' n (skipn n lines)
      end
  end.

Definition num_lines_to_read : nat := 1000.

Definition read_next_batch_of_missing_ids (missing_ids_file_handle : file) : list file :=
  islice_batches (S (List.length missing_ids_file_handle)) num_lines_to_read
                 missing_ids_file_handle.

(** The release universe: the ID column of the three VCF files (header
    lines dropped), both columns of the merged-deprecated file and the lines
    of the deprecated file, every "rs" removed, then [sort | uniq].  Each
    command ends in [sed] or [uniq] writing to a redirection, so none of
    them fails, whatever the release folder holds. *)
Definition generate_unique_rs_ids_file : M path :=
  let from_vcf (f : path) := fun fs =>
    Shell.sed_s_rs_g (Shell.cut_f 3 (Shell.grep_v_hash (contents fs f))) in
  run_command_with_output (Cmd.rm_f all_ids_txt unique_ids_txt) ;;;
  run_command_with_output (Cmd.append_to all_ids_txt (from_vcf current_ids_vcf_gz)) ;;;
  run_command_with_output (Cmd.append_to all_ids_txt (from_vcf merged_ids_vcf_gz)) ;;;
  run_command_with_output (Cmd.append_to all_ids_txt (from_vcf multimap_ids_vcf_gz)) ;;;
  run_command_with_output (Cmd.append_to all_ids_txt (fun fs =>
    Shell.sed_s_rs_g (Shell.cut_f 1 (contents fs merged_deprecated_ids_txt_gz)))) ;;;
  run_command_with_output (Cmd.append_to all_ids_txt (fun fs =>
    Shell.sed_s_rs_g (Shell.cut_f 2 (contents fs merged_deprecated_ids_txt_gz)))) ;;;
  run_command_with_output (Cmd.append_to all_ids_txt (fun fs =>
    Shell.sed_s_rs_g (contents fs deprecated_ids_txt_gz))) ;;;
  run_command_with_output (Cmd.append_to unique_ids_txt (fun fs =>
    Shell.uniq (Shell.sort (contents fs all_ids_txt)))) ;;;
  ret unique_ids_txt.

(** [comm -31 release mongo | grep -E "^[0-9]+$" | cat > missing]: the
    lines only in the second file that are digit strings.  [comm] ends
    without output when it cannot open one of its files; the status of the
    pipeline is that of [cat]. *)
Definition diff_release_ids_against_mongo_rs_ids
  (unique_release_ids_file unique_mongo_ids_file : path) : M path :=
  run_command_with_output (Cmd.redirect_to missing_ids_txt (fun fs =>
    Shell.grep_E_digits
      match fs unique_release_ids_file, fs unique_mongo_ids_file with
      | Some release, Some mongo => Shell.comm_31 release mongo
      | _, _ => []
      end)) ;;;
  ret missing_ids_txt.

(** [[f(x) for x in l]] where [f] may raise. *)
Fixpoint comprehension {A B : Type} (f : A -> exn + B) (l : list A) : exn + list B :=
  match l with
  | [] => inr []
  | x :: l' =>
      match f x with
      | inl e => inl e
      | inr y => match comprehension f l' with
                 | inl e => inl e
                 | inr ys => inr (y :: ys)
                 end
      end
  end.

(** [int(line.strip())] *)
Definition parse_id (l : line) : exn + Z :=
  match Py.int (Py.strip l) with
  | Some z => inr z
  | None => inl ValueError
  end.

(** ["inactiveObjects" in rs_id_attribute_path] *)
Definition mentions_inactiveObjects (rs_id_attribute_path : string) : bool :=
  match String.index 0 "inactiveObjects" rs_id_attribute_path with
  | Some _ => true
  | None => false
  end.

(** The line written for one element of a query result. *)
Definition line_to_write (rs_id_attribute_path : string) (elem : Mongo.value) : exn + line :=
  if mentions_inactiveObjects rs_id_attribute_path then
    (* str(elem["accession"][0]) *)
    match elem with
    | Mongo.Array (z :: _) => inr (Py.str z)
    | Mongo.Array [] => inl IndexError
    | Mongo.Number _ => inl TypeError
    | Mongo.Missing => inl KeyError
    end
  else
    (* str(elem["accession"]) *)
    match elem with
    | Mongo.Number z => inr (Py.str z)
    | Mongo.Array zs => inr (Py.str_list zs)
    | Mongo.Missing => inl KeyError
    end.

(** The inner loop over the collection handles: the lines written to the
    output file, and the exception that ended the loop if any.  [aggregate]
    selects a server first ([PyMongoError] where the collection cannot be
    queried) and then encodes the command ([OverflowError] for an integer
    of the [$in] list beyond 8 bytes). *)
Fixpoint query_collections (collection_handles : list (option (list Mongo.Document)))
  (query : Mongo.pipeline) (rs_id_attribute_path : string) : file * option exn :=
  match collection_handles with
  | [] => ([], None)
  | None :: _ => ([], Some PyMongoError)
  | Some docs :: rest =>
      if Mongo.encodable query then
        match comprehension (line_to_write rs_id_attribute_path)
                            (Mongo.aggregate docs query) with
        | inl e => ([], Some e)
        | inr lines_to_write =>
            let '(more, e) := query_collections rest query rs_id_attribute_path in
            (lines_to_write ++ more, e)
        end
      else ([], Some OverflowError)
  end.

(** The outer loop over the batches of missing IDs. *)
Fixpoint query_batches (batches : list file)
  (collection_handles : list (option (list Mongo.Document)))
  (aggregate_query_to_use : Mongo.pipeline) (rs_id_attribute_path : string)
  : file * option exn :=
  match batches with
  | [] => ([], None)
  | lines :: rest =>
      match comprehension parse_id lines with
      | inl e => ([], Some e)
      | inr ids =>
          match Mongo.set_in rs_id_attribute_path ids aggregate_query_to_use with
          | None => ([], Some KeyError)
          | Some query =>
              match query_collections collection_handles query rs_id_attribute_path with
              | (written, Some e) => (written, Some e)
              | (written, None) =>
                  let '(more, e) :=
                    query_batches rest collection_handles query rs_id_attribute_path in
                  (written ++ more, e)
              end
          end
      end
  end.

(** The evaluator of one category.  Both files are opened first; the output
    file keeps what was written before an exception.  The candidate file is
    read in text mode. *)
Definition get_ids_from_mongo_for_category (missing_ids_file : path)
  (mongo_database_handle : Mongo.database) (aggregate_query_to_use : Mongo.pipeline)
  (rs_id_attribute_path : string) (collections_to_query : list string)
  (attribution_category : string) : M path :=
  let collection_handles := map mongo_database_handle collections_to_query in
  let output_file := category_txt attribution_category in
  fun fs =>
    match fs missing_ids_file with
    | None => (Raise (FileNotFoundError missing_ids_file), fs)
    | Some _ =>
        (* open(output_file, "w") truncates before the first line is read *)
        let fs0 := write output_file (Some []) fs in
        let '(written, e) :=
          query_batches
            (read_next_batch_of_missing_ids (Py.readlines (contents fs0 missing_ids_file)))
            collection_handles aggregate_query_to_use rs_id_attribute_path in
        (match e with None => Ok output_file | Some e => Raise e end,
         write output_file (Some written) fs0)
    end.

Definition get_rs_with_merged_ss (missing_ids_file : path)
  (mongo_database_handle : Mongo.database) : M path :=
  get_ids_from_mongo_for_category missing_ids_file mongo_database_handle
    get_merged_ss_query "inactiveObjects.rs"
    [dbsnp_svoe_collection_name; svoe_collection_name]
    "rs_with_merged_ss_parents".

Definition get_rs_with_declustered_ss (missing_ids_file : path)
  (mongo_database_handle : Mongo.database) : M path :=
  get_ids_from_mongo_for_category missing_ids_file mongo_database_handle
    get_declustered_ss_query "inactiveObjects.rs"
    [dbsnp_svoe_collection_name; svoe_collection_name]
    "rs_with_declustered_ss_parents".

Definition get_rs_with_tandem_repeat_type (missing_ids_file : path)
  (mongo_database_handle : Mongo.database) : M path :=
  get_ids_from_mongo_for_category missing_ids_file mongo_database_handle
    get_tandem_repeat_rs_query "accession"
    [dbsnp_cve_collection_name; cve_collection_name]
    "rs_with_tandem_repeat_type".

(** The name of a category file, [os.path.join(directory,
    "{0}_{1}.txt".format(assembly_accession, attribution_category))]; the
    [prefix] is the directory joined with the assembly accession. *)
Definition category_file_name (prefix attribution_category : string) : string :=
  (prefix ++ "_" ++ attribution_category ++ ".txt")%string.

(** [results_from_sve_file.replace]: every ["_SVE"] is removed.  The
    replacement acts on the whole path.  [path] fixes the directory and the
    assembly accession of a run and names a category file by its category,
    so the replacement is made in the category: this is the path that
    [str.replace] gives when neither the directory nor the accession holds
    ["_SVE"] (lemma [replace_SVE_on_whole_path]).  A run in a directory
    whose path holds ["_SVE"] is outside this model. *)
Definition replace_SVE (p : path) : path :=
  match p with
  | category_txt c => category_txt (Py.replace c "_SVE")
  | _ => p
  end.

Definition get_rs_with_non_nucleotide_letters (missing_ids_file : path)
  (mongo_database_handle : Mongo.database) : M path :=
  results_from_sve_file <-
    get_ids_from_mongo_for_category missing_ids_file mongo_database_handle
      get_rs_with_non_nucleotide_letters_query_SVE "rs"
      [dbsnp_sve_collection_name; sve_collection_name]
      "rs_with_non_nucleotide_letters_SVE" ;;
  results_from_svoe_file <-
    get_ids_from_mongo_for_category missing_ids_file mongo_database_handle
      get_rs_with_non_nucleotide_letters_query_SVOE "inactiveObjects.rs"
      [dbsnp_svoe_collection_name; svoe_collection_name]
      "rs_with_non_nucleotide_letters_SVOE" ;;
  let final_result_file := replace_SVE results_from_sve_file in
  (* (cat sve svoe | sort | uniq > final) *)
  run_command_with_output (Cmd.redirect_to final_result_file (fun fs =>
    Shell.uniq (Shell.sort (contents fs results_from_sve_file
                            ++ contents fs results_from_svoe_file)))) ;;;
  ret final_result_file.

(** [tempfile.mkstemp]: a new, empty file. *)
Definition mkstemp : M path :=
  fun fs => (Ok temp_file, write temp_file (Some []) fs).

(** [file_diff(a, b, FileDiffOption.NOT_IN, output_file_path=out)] of
    ebi_eva_common_pyutils: the lines of the sorted file [a] that are not in
    the sorted file [b], computed by [comm -23]. *)
Definition file_diff_NOT_IN (a b out : path) : M file :=
  run_command_with_output (Cmd.comm_23_to a b out).

(** [shutil.move(src, dst)] *)
Definition shutil_move (src dst : path) : M unit :=
  fun fs => match fs src with
            | Some l => (Ok tt, write src None (write dst (Some l) fs))
            | None => (Raise (FileNotFoundError src), fs)
            end.

(** Residual := residual - attributed; both files are sorted in place
    first. *)
Definition get_residual_missing_rs_ids_file
  (rs_still_missing_file attributed_rs_ids_file : path) : M path :=
  run_command_with_output (Cmd.sort_o rs_still_missing_file) ;;;
  run_command_with_output (Cmd.sort_o attributed_rs_ids_file) ;;;
  temp_residual_file <- mkstemp ;;
  file_diff_NOT_IN rs_still_missing_file attributed_rs_ids_file temp_residual_file ;;;
  shutil_move temp_residual_file rs_still_missing_file ;;;
  ret rs_still_missing_file.

(** [process_output]: every line of the output followed by a newline. *)
Definition process_output (out : file) : string :=
  String.concat EmptyString (map (fun l => (l ++ String Mongo.newline EmptyString)%string) out).

(** The four categories in their fixed order.  The residual is subtracted
    after the first three; the final count is taken from [missing_ids_file]. *)
Definition get_missing_ids_attributions (missing_ids_file : path)
  (mongo_database_handle : Mongo.database) : M unit :=
  let rs_still_missing_file := rs_still_missing_txt in
  run_command_with_output (Cmd.cp missing_ids_file rs_still_missing_file) ;;;
  rs_with_merged_ss_file <-
    get_rs_with_merged_ss rs_still_missing_file mongo_database_handle ;;
  rs_still_missing_file <-
    get_residual_missing_rs_ids_file rs_still_missing_file rs_with_merged_ss_file ;;
  rs_with_declustered_ss_file <-
    get_rs_with_declustered_ss rs_still_missing_file mongo_database_handle ;;
  rs_still_missing_file <-
    get_residual_missing_rs_ids_file rs_still_missing_file rs_with_declustered_ss_file ;;
  rs_with_tandem_repeats_file <-
    get_rs_with_tandem_repeat_type rs_still_missing_file mongo_database_handle ;;
  rs_still_missing_file <-
    get_residual_missing_rs_ids_file rs_still_missing_file rs_with_tandem_repeats_file ;;
  rs_with_non_nucleotide_letters_file <-
    get_rs_with_non_nucleotide_letters rs_still_missing_file mongo_database_handle ;;
  out <- run_command_with_output (Cmd.wc_l_from missing_ids_file) ;;
  match Py.int (Py.strip (process_output out)) with
  | None => raise ValueError
  | Some num_unattributed_missing_rs_ids =>
      if (num_unattributed_missing_rs_ids >? 0)%Z
      then raise (Exception_still_missing num_unattributed_missing_rs_ids
                                          rs_still_missing_file)
      else ret tt
  end.

Fixpoint for_each {A : Type} (l : list A) (body : A -> M file) : M unit :=
  match l with
  | [] => ret tt
  | x :: l' => body x ;;; for_each l' body
  end.

(** The store universe.  The four exports name the same output file, which
    each of them creates anew. *)
Definition export_unique_rs_ids_from_mongo (db : Mongo.database)
  (mongo_unique_rs_ids_file : path) : M unit :=
  for_each ["clusteredVariantEntity"; "clusteredVariantOperationEntity";
            "dbsnpClusteredVariantEntity"; "dbsnpClusteredVariantOperationEntity"]
           (fun collection =>
              run_command_with_output
                (Cmd.mongoexport db collection mongo_unique_rs_ids_file)) ;;;
  run_command_with_output (Cmd.sort_u_o mongo_unique_rs_ids_file) ;;;
  ret tt.

(** The outside world of one run.  [open_mongo_port_to_tempmongo] and
    [close_mongo_port_to_tempmongo] belong to [release_common_utils] and are
    taken as given: whether the port to the temporary MongoDB instance opens
    (then the process id of the forwarding and the port), and the exception
    that closing the forwarding raises, if any.  [release_db] is the release
    database behind the port. *)
Record environment := {
  open_mongo_port_to_tempmongo : option (Z * Z);
  close_mongo_port_to_tempmongo : Z -> option exn;
  release_db : Mongo.database }.

(** The [try] block of [validate_rs_release_files]; the first component
    tells whether [port_forwarding_process_id] has been bound. *)
Definition validate_try_block (env : environment)
  : filesystem -> option Z * (result unit * filesystem) :=
  fun fs =>
    match open_mongo_port_to_tempmongo env with
    | None => (None, (Raise PortForwardingError, fs))
    | Some (port_forwarding_process_id, mongo_port) =>
        (Some port_forwarding_process_id,
         (let mongo_unique_rs_ids_file := mongo_unique_rs_ids_txt in
          export_unique_rs_ids_from_mongo (release_db env) mongo_unique_rs_ids_file ;;;
          unique_release_rs_ids_file <- generate_unique_rs_ids_file ;;
          missing_rs_ids_file <-
            diff_release_ids_against_mongo_rs_ids unique_release_rs_ids_file
                                                  mongo_unique_rs_ids_file ;;
          get_missing_ids_attributions missing_rs_ids_file (release_db env)) fs)
    end.

(** The status with which the interpreter ends after [sys.exit(code)]. *)
Definition sys_exit (code : Z) : Z := (code mod 256)%Z.

(** The status with which the interpreter ends on an uncaught exception. *)
Definition uncaught_exception_status : Z := 1%Z.

(** [validate_rs_release_files]: the exit status of the process and the
    files it leaves.  [exit_code] is assigned in the [except] clause only;
    the [finally] clause reads [port_forwarding_process_id] and [exit_code],
    and reading an unbound local raises [UnboundLocalError], which nothing
    catches. *)
Definition validate_rs_release_files (env : environment) (fs : filesystem)
  : Z * filesystem :=
  let '(port_forwarding_process_id, (outcome, fs')) := validate_try_block env fs in
  let exit_code : option Z :=
    match outcome with
    | Ok _ => None
    | Raise _ => Some (-1)%Z
    end in
  match port_forwarding_process_id with
  | None => (uncaught_exception_status, fs')
  | Some pid =>
      match close_mongo_port_to_tempmongo env pid with
      | Some _ => (uncaught_exception_status, fs')
      | None =>
          match exit_code with
          | None => (uncaught_exception_status, fs')
          | Some code => (sys_exit code, fs')
          end
      end
  end.

(** ** Observations used in the statements *)

(** The five call sites of [get_ids_from_mongo_for_category]: pipeline,
    identifier path, collections and category name. *)
Definition category_calls : list (Mongo.pipeline * string * list string * string) :=
  [ (get_merged_ss_query, "inactiveObjects.rs",
     [dbsnp_svoe_collection_name; svoe_collection_name], "rs_with_merged_ss_parents");
    (get_declustered_ss_query, "inactiveObjects.rs",
     [dbsnp_svoe_collection_name; svoe_collection_name], "rs_with_declustered_ss_parents");
    (get_tandem_repeat_rs_query, "accession",
     [dbsnp_cve_collection_name; cve_collection_name], "rs_with_tandem_repeat_type");
    (get_rs_with_non_nucleotide_letters_query_SVE, "rs",
     [dbsnp_sve_collection_name; sve_collection_name], "rs_with_non_nucleotide_letters_SVE");
    (get_rs_with_non_nucleotide_letters_query_SVOE, "inactiveObjects.rs",
     [dbsnp_svoe_collection_name; svoe_collection_name],
     "rs_with_non_nucleotide_letters_SVOE") ].

(** A candidate line that holds an integer of at most 8 bytes. *)
Definition int64_line (l : line) : bool :=
  match parse_id l with
  | inr z => Mongo.is_int64 z
  | inl _ => false
  end.





(** A disk that holds exactly the listed files. *)
Definition disk (files : list (path * file)) : filesystem :=
  fun p => option_map snd (find (fun pf => path_eqb p (fst pf)) files).

(** The missing-IDs file that [diff_release_ids_against_mongo_rs_ids]
    leaves for a release-side file [a] and a store-side file [b]. *)
Definition diff (a b : file) : file :=
  contents
    (snd (diff_release_ids_against_mongo_rs_ids unique_ids_txt mongo_unique_rs_ids_txt
            (disk [(unique_ids_txt, a); (mongo_unique_rs_ids_txt, b)])))
    missing_ids_txt.

(** The tokens that the six extraction commands of
    [generate_unique_rs_ids_file] append to the all-IDs file. *)
Definition extracted_tokens (fs : filesystem) : file :=
  Shell.sed_s_rs_g (Shell.cut_f 3 (Shell.grep_v_hash (contents fs current_ids_vcf_gz)))
  ++ Shell.sed_s_rs_g (Shell.cut_f 3 (Shell.grep_v_hash (contents fs merged_ids_vcf_gz)))
  ++ Shell.sed_s_rs_g (Shell.cut_f 3 (Shell.grep_v_hash (contents fs multimap_ids_vcf_gz)))
  ++ Shell.sed_s_rs_g (Shell.cut_f 1 (contents fs merged_deprecated_ids_txt_gz))
  ++ Shell.sed_s_rs_g (Shell.cut_f 2 (contents fs merged_deprecated_ids_txt_gz))
  ++ Shell.sed_s_rs_g (contents fs deprecated_ids_txt_gz).

(** A record line of a release VCF file with the given ID column. *)
Definition vcf_line (id : string) : line :=
  let t := String Shell.tab EmptyString in
  ("1" ++ t ++ "100" ++ t ++ id ++ t ++ "A" ++ t ++ "T")%string.

(** A string without a TAB. *)
Definition tab_free (s : string) : bool :=
  forallb (fun c => negb (Ascii.eqb c Shell.tab)) (list_ascii_of_string s).

(** A record line of a release VCF file: CHROM, POS, ID and the remaining
    columns. *)
Definition vcf_record (chrom pos id rest : string) : line :=
  let t := String Shell.tab EmptyString in
  (chrom ++ t ++ pos ++ t ++ id ++ t ++ rest)%string.

(** A line of the merged-deprecated file: two TAB-separated columns. *)
Definition two_columns (first second : string) : line :=
  (first ++ String Shell.tab EmptyString ++ second)%string.

(** The release files are the inputs of a run; every other file is written
    by it. *)
Definition is_release_file (p : path) : bool :=
  match p with
  | current_ids_vcf_gz | merged_ids_vcf_gz | multimap_ids_vcf_gz
  | merged_deprecated_ids_txt_gz | deprecated_ids_txt_gz => true
  | _ => false
  end.

(** ** What a computation reads and writes *)

Definition pathset := path -> bool.

Definition union (K W : pathset) : pathset := fun p => K p || W p.

Definition only (f : path) : pathset := fun p => path_eqb p f.

Definition nothing : pathset := fun _ => false.

(** Two disks agree on a set of files. *)
Definition eqon (K : pathset) (fs fs' : filesystem) : Prop :=
  forall p, K p = true -> fs p = fs' p.

(** The files a computation has replaced, with their new state. *)
Definition delta := path -> option (option file).

Definition override (d : delta) (fs : filesystem) : filesystem :=
  fun p => match d p with Some v => v | None => fs p end.

(** [m] is determined by the files in [K]: on all disks that agree on [K]
    it returns the same result and replaces the same files by the same
    contents; it never replaces a release file, when it returns normally
    the result satisfies [Q] and the files in [W] are among the replaced
    ones. *)
Definition determined {A : Type} (K : pathset) (m : M A) (W : pathset) (Q : A -> Prop) : Prop :=
  forall fs, exists (r : result A) (d : delta),
    (forall p, is_release_file p = true -> d p = None) /\
    (forall a, r = Ok a -> Q a /\ forall p, W p = true -> d p <> None) /\
    forall fs', eqon K fs fs' ->
                fst (m fs') = r /\ forall p, snd (m fs') p = override d fs' p.

(** The residual file holds lines of the initial missing-IDs file only, and
    not more of them. *)
Definition residual_within (missing : file) (fs : filesystem) : Prop :=
  exists residual,
    fs rs_still_missing_txt = Some residual /\
    (forall x, In x residual -> In x missing) /\
    List.length residual <= List.length missing.

(** [m], started on files that satisfy [P], preserves the invariant [Inv] of
    the files, however it ends; when it returns normally its result
    satisfies [Qv] and the files satisfy [Qs]. *)
Definition keeps {A : Type} (Inv P : filesystem -> Prop) (m : M A)
  (Qv : A -> Prop) (Qs : filesystem -> Prop) : Prop :=
  forall fs, P fs -> Inv fs ->
    Inv (snd (m fs)) /\
    forall a, fst (m fs) = Ok a -> Qv a /\ Qs (snd (m fs)).

(** An invariant that no write outside [protected] can break. *)
Definition frame_invariant (protected : path -> Prop) (Inv : filesystem -> Prop) : Prop :=
  forall fs p v, ~ protected p -> Inv fs -> Inv (write p v fs).

(** ** The attribution, step by step *)

(** One category step of [get_missing_ids_attributions]: a category is
    evaluated on the residual file, then its file is subtracted from the
    residual file. *)
Definition attribution_step (evaluate : path -> Mongo.database -> M path)
  (mongo_database_handle : Mongo.database) : M unit :=
  attributed_rs_ids_file <- evaluate rs_still_missing_txt mongo_database_handle ;;
  get_residual_missing_rs_ids_file rs_still_missing_txt attributed_rs_ids_file ;;;
  ret tt.

(** The statements of [get_missing_ids_attributions] in their order: the
    copy that creates the residual file, the three category steps, the
    evaluation of the last category and the count. *)
Definition attribution_steps (missing_ids_file : path)
  (mongo_database_handle : Mongo.database) : list (M unit) :=
  [ run_command_with_output (Cmd.cp missing_ids_file rs_still_missing_txt) ;;; ret tt;
    attribution_step get_rs_with_merged_ss mongo_database_handle;
    attribution_step get_rs_with_declustered_ss mongo_database_handle;
    attribution_step get_rs_with_tandem_repeat_type mongo_database_handle;
    get_rs_with_non_nucleotide_letters rs_still_missing_txt mongo_database_handle ;;; ret tt;
    (out <- run_command_with_output (Cmd.wc_l_from missing_ids_file) ;;
     match Py.int (Py.strip (process_output out)) with
     | None => raise ValueError
     | Some num_unattributed_missing_rs_ids =>
         if (num_unattributed_missing_rs_ids >? 0)%Z
         then raise (Exception_still_missing num_unattributed_missing_rs_ids
                                             rs_still_missing_txt)
         else ret tt
     end) ].

(** Steps run one after the other; an exception ends the run. *)
Fixpoint run_steps (steps : list (M unit)) : M unit :=
  match steps with
  | [] => ret tt
  | step :: rest => step ;;; run_steps rest
  end.

(** The categories whose file is subtracted from the residual file, in the
    order of their steps. *)
Definition subtracted_categories : list string :=
  ["rs_with_merged_ss_parents"; "rs_with_declustered_ss_parents";
   "rs_with_tandem_repeat_type"].

(** What the step of category [c], ended as [r], has made of a residual
    file that held [before]: when the step has returned, [after] is what
    [comm -23] leaves of the sorted lines of [before] against the file of
    the category, so for a file without repeated lines, the lines of
    [before] that are not in the file of the category; when the run has
    stopped with an exception, the residual file is as it was. *)
Definition subtracted (c : string) (r : result unit * filesystem)
  (before after : file) : Prop :=
  match fst r with
  | Ok _ =>
      exists attributed,
        snd r (category_txt c) = Some attributed /\
        after = Shell.comm_23 (Shell.sort before) attributed /\
        (NoDup before -> forall x, In x after <-> In x before /\ ~ In x attributed)
  | Raise _ => after = before
  end.

(** A step that leaves a residual file in which every line is a line of the
    file it found, and not more of them. *)
Definition shrinks (step : M unit) : Prop :=
  forall fs before,
    fs rs_still_missing_txt = Some before ->
    exists after,
      snd (step fs) rs_still_missing_txt = Some after /\
      (forall x, In x after -> In x before) /\
      List.length after <= List.length before.

(** A step that does not write the residual file. *)
Definition leaves_residual (step : M unit) : Prop :=
  forall fs, snd (step fs) rs_still_missing_txt = fs rs_still_missing_txt.

(** ** Example data *)

(** A document of a clustered-variant collection. *)
Definition clustered (accession : Z) (type : string) : Mongo.Document :=
  {| Mongo.doc_accession := Some accession; Mongo.doc_type := Some type;
     Mongo.doc_rs := None; Mongo.doc_ref := None; Mongo.doc_alt := None;
     Mongo.doc_eventType := None; Mongo.doc_reason := None;
     Mongo.doc_inactiveObjects := [] |}.

(** A document of a submitted-variant collection. *)
Definition submitted (rs : Z) (ref alt : string) : Mongo.Document :=
  {| Mongo.doc_accession := None; Mongo.doc_type := None;
     Mongo.doc_rs := Some rs; Mongo.doc_ref := Some ref; Mongo.doc_alt := Some alt;
     Mongo.doc_eventType := None; Mongo.doc_reason := None;
     Mongo.doc_inactiveObjects := [] |}.

(** An operation on a submitted variant that was clustered under [rs]. *)
Definition operation (eventType reason : string) (rs : Z) : Mongo.Document :=
  {| Mongo.doc_accession := None; Mongo.doc_type := None;
     Mongo.doc_rs := None; Mongo.doc_ref := None; Mongo.doc_alt := None;
     Mongo.doc_eventType := Some eventType; Mongo.doc_reason := Some reason;
     Mongo.doc_inactiveObjects :=
       [ {| Mongo.io_rs := Some rs; Mongo.io_ref := Some "A"; Mongo.io_alt := Some "T" |} ] |}.

(** A reachable database with the listed collections; any other collection
    is empty. *)
Definition store (collections : list (string * list Mongo.Document)) : Mongo.database :=
  fun c => Some (match find (fun cd => String.eqb c (fst cd)) collections with
                 | Some (_, docs) => docs
                 | None => []
                 end).

(** A release folder whose current-IDs file lists rs1, rs2 and rs3. *)
Definition release_1_2_3 : filesystem :=
  disk [(current_ids_vcf_gz,
         ["##fileformat=VCFv4.1"; vcf_line "rs1"; vcf_line "rs2"; vcf_line "rs3"]);
        (merged_ids_vcf_gz, []); (multimap_ids_vcf_gz, []);
        (merged_deprecated_ids_txt_gz, []); (deprecated_ids_txt_gz, [])].

(** The port opens and closes without an exception. *)
Definition reachable (db : Mongo.database) : environment :=
  {| open_mongo_port_to_tempmongo := Some (4242, 27017)%Z;
     close_mongo_port_to_tempmongo := fun _ => None;
     release_db := db |}.

(** The store holds exactly the released identifiers. *)
Definition store_1_2_3 : Mongo.database :=
  store [("dbsnpClusteredVariantOperationEntity",
          [clustered 1 "SNV"; clustered 2 "SNV"; clustered 3 "SNV"])].

(** The store also holds 4, whose submitted variant was merged, and 5,
    whose submitted variant was declustered. *)
Definition store_4_merged_5_declustered : Mongo.database :=
  store [("dbsnpClusteredVariantOperationEntity",
          [clustered 1 "SNV"; clustered 2 "SNV"; clustered 3 "SNV";
           clustered 4 "SNV"; clustered 5 "SNV"]);
         (dbsnp_svoe_collection_name,
          [operation "MERGED" "Identical submitted variant" 4;
           operation "UPDATED" "Declustered: none of the variant alleles match" 5])].

(** The store also holds 4, a submitted variant of which has an allele
    with other than nucleotide letters. *)
Definition store_4_non_nucleotide : Mongo.database :=
  store [("dbsnpClusteredVariantOperationEntity",
          [clustered 1 "SNV"; clustered 2 "SNV"; clustered 3 "SNV"; clustered 4 "SNV"]);
         (dbsnp_sve_collection_name, [submitted 4 "A" "(ACG)3"])].

(** The candidate lines 1, 2, ..., n. *)
Definition numbered (n : nat) : file :=
  map (fun k => Py.str (Z.of_nat k)) (seq 1 n).

(** Identifier 4 has a merge operation in both operation collections. *)
Definition store_4_merged_twice : Mongo.database :=
  store [(dbsnp_svoe_collection_name, [operation "MERGED" "Identical submitted variant" 4]);
         (svoe_collection_name, [operation "MERGED" "Identical submitted variant" 4])].

(** An operation on two submitted variants, clustered under [first] and
    under [second]. *)
Definition operation_on_two (eventType reason : string) (first second : Z)
  : Mongo.Document :=
  {| Mongo.doc_accession := None; Mongo.doc_type := None;
     Mongo.doc_rs := None; Mongo.doc_ref := None; Mongo.doc_alt := None;
     Mongo.doc_eventType := Some eventType; Mongo.doc_reason := Some reason;
     Mongo.doc_inactiveObjects :=
       [ {| Mongo.io_rs := Some first; Mongo.io_ref := Some "A"; Mongo.io_alt := Some "T" |};
         {| Mongo.io_rs := Some second; Mongo.io_ref := Some "A"; Mongo.io_alt := Some "G" |} ] |}.

(** One merge operation holds a submitted variant of 9 and then one of 4. *)
Definition store_9_and_4_merged_together : Mongo.database :=
  store [(dbsnp_svoe_collection_name,
          [operation_on_two "MERGED" "Identical submitted variant" 9 4])].

Arguments Shell.comm : simpl never.
Arguments write : simpl never.

(** * Proofs *)

(** ** Properties of the line order *)

Lemma compare_refl (x : line) : String.compare x x = Eq.
Proof. apply String_as_OT.cmp_eq. reflexivity. Qed.

Lemma compare_eq (x y : line) : String.compare x y = Eq -> x = y.
Proof. apply String.compare_eq_iff. Qed.

Lemma compare_gt_lt (x y : line) : String.compare x y = Gt -> line_lt y x.
Proof.
  unfold line_lt. intros H. rewrite String.compare_antisym, H. reflexivity.
Qed.

Lemma line_lt_irrefl (x : line) : ~ line_lt x x.
Proof. unfold line_lt. rewrite compare_refl. discriminate. Qed.

Lemma line_lt_trans (x y z : line) : line_lt x y -> line_lt y z -> line_lt x z.
Proof.
  unfold line_lt. intros H1 H2.
  apply String_as_OT.cmp_lt in H1. apply String_as_OT.cmp_lt in H2.
  apply String_as_OT.cmp_lt. eapply String_as_OT.lt_trans; eassumption.
Qed.

Lemma line_le_cases (x y : line) : line_le x y <-> x = y \/ line_lt x y.
Proof.
  unfold line_le, line_lt. split.
  - destruct (String.compare x y) eqn:E; intros H.
    + left. now apply compare_eq.
    + now right.
    + now elim H.
  - intros [-> | H].
    + rewrite compare_refl. discriminate.
    + rewrite H. discriminate.
Qed.

Lemma line_lt_le (x y : line) : line_lt x y -> line_le x y.
Proof. intros H. apply line_le_cases. now right. Qed.

Lemma line_le_refl (x : line) : line_le x x.
Proof. apply line_le_cases. now left. Qed.

Lemma line_le_trans (x y z : line) : line_le x y -> line_le y z -> line_le x z.
Proof.
  rewrite !line_le_cases. intros [-> | H1] [-> | H2]; auto.
  right. eapply line_lt_trans; eassumption.
Qed.

Lemma line_lt_le_trans (x y z : line) : line_lt x y -> line_le y z -> line_lt x z.
Proof.
  intros H1 H2. apply line_le_cases in H2. destruct H2 as [-> | H2]; auto.
  eapply line_lt_trans; eassumption.
Qed.

Lemma line_le_lt_trans (x y z : line) : line_le x y -> line_lt y z -> line_lt x z.
Proof.
  intros H1 H2. apply line_le_cases in H1. destruct H1 as [-> | H1]; auto.
  eapply line_lt_trans; eassumption.
Qed.

Lemma line_le_not_lt (x y : line) : line_le x y -> ~ line_lt y x.
Proof.
  intros H1 H2. apply (line_lt_irrefl y). eapply line_lt_le_trans; eassumption.
Qed.

Lemma leb_line_le (x y : line) : String.leb x y = true <-> line_le x y.
Proof.
  unfold String.leb, line_le. destruct (String.compare x y); split; try discriminate; auto.
Qed.

Lemma leb_false_lt (x y : line) : String.leb x y = false -> line_lt y x.
Proof.
  unfold String.leb. destruct (String.compare x y) eqn:E; try discriminate.
  intros _. now apply compare_gt_lt.
Qed.

(** ** [sort] and [uniq] *)

Lemma insert_line_perm (x : line) (l : file) :
  Permutation (x :: l) (Shell.insert_line x l).
Proof.
  induction l as [|y l IH]; simpl.
  - reflexivity.
  - destruct (String.leb x y).
    + reflexivity.
    + rewrite perm_swap. now constructor.
Qed.

Lemma sort_perm (l : file) : Permutation l (Shell.sort l).
Proof.
  induction l as [|x l IH]; simpl.
  - constructor.
  - rewrite <- insert_line_perm. now constructor.
Qed.

Lemma sort_In (l : file) (x : line) : In x (Shell.sort l) <-> In x l.
Proof.
  split; apply Permutation_in; [symmetry|]; apply sort_perm.
Qed.

Lemma sort_length (l : file) : List.length (Shell.sort l) = List.length l.
Proof. symmetry. apply Permutation_length, sort_perm. Qed.

Lemma insert_line_sorted (x : line) (l : file) :
  StronglySorted line_le l -> StronglySorted line_le (Shell.insert_line x l).
Proof.
  induction 1 as [|y l Hs IH Hall]; simpl.
  - repeat constructor.
  - destruct (String.leb x y) eqn:E.
    + apply leb_line_le in E. constructor.
      * now constructor.
      * constructor; auto.
        eapply Forall_impl; [|exact Hall]. intros z Hz. eapply line_le_trans; eassumption.
    + apply leb_false_lt, line_lt_le in E. constructor; auto.
      eapply Permutation_Forall; [apply insert_line_perm|]. now constructor.
Qed.

Lemma sort_sorted (l : file) : StronglySorted line_le (Shell.sort l).
Proof.
  induction l as [|x l IH]; simpl.
  - constructor.
  - now apply insert_line_sorted.
Qed.

Lemma sort_NoDup (l : file) : NoDup l -> NoDup (Shell.sort l).
Proof. apply Permutation_NoDup, sort_perm. Qed.

(** A sorted file without repeated lines is strictly increasing. *)
Lemma sorted_NoDup_strict (l : file) :
  StronglySorted line_le l -> NoDup l -> StronglySorted line_lt l.
Proof.
  induction 1 as [|x l Hs IH Hall]; intros Hnd.
  - constructor.
  - inversion Hnd as [|? ? Hnotin Hnd']; subst. constructor; auto.
    rewrite Forall_forall in *. intros y Hy.
    destruct (proj1 (line_le_cases x y) (Hall y Hy)) as [-> | H]; auto.
    contradiction.
Qed.

Lemma strict_sorted_le (l : file) :
  StronglySorted line_lt l -> StronglySorted line_le l.
Proof.
  induction 1 as [|x l Hs IH Hall]; constructor; auto.
  eapply Forall_impl; [|exact Hall]. intros; now apply line_lt_le.
Qed.

Lemma strict_sorted_NoDup (l : file) : StronglySorted line_lt l -> NoDup l.
Proof.
  induction 1 as [|x l Hs IH Hall]; constructor; auto.
  intros Hin. rewrite Forall_forall in Hall. exact (line_lt_irrefl x (Hall x Hin)).
Qed.

Lemma uniq_In (l : file) (x : line) : In x (Shell.uniq l) <-> In x l.
Proof.
  induction l as [|y l IH]; simpl; [tauto|].
  destruct l as [|z l'].
  - simpl. tauto.
  - destruct (String.eqb_spec y z) as [-> | Hne].
    + rewrite IH. simpl. tauto.
    + change (In x (y :: Shell.uniq (z :: l')) <-> y = x \/ In x (z :: l')).
      simpl In at 1. rewrite IH. tauto.
Qed.

Lemma uniq_sorted (l : file) :
  StronglySorted line_le l -> StronglySorted line_lt (Shell.uniq l).
Proof.
  induction 1 as [|y l Hs IH Hall]; simpl; [constructor|].
  destruct l as [|z l'].
  - repeat constructor.
  - destruct (String.eqb_spec y z) as [-> | Hne]; auto.
    constructor; auto.
    rewrite Forall_forall in *. intros w Hw. apply -> uniq_In in Hw.
    inversion Hs as [|? ? Hs' Hall']; subst. rewrite Forall_forall in Hall'.
    assert (Hyz : line_lt y z).
    { destruct (proj1 (line_le_cases y z) (Hall z (or_introl eq_refl))); [contradiction|assumption]. }
    destruct Hw as [<- | Hw]; auto.
    eapply line_lt_le_trans; [exact Hyz|]. now apply Hall'.
Qed.

Lemma sort_uniq_In (l : file) (x : line) : In x (Shell.uniq (Shell.sort l)) <-> In x l.
Proof. rewrite uniq_In. apply sort_In. Qed.

Lemma sort_uniq_sorted (l : file) : StronglySorted line_lt (Shell.uniq (Shell.sort l)).
Proof. apply uniq_sorted, sort_sorted. Qed.

(** Two strictly increasing files with the same lines are the same file. *)
Lemma strict_sorted_ext (l1 l2 : file) :
  StronglySorted line_lt l1 -> StronglySorted line_lt l2 ->
  (forall x, In x l1 <-> In x l2) -> l1 = l2.
Proof.
  intros H1. revert l2. induction H1 as [|x l1 Hs1 IH Hall1]; intros l2 H2 Hext.
  - destruct l2 as [|y l2]; auto. destruct (proj2 (Hext y) (or_introl eq_refl)).
  - destruct H2 as [|y l2 Hs2 Hall2].
    + destruct (proj1 (Hext x) (or_introl eq_refl)).
    + rewrite Forall_forall in Hall1, Hall2.
      assert (x = y) as ->.
      { destruct (proj1 (Hext x) (or_introl eq_refl)) as [E | Hx]; auto.
        destruct (proj2 (Hext y) (or_introl eq_refl)) as [E | Hy]; auto.
        exfalso. apply (line_lt_irrefl x).
        eapply line_lt_trans; [apply Hall1, Hy | apply Hall2, Hx]. }
      f_equal. apply IH; auto.
      intros z. split; intros Hz.
      * destruct (proj1 (Hext z) (or_intror Hz)) as [E | ?]; auto.
        subst z. exfalso. exact (line_lt_irrefl y (Hall1 y Hz)).
      * destruct (proj2 (Hext z) (or_intror Hz)) as [E | ?]; auto.
        subst z. exfalso. exact (line_lt_irrefl y (Hall2 y Hz)).
Qed.

(** A sorted file is left unchanged by [sort]. *)
Lemma insert_line_head (x : line) (l : file) :
  Forall (line_le x) l -> Shell.insert_line x l = x :: l.
Proof.
  destruct l as [|y l]; simpl; auto. intros H. inversion H; subst.
  now rewrite (proj2 (leb_line_le x y)).
Qed.

Lemma sort_sorted_id (l : file) : StronglySorted line_le l -> Shell.sort l = l.
Proof.
  induction 1 as [|x l Hs IH Hall]; simpl; auto.
  rewrite IH. now apply insert_line_head.
Qed.

(** ** [comm] *)



Lemma comm_nil_l (l2 : file) : Shell.comm [] l2 = map (pair Shell.Col2) l2.
Proof. destruct l2; reflexivity. Qed.

Lemma comm_nil_r (l1 : file) : Shell.comm l1 [] = map (pair Shell.Col1) l1.
Proof. destruct l1; reflexivity. Qed.

Lemma comm_cons (x y : line) (l1 l2 : file) :
  Shell.comm (x :: l1) (y :: l2) =
  match String.compare x y with
  | Eq => (Shell.Col3, x) :: Shell.comm l1 l2
  | Lt => (Shell.Col1, x) :: Shell.comm l1 (y :: l2)
  | Gt => (Shell.Col2, y) :: Shell.comm (x :: l1) l2
  end.
Proof. reflexivity. Qed.

Lemma select_column_cons (c c' : Shell.column) (x : line) (out : list (Shell.column * line)) :
  Shell.select_column c ((c', x) :: out) =
  if Shell.column_eqb c' c then x :: Shell.select_column c out
  else Shell.select_column c out.
Proof. unfold Shell.select_column. simpl. now destruct (Shell.column_eqb c' c). Qed.

Lemma select_column_tagged (c c' : Shell.column) (l : file) :
  Shell.select_column c (map (pair c') l) = if Shell.column_eqb c' c then l else [].
Proof.
  induction l as [|x l IH]; simpl.
  - now destruct (Shell.column_eqb c' c).
  - change (Shell.select_column c ((c', x) :: map (pair c') l) =
            (if Shell.column_eqb c' c then x :: l else [])).
    rewrite select_column_cons, IH. now destruct (Shell.column_eqb c' c).
Qed.

(** A double induction that follows the three-way merge of [comm]. *)
Lemma comm_ind (P : file -> file -> Prop) :
  (forall l2, P [] l2) ->
  (forall x l1, P (x :: l1) []) ->
  (forall x y l1 l2, String.compare x y = Eq -> x = y -> P l1 l2 -> P (x :: l1) (y :: l2)) ->
  (forall x y l1 l2, line_lt x y -> P l1 (y :: l2) -> P (x :: l1) (y :: l2)) ->
  (forall x y l1 l2, String.compare x y = Gt -> line_lt y x -> P (x :: l1) l2 ->
                     P (x :: l1) (y :: l2)) ->
  forall l1 l2, P l1 l2.
Proof.
  intros Hnil1 Hnil2 Heq Hlt Hgt.
  induction l1 as [|x l1 IH1]; [exact Hnil1|].
  induction l2 as [|y l2 IH2]; [apply Hnil2|].
  destruct (String.compare x y) eqn:E.
  - apply Heq; auto. now apply compare_eq.
  - apply Hlt; auto.
  - apply Hgt; auto. now apply compare_gt_lt.
Qed.

(** The lines of columns 1 and 3 are FILE1, those of columns 2 and 3 are
    FILE2, whatever the order of the files. *)
Lemma comm_file1 (l1 l2 : file) :
  map snd (filter (fun cl => negb (Shell.column_eqb (fst cl) Shell.Col2)) (Shell.comm l1 l2)) = l1.
Proof.
  pattern l1, l2. apply comm_ind; clear l1 l2; cbv beta.
  - intros l2. rewrite comm_nil_l. induction l2; simpl; auto.
  - intros x l1. rewrite comm_nil_r. generalize (x :: l1). induction l; simpl; congruence.
  - intros x y l1 l2 E _ IH. rewrite comm_cons, E. simpl. f_equal. exact IH.
  - intros x y l1 l2 E IH. rewrite comm_cons, E. simpl. f_equal. exact IH.
  - intros x y l1 l2 E _ IH. rewrite comm_cons, E. simpl. exact IH.
Qed.

Lemma comm_file2 (l1 l2 : file) :
  map snd (filter (fun cl => negb (Shell.column_eqb (fst cl) Shell.Col1)) (Shell.comm l1 l2)) = l2.
Proof.
  pattern l1, l2. apply comm_ind; clear l1 l2; cbv beta.
  - intros l2. rewrite comm_nil_l. induction l2; simpl; congruence.
  - intros x l1. rewrite comm_nil_r. generalize (x :: l1). induction l; simpl; auto.
  - intros x y l1 l2 E Hxy IH. rewrite comm_cons, E. simpl. subst y. f_equal. exact IH.
  - intros x y l1 l2 E IH. rewrite comm_cons, E. simpl. exact IH.
  - intros x y l1 l2 E _ IH. rewrite comm_cons, E. simpl. f_equal. exact IH.
Qed.

Lemma sub_filter_In {A : Type} (f g : A -> bool) (l : list A) (x : A) :
  (forall a, f a = true -> g a = true) -> In x (filter f l) -> In x (filter g l).
Proof.
  intros H. rewrite !filter_In. intros [? ?]. auto.
Qed.

Lemma sub_filter_length {A : Type} (f g : A -> bool) (l : list A) :
  (forall a, f a = true -> g a = true) ->
  List.length (filter f l) <= List.length (filter g l).
Proof.
  intros H. induction l as [|a l IH]; simpl; auto.
  destruct (f a) eqn:Ef.
  - rewrite (H a Ef). simpl. lia.
  - destruct (g a); simpl; lia.
Qed.

Lemma column1_not_2 (c : Shell.column) :
  Shell.column_eqb c Shell.Col1 = true -> negb (Shell.column_eqb c Shell.Col2) = true.
Proof. now destruct c. Qed.

Lemma column2_not_1 (c : Shell.column) :
  Shell.column_eqb c Shell.Col2 = true -> negb (Shell.column_eqb c Shell.Col1) = true.
Proof. now destruct c. Qed.

Lemma comm_23_incl (l1 l2 : file) (x : line) : In x (Shell.comm_23 l1 l2) -> In x l1.
Proof.
  unfold Shell.comm_23, Shell.select_column. intros H.
  rewrite <- (comm_file1 l1 l2). rewrite in_map_iff in *.
  destruct H as [cl [E H]]. exists cl. split; auto.
  eapply sub_filter_In; [|exact H]. intros a. apply column1_not_2.
Qed.

Lemma comm_23_length (l1 l2 : file) :
  List.length (Shell.comm_23 l1 l2) <= List.length l1.
Proof.
  unfold Shell.comm_23, Shell.select_column.
  rewrite <- (comm_file1 l1 l2) at 2. rewrite !length_map.
  apply sub_filter_length. intros a. apply column1_not_2.
Qed.

Lemma comm_31_incl (l1 l2 : file) (x : line) : In x (Shell.comm_31 l1 l2) -> In x l2.
Proof.
  unfold Shell.comm_31, Shell.select_column. intros H.
  rewrite <- (comm_file2 l1 l2). rewrite in_map_iff in *.
  destruct H as [cl [E H]]. exists cl. split; auto.
  eapply sub_filter_In; [|exact H]. intros a. apply column2_not_1.
Qed.

(** A line of FILE1 that is not in FILE2 is reported in column 1. *)
Lemma comm_23_complete (l1 l2 : file) (x : line) :
  In x l1 -> ~ In x l2 -> In x (Shell.comm_23 l1 l2).
Proof.
  unfold Shell.comm_23. pattern l1, l2. apply comm_ind; clear l1 l2; cbv beta.
  - intros l2 [].
  - intros z l1 H _. rewrite comm_nil_r, select_column_tagged; simpl. exact H.
  - intros z y l1 l2 E Hzy IH H1 H2. rewrite comm_cons, E, select_column_cons. simpl.
    subst y. destruct H1 as [-> | H1].
    + elim H2. now left.
    + apply IH; auto. intros H. apply H2. now right.
  - intros z y l1 l2 E IH H1 H2. rewrite comm_cons, E, select_column_cons. simpl.
    destruct H1 as [-> | H1]; auto.
  - intros z y l1 l2 E _ IH H1 H2. rewrite comm_cons, E, select_column_cons. simpl.
    apply IH; auto. intros H. apply H2. now right.
Qed.

Lemma comm_31_complete (l1 l2 : file) (x : line) :
  In x l2 -> ~ In x l1 -> In x (Shell.comm_31 l1 l2).
Proof.
  unfold Shell.comm_31. pattern l1, l2. apply comm_ind; clear l1 l2; cbv beta.
  - intros l2 H _. rewrite comm_nil_l, select_column_tagged; simpl. exact H.
  - intros z l1 [].
  - intros z y l1 l2 E Hzy IH H2 H1. rewrite comm_cons, E, select_column_cons. simpl.
    subst y. destruct H2 as [-> | H2].
    + elim H1. now left.
    + apply IH; auto. intros H. apply H1. now right.
  - intros z y l1 l2 E IH H2 H1. rewrite comm_cons, E, select_column_cons. simpl.
    apply IH; auto. intros H. apply H1. now right.
  - intros z y l1 l2 E _ IH H2 H1. rewrite comm_cons, E, select_column_cons. simpl.
    destruct H2 as [-> | H2]; auto.
Qed.

Lemma sorted_head_lt_notin (x y : line) (l : file) :
  StronglySorted line_le (y :: l) -> line_lt x y -> ~ In x (y :: l).
Proof.
  intros Hs Hlt Hin. inversion Hs as [|? ? _ Hall]; subst. rewrite Forall_forall in Hall.
  destruct Hin as [-> | Hin].
  - exact (line_lt_irrefl x Hlt).
  - exact (line_le_not_lt _ _ (Hall x Hin) Hlt).
Qed.

(** On a strictly increasing FILE1 and a sorted FILE2, column 1 holds no
    line of FILE2. *)
Lemma comm_23_sound (l1 l2 : file) (x : line) :
  StronglySorted line_lt l1 -> StronglySorted line_le l2 ->
  In x (Shell.comm_23 l1 l2) -> ~ In x l2.
Proof.
  unfold Shell.comm_23. pattern l1, l2. apply comm_ind; clear l1 l2; cbv beta.
  - intros l2 _ _. rewrite comm_nil_l, select_column_tagged; simpl. intros [].
  - intros z l1 _ _ _ [].
  - intros z y l1 l2 E Hzy IH S1 S2. rewrite comm_cons, E, select_column_cons. simpl.
    subst y. inversion S1 as [|? ? S1' A1]; subst. inversion S2 as [|? ? S2' A2]; subst.
    intros H [<- | H2].
    + apply (comm_23_incl l1 l2) in H. rewrite Forall_forall in A1.
      exact (line_lt_irrefl z (A1 z H)).
    + exact (IH S1' S2' H H2).
  - intros z y l1 l2 E IH S1 S2. rewrite comm_cons, E, select_column_cons. simpl.
    inversion S1 as [|? ? S1' A1]; subst.
    intros [<- | H].
    + now apply sorted_head_lt_notin.
    + now apply IH.
  - intros z y l1 l2 E Hyz IH S1 S2. rewrite comm_cons, E, select_column_cons. simpl.
    inversion S2 as [|? ? S2' A2]; subst.
    intros H [<- | H2].
    + apply (comm_23_incl (z :: l1) l2) in H.
      inversion S1 as [|? ? S1' A1]; subst. rewrite Forall_forall in A1.
      destruct H as [-> | H].
      * exact (line_lt_irrefl y Hyz).
      * apply (line_lt_irrefl y). eapply line_lt_trans; [exact Hyz | now apply A1].
    + exact (IH S1 S2' H H2).
Qed.

Lemma comm_31_sound (l1 l2 : file) (x : line) :
  StronglySorted line_le l1 -> StronglySorted line_lt l2 ->
  In x (Shell.comm_31 l1 l2) -> ~ In x l1.
Proof.
  unfold Shell.comm_31. pattern l1, l2. apply comm_ind; clear l1 l2; cbv beta.
  - intros l2 _ _ _ [].
  - intros z l1 _ _. rewrite comm_nil_r, select_column_tagged; simpl. intros [].
  - intros z y l1 l2 E Hzy IH S1 S2. rewrite comm_cons, E, select_column_cons. simpl.
    subst y. inversion S1 as [|? ? S1' A1]; subst. inversion S2 as [|? ? S2' A2]; subst.
    intros H [<- | H1].
    + apply (comm_31_incl l1 l2) in H. rewrite Forall_forall in A2.
      exact (line_lt_irrefl z (A2 z H)).
    + exact (IH S1' S2' H H1).
  - intros z y l1 l2 E IH S1 S2. rewrite comm_cons, E, select_column_cons. simpl.
    inversion S1 as [|? ? S1' A1]; subst.
    intros H [<- | H1].
    + apply (comm_31_incl l1 (y :: l2)) in H.
      inversion S2 as [|? ? S2' A2]; subst. rewrite Forall_forall in A2.
      destruct H as [-> | H].
      * exact (line_lt_irrefl z E).
      * apply (line_lt_irrefl z). eapply line_lt_trans; [exact E | now apply A2].
    + exact (IH S1' S2 H H1).
  - intros z y l1 l2 E Hyz IH S1 S2. rewrite comm_cons, E, select_column_cons. simpl.
    inversion S2 as [|? ? S2' A2]; subst.
    intros [<- | H].
    + now apply sorted_head_lt_notin.
    + now apply IH.
Qed.

(** Column 2 of a strictly increasing FILE2 is strictly increasing. *)
Lemma filter_strict_sorted (f : line -> bool) (l : file) :
  StronglySorted line_lt l -> StronglySorted line_lt (filter f l).
Proof.
  induction 1 as [|x l Hs IH Hall]; simpl; [constructor|].
  destruct (f x); auto. constructor; auto.
  rewrite Forall_forall in *. intros y Hy. apply filter_In in Hy. now apply Hall.
Qed.

Lemma comm_self (l : file) : Shell.comm l l = map (pair Shell.Col3) l.
Proof.
  induction l as [|x l IH]; [reflexivity|].
  rewrite comm_cons, compare_refl, IH. reflexivity.
Qed.

(** ** Batches of missing IDs *)

Lemma islice_batches_step (fuel n : nat) (lines : file) :
  lines <> [] -> 0 < n ->
  islice_batches (S fuel) n lines = firstn n lines :: islice_batches fuel n (skipn n lines).
Proof.
  intros Hne Hn. simpl. destruct (firstn n lines) eqn:E; auto.
  destruct lines; [congruence|]. destruct n; [lia|]. discriminate.
Qed.

Lemma islice_batches_nil (fuel n : nat) : islice_batches fuel n [] = [].
Proof. destruct fuel; simpl; auto. now rewrite firstn_nil. Qed.

Lemma islice_batches_spec (n : nat) : 0 < n ->
  forall fuel lines, List.length lines < fuel ->
    List.concat (islice_batches fuel n lines) = lines /\
    Forall (fun b => 1 <= List.length b <= n) (islice_batches fuel n lines) /\
    List.length (islice_batches fuel n lines) = (List.length lines + (n - 1)) / n.
Proof.
  intros Hn. induction fuel as [|fuel IH]; intros lines Hlen; [lia|].
  destruct lines as [|x lines].
  - rewrite islice_batches_nil. simpl. repeat split; auto.
    symmetry. apply Nat.div_small. lia.
  - rewrite islice_batches_step by (auto; discriminate).
    assert (Hsk : List.length (skipn n (x :: lines)) = List.length (x :: lines) - n)
      by apply length_skipn.
    assert (Hfi : List.length (firstn n (x :: lines)) = Nat.min n (List.length (x :: lines)))
      by apply length_firstn.
    simpl List.length in *.
    destruct (IH (skipn n (x :: lines))) as [Hc [Hf Hl]]; [lia|].
    repeat split.
    + simpl List.concat. rewrite Hc. apply firstn_skipn.
    + constructor; auto. lia.
    + simpl List.length. rewrite Hl, Hsk.
      destruct (Nat.le_gt_cases n (S (List.length lines))) as [Hle | Hgt].
      * replace (S (List.length lines) + (n - 1)) with ((S (List.length lines) - n + (n - 1)) + 1 * n) by lia.
        rewrite Nat.div_add by lia. lia.
      * replace (S (List.length lines) - n) with 0 by lia.
        rewrite (Nat.div_small (0 + (n - 1))) by lia.
        apply (Nat.div_unique _ _ 1 (S (List.length lines) - 1)); lia.
Qed.

Lemma read_next_batch_spec (lines : file) :
  List.concat (read_next_batch_of_missing_ids lines) = lines /\
  Forall (fun b => 1 <= List.length b <= 1000) (read_next_batch_of_missing_ids lines) /\
  List.length (read_next_batch_of_missing_ids lines) = (List.length lines + 999) / 1000.
Proof.
  unfold read_next_batch_of_missing_ids, num_lines_to_read.
  apply (islice_batches_spec 1000); lia.
Qed.

Lemma islice_batches_nth (n : nat) : 0 < n ->
  forall fuel lines i, List.length lines < fuel ->
    nth i (islice_batches fuel n lines) [] = firstn n (skipn (n * i) lines).
Proof.
  intros Hn. induction fuel as [|fuel IH]; intros lines i Hlen; [lia|].
  destruct lines as [|x lines].
  - rewrite islice_batches_nil, skipn_nil, firstn_nil. now destruct i.
  - rewrite islice_batches_step by (auto; discriminate).
    destruct i as [|i].
    + rewrite Nat.mul_0_r. reflexivity.
    + cbn [nth]. rewrite IH.
      * rewrite skipn_skipn. f_equal. f_equal. lia.
      * rewrite length_skipn. cbn [List.length] in *. lia.
Qed.


(** ** Parsing digit strings *)

Lemma is_digit_cases (c : ascii) : Shell.is_digit c = true ->
  In c (list_ascii_of_string "0123456789").
Proof.
  unfold Shell.is_digit. rewrite andb_true_iff, !Nat.leb_le. intros [H1 H2].
  rewrite <- (ascii_nat_embedding c).
  assert (H : In (nat_of_ascii c) (seq 48 10)) by (apply in_seq; lia).
  simpl in H. simpl.
  repeat (destruct H as [<- | H]; [simpl; tauto|]). destruct H.
Qed.

Lemma digit_not_space (c : ascii) : Shell.is_digit c = true -> Py.is_space c = false.
Proof.
  intros H. apply is_digit_cases in H. simpl in H.
  repeat (destruct H as [<- | H]; [reflexivity|]). destruct H.
Qed.

Lemma digit_not_sign (c : ascii) : Shell.is_digit c = true ->
  c <> "-"%char /\ c <> "+"%char /\ Ascii.eqb c "_" = false.
Proof.
  intros H. apply is_digit_cases in H. simpl in H.
  repeat (destruct H as [<- | H]; [repeat split; try discriminate; reflexivity|]). destruct H.
Qed.

Lemma rstrip_digits (s : string) : Shell.all_digits s = true -> Py.rstrip s = s.
Proof.
  induction s as [|c r IH]; simpl; auto.
  rewrite andb_true_iff. intros [Hc Hr]. rewrite (IH Hr).
  destruct r; auto. now rewrite digit_not_space.
Qed.

Lemma strip_digits (s : string) : Shell.all_digits s = true -> Py.strip s = s.
Proof.
  intros H. unfold Py.strip.
  assert (Py.lstrip s = s) as ->.
  { destruct s as [|c r]; simpl in *; auto.
    apply andb_true_iff in H. now rewrite digit_not_space. }
  now apply rstrip_digits.
Qed.

Lemma drop_underscores_digits (s : string) :
  Shell.all_digits s = true -> Py.drop_underscores true s = Some s.
Proof.
  induction s as [|c r IH]; simpl; auto.
  rewrite andb_true_iff. intros [Hc Hr].
  destruct (digit_not_sign c Hc) as [_ [_ ->]]. now rewrite IH.
Qed.

Lemma uint_of_digits (s : string) :
  Shell.all_digits s = true -> exists u, NilEmpty.uint_of_string s = Some u.
Proof.
  induction s as [|c r IH]; simpl.
  - eauto.
  - rewrite andb_true_iff. intros [Hc Hr]. destruct (IH Hr) as [u ->].
    apply is_digit_cases in Hc. simpl in Hc.
    repeat (destruct Hc as [<- | Hc]; [simpl; eauto|]). destruct Hc.
Qed.

(** Every line that [grep -E "^[0-9]+$"] lets through is read by [int]. *)
Lemma int_of_digit_line (l : line) :
  Shell.matches_digits l = true -> exists z, Py.int (Py.strip l) = Some z /\ (0 <= z)%Z.
Proof.
  intros H. destruct l as [|c r]; [discriminate|].
  assert (Hd : Shell.all_digits (String c r) = true) by exact H.
  unfold Py.int. rewrite !(strip_digits (String c r)) by assumption.
  simpl in Hd. apply andb_true_iff in Hd. destruct Hd as [Hc Hr].
  destruct (digit_not_sign c Hc) as [Hm [Hp Hu]].
  assert (Hint : exists z, Py.int_of_digits (String c r) = Some z /\ (0 <= z)%Z).
  { unfold Py.int_of_digits. simpl Py.drop_underscores. rewrite Hu.
    rewrite drop_underscores_digits by assumption. simpl option_map.
    destruct (uint_of_digits (String c r)) as [u Hu'].
    { simpl. now rewrite Hc, Hr. }
    unfold NilZero.uint_of_string. rewrite Hu'. simpl.
    eexists. split; [reflexivity|]. apply N2Z.is_nonneg. }
  destruct Hint as [z [Hz Hz0]]. exists z. split; auto.
  rewrite <- Hz.
  destruct c as [[] [] [] [] [] [] [] []]; try reflexivity; congruence.
Qed.

(** ** Reading digit lines in text mode *)

Lemma digit_not_cr (c : ascii) :
  Shell.is_digit c = true -> Ascii.eqb c Py.carriage_return = false.
Proof.
  intros H. destruct (Ascii.eqb_spec c Py.carriage_return) as [->|];
    [discriminate H|reflexivity].
Qed.

Lemma split_cr_digits (s : string) : Shell.all_digits s = true -> Py.split_cr s = [s].
Proof.
  induction s as [|c r IH]; [reflexivity|].
  cbn [Shell.all_digits]. rewrite andb_true_iff. intros [Hc Hr].
  cbn [Py.split_cr]. now rewrite (digit_not_cr c Hc), (IH Hr).
Qed.

Lemma matches_digits_all (s : string) :
  Shell.matches_digits s = true -> Shell.all_digits s = true.
Proof. destruct s; [discriminate|auto]. Qed.

Lemma text_lines_digits (s : string) :
  Shell.matches_digits s = true -> Py.text_lines s = [s].
Proof.
  intros H. unfold Py.text_lines. now rewrite (split_cr_digits s (matches_digits_all s H)).
Qed.

(** A file of digit lines is read line by line. *)
Lemma readlines_digits (l : file) :
  Forall (fun s => Shell.matches_digits s = true) l -> Py.readlines l = l.
Proof.
  induction 1 as [|s l Hs Hl IH]; [reflexivity|].
  unfold Py.readlines in *. cbn [flat_map]. now rewrite (text_lines_digits s Hs), IH.
Qed.

(** ** The aggregation pipelines *)

Lemma aggregate_In (docs : list Mongo.Document) (p : Mongo.pipeline) (v : Mongo.value) :
  In v (Mongo.aggregate docs p) <->
  exists d, In d docs /\ Mongo.matches p d = true /\
            Mongo.project (Mongo.project_accession p) d = v.
Proof.
  unfold Mongo.aggregate. rewrite nodup_In, in_map_iff. split.
  - intros [d [E H]]. apply filter_In in H. exists d. tauto.
  - intros [d [H1 [H2 E]]]. exists d. split; auto. apply filter_In. tauto.
Qed.

Lemma In_holds (path : string) (ids : list Z) (d : Mongo.Document) :
  Mongo.clause_holds (Mongo.In_ path ids) d = true <->
  exists z, In z (Mongo.int_values path d) /\ In z ids.
Proof.
  simpl. rewrite existsb_exists. split.
  - intros [z [H1 H2]]. apply existsb_exists in H2. destruct H2 as [z' [H2 E]].
    apply Z.eqb_eq in E. subst z'. eauto.
  - intros [z [H1 H2]]. exists z. split; auto. apply existsb_exists.
    exists z. split; auto. apply Z.eqb_refl.
Qed.

Section SetIn.

Variables (path : string) (d : Mongo.Document).


Lemma set_in_clauses_holds (ids : list Z) (cs cs' : list Mongo.clause) :
  Mongo.set_in_clauses path ids cs = Some cs' ->
  Mongo.all_hold cs' d = true -> Mongo.clause_holds (Mongo.In_ path ids) d = true.
Proof.
  revert cs'. induction cs as [|c cs IH]; intros cs'; [discriminate|].
  assert (Hrec : option_map (cons c) (Mongo.set_in_clauses path ids cs) = Some cs' ->
                 Mongo.all_hold cs' d = true -> Mongo.clause_holds (Mongo.In_ path ids) d = true).
  { destruct (Mongo.set_in_clauses path ids cs) as [cs0|]; [|discriminate].
    intros E. injection E as <-. unfold Mongo.all_hold. simpl forallb.
    rewrite andb_true_iff. intros [_ H]. now apply (IH cs0). }
  destruct c; try exact Hrec.
  simpl Mongo.set_in_clauses. destruct (String.eqb_spec path0 path) as [-> | Hne]; [|exact Hrec].
  intros E. injection E as <-. unfold Mongo.all_hold. simpl forallb. rewrite andb_true_iff. tauto.
Qed.

Lemma set_in_clauses_exchange (a b : list Z) (cs ca cb : list Mongo.clause) :
  Mongo.set_in_clauses path a cs = Some ca ->
  Mongo.set_in_clauses path b cs = Some cb ->
  Mongo.all_hold ca d && Mongo.clause_holds (Mongo.In_ path b) d =
  Mongo.all_hold cb d && Mongo.clause_holds (Mongo.In_ path a) d.
Proof.
  revert ca cb. induction cs as [|c cs IH]; intros ca cb; [discriminate|].
  assert (Hrec : option_map (cons c) (Mongo.set_in_clauses path a cs) = Some ca ->
                 option_map (cons c) (Mongo.set_in_clauses path b cs) = Some cb ->
                 Mongo.all_hold ca d && Mongo.clause_holds (Mongo.In_ path b) d =
                 Mongo.all_hold cb d && Mongo.clause_holds (Mongo.In_ path a) d).
  { destruct (Mongo.set_in_clauses path a cs) as [ca0|]; [|discriminate].
    destruct (Mongo.set_in_clauses path b cs) as [cb0|]; [|discriminate].
    intros Ea Eb. injection Ea as <-. injection Eb as <-. unfold Mongo.all_hold. simpl forallb.
    rewrite <- !andb_assoc. f_equal. now apply IH. }
  destruct c; try exact Hrec.
  simpl Mongo.set_in_clauses. destruct (String.eqb_spec path0 path) as [-> | Hne]; [|exact Hrec].
  intros Ea Eb. injection Ea as <-. injection Eb as <-.
  change (Mongo.all_hold (Mongo.In_ path a :: cs) d)
    with (Mongo.clause_holds (Mongo.In_ path a) d && Mongo.all_hold cs d).
  change (Mongo.all_hold (Mongo.In_ path b :: cs) d)
    with (Mongo.clause_holds (Mongo.In_ path b) d && Mongo.all_hold cs d).
  destruct (Mongo.clause_holds (Mongo.In_ path a) d),
           (Mongo.clause_holds (Mongo.In_ path b) d), (Mongo.all_hold cs d); reflexivity.
Qed.

End SetIn.

Lemma set_in_clauses_again (path : string) (a b : list Z) (cs ca : list Mongo.clause) :
  Mongo.set_in_clauses path a cs = Some ca ->
  Mongo.set_in_clauses path b ca = Mongo.set_in_clauses path b cs.
Proof.
  revert ca. induction cs as [|c cs IH]; intros ca; [discriminate|].
  assert (Hrec : option_map (cons c) (Mongo.set_in_clauses path a cs) = Some ca ->
                 (forall cs0, Mongo.set_in_clauses path b (c :: cs0) =
                              option_map (cons c) (Mongo.set_in_clauses path b cs0)) ->
                 Mongo.set_in_clauses path b ca = Mongo.set_in_clauses path b (c :: cs)).
  { destruct (Mongo.set_in_clauses path a cs) as [ca0|] eqn:E; [|discriminate].
    intros Ea Hc. injection Ea as <-. rewrite !Hc. now rewrite (IH ca0). }
  destruct c; try (intros E; apply Hrec; [exact E | reflexivity]).
  destruct (String.eqb_spec path0 path) as [-> | Hne].
  - simpl. rewrite String.eqb_refl. intros E. injection E as <-.
    simpl. now rewrite String.eqb_refl.
  - apply String.eqb_neq in Hne. intros E. simpl in E. rewrite Hne in E.
    apply Hrec; auto. intros cs0. simpl. now rewrite Hne.
Qed.

Lemma set_in_clauses_total (path : string) (a b : list Z) (cs ca : list Mongo.clause) :
  Mongo.set_in_clauses path a cs = Some ca ->
  exists cb, Mongo.set_in_clauses path b cs = Some cb.
Proof.
  revert ca. induction cs as [|c cs IH]; intros ca; [discriminate|].
  assert (Hrec : option_map (cons c) (Mongo.set_in_clauses path a cs) = Some ca ->
                 exists cb, option_map (cons c) (Mongo.set_in_clauses path b cs) = Some cb).
  { destruct (Mongo.set_in_clauses path a cs) as [ca0|] eqn:E; [|discriminate].
    intros _. destruct (IH ca0 eq_refl) as [cb ->]. simpl. eauto. }
  destruct c; try exact Hrec.
  simpl. destruct (String.eqb_spec path0 path); [eauto | exact Hrec].
Qed.

(** Setting the [$in] of a pipeline. *)
Lemma set_in_project (path : string) (a : list Z) (p q : Mongo.pipeline) :
  Mongo.set_in path a p = Some q -> Mongo.project_accession q = Mongo.project_accession p.
Proof.
  unfold Mongo.set_in. destruct (Mongo.set_in_clauses path a (Mongo.match_stage p));
    [|discriminate]. intros E. injection E as <-. reflexivity.
Qed.

Lemma set_in_again (path : string) (a b : list Z) (p q : Mongo.pipeline) :
  Mongo.set_in path a p = Some q -> Mongo.set_in path b q = Mongo.set_in path b p.
Proof.
  unfold Mongo.set_in.
  destruct (Mongo.set_in_clauses path a (Mongo.match_stage p)) as [ca|] eqn:E; [|discriminate].
  intros Eq. injection Eq as <-. simpl. now rewrite (set_in_clauses_again _ _ _ _ _ E).
Qed.

Lemma set_in_total (path : string) (a b : list Z) (p q : Mongo.pipeline) :
  Mongo.set_in path a p = Some q -> exists q', Mongo.set_in path b p = Some q'.
Proof.
  unfold Mongo.set_in.
  destruct (Mongo.set_in_clauses path a (Mongo.match_stage p)) as [ca|] eqn:E; [|discriminate].
  intros _. destruct (set_in_clauses_total _ _ b _ _ E) as [cb ->]. simpl. eauto.
Qed.

Lemma set_in_matches (path : string) (a : list Z) (p q : Mongo.pipeline) (d : Mongo.Document) :
  Mongo.set_in path a p = Some q -> Mongo.matches q d = true ->
  Mongo.clause_holds (Mongo.In_ path a) d = true.
Proof.
  unfold Mongo.set_in, Mongo.matches.
  destruct (Mongo.set_in_clauses path a (Mongo.match_stage p)) as [ca|] eqn:E; [|discriminate].
  intros Eq. injection Eq as <-. cbn [Mongo.match_stage]. now apply (set_in_clauses_holds _ _ _ _ _ E).
Qed.

(** A document matched for one [$in] is matched for another [$in] that
    holds one of its identifiers. *)
Lemma set_in_matches_exchange (path : string) (a b : list Z) (p qa qb : Mongo.pipeline)
  (d : Mongo.Document) :
  Mongo.set_in path a p = Some qa -> Mongo.set_in path b p = Some qb ->
  Mongo.matches qa d = true -> Mongo.clause_holds (Mongo.In_ path b) d = true ->
  Mongo.matches qb d = true.
Proof.
  unfold Mongo.set_in, Mongo.matches.
  destruct (Mongo.set_in_clauses path a (Mongo.match_stage p)) as [ca|] eqn:Ea; [|discriminate].
  destruct (Mongo.set_in_clauses path b (Mongo.match_stage p)) as [cb|] eqn:Eb; [|discriminate].
  intros E1 E2. injection E1 as <-. injection E2 as <-. cbn [Mongo.match_stage]. intros H1 H2.
  pose proof (set_in_clauses_exchange path d a b _ _ _ Ea Eb) as Hx.
  rewrite H1, H2 in Hx. symmetry in Hx. apply andb_true_iff in Hx. tauto.
Qed.

(** ** List comprehensions *)

Lemma comprehension_ok {A B : Type} (f : A -> exn + B) (l : list A) :
  (forall x, In x l -> exists y, f x = inr y) ->
  exists ys, comprehension f l = inr ys /\
             forall y, In y ys <-> exists x, In x l /\ f x = inr y.
Proof.
  induction l as [|x l IH]; intros H.
  - exists []. split; auto. simpl. split; [tauto | intros [? [[] _]]].
  - destruct (H x (or_introl eq_refl)) as [y Hy].
    destruct IH as [ys [E Hys]]; [intros; apply H; now right|].
    exists (y :: ys). simpl. rewrite Hy, E. split; auto.
    intros y'. rewrite Hys. split.
    + intros [<- | [x' [? ?]]]; eauto.
    + intros [x' [[<- | Hin] Hf]]; [left; congruence | right; eauto].
Qed.

Lemma comprehension_inv {A B : Type} (f : A -> exn + B) (l : list A) (ys : list B) :
  comprehension f l = inr ys ->
  forall y, In y ys <-> exists x, In x l /\ f x = inr y.
Proof.
  revert ys. induction l as [|x l IH]; simpl; intros ys E.
  - injection E as <-. simpl. split; [tauto | intros [? [[] _]]].
  - destruct (f x) as [e|y0] eqn:Ef; [discriminate|].
    destruct (comprehension f l) as [e|ys0]; [discriminate|].
    injection E as <-. intros y. simpl. rewrite (IH ys0 eq_refl). split.
    + intros [<- | [x' [? ?]]]; eauto.
    + intros [x' [[<- | Hin] Hf]]; [left; congruence | right; eauto].
Qed.

Lemma parse_id_digits (l : line) :
  Shell.matches_digits l = true -> exists z, parse_id l = inr z.
Proof.
  intros H. destruct (int_of_digit_line l H) as [z [E _]].
  exists z. unfold parse_id. now rewrite E.
Qed.

Lemma comprehension_int64 (b : file) (ids : list Z) :
  comprehension parse_id b = inr ids ->
  (forall l, In l b -> int64_line l = true) ->
  forallb Mongo.is_int64 ids = true.
Proof.
  intros E H. apply forallb_forall. intros z Hz.
  apply (comprehension_inv _ _ _ E) in Hz. destruct Hz as [l [Hl El]].
  specialize (H l Hl). unfold int64_line in H. now rewrite El in H.
Qed.

(** ** The category evaluator *)

Section Evaluator.

Variables (rs_id_attribute_path : string) (p0 : Mongo.pipeline).

Hypothesis valid_path :
  In rs_id_attribute_path ["accession"; "rs"; "inactiveObjects.rs"].
Hypothesis projected : Mongo.project_accession p0 = rs_id_attribute_path.
Hypothesis declared_encodable : Mongo.encodable p0 = true.

(** With its [$in] list set, the pipeline can be encoded when the list
    can. *)
Lemma set_in_encodable (ids : list Z) (q : Mongo.pipeline) :
  Mongo.set_in rs_id_attribute_path ids p0 = Some q ->
  Mongo.encodable q = forallb Mongo.is_int64 ids.
Proof.
  unfold Mongo.set_in, Mongo.encodable in *.
  destruct (Mongo.set_in_clauses rs_id_attribute_path ids (Mongo.match_stage p0))
    as [cs'|] eqn:E; [|discriminate].
  intros H. injection H as <-. cbn [Mongo.match_stage].
  revert cs' E declared_encodable.
  generalize (Mongo.match_stage p0) as cs.
  induction cs as [|c cs IH]; intros cs' E Henc; [discriminate|].
  cbn [forallb] in Henc. apply andb_true_iff in Henc. destruct Henc as [Hc Hcs].
  assert (Hrest : forall rest, Mongo.set_in_clauses rs_id_attribute_path ids cs = Some rest ->
                               forallb Mongo.clause_encodable (c :: rest)
                               = forallb Mongo.is_int64 ids).
  { intros rest Hr. cbn [forallb]. now rewrite Hc, (IH rest Hr Hcs). }
  destruct c as [p v | p re | p re | p vs | c1 c2]; cbn [Mongo.set_in_clauses] in E;
    try (destruct (Mongo.set_in_clauses rs_id_attribute_path ids cs) as [rest|] eqn:Er;
         [|discriminate]; injection E as <-; now apply Hrest).
  destruct (p =? rs_id_attribute_path).
  - injection E as <-. cbn [forallb Mongo.clause_encodable]. rewrite Hcs.
    apply andb_true_r.
  - destruct (Mongo.set_in_clauses rs_id_attribute_path ids cs) as [rest|] eqn:Er;
      [|discriminate]. injection E as <-. now apply Hrest.
Qed.

(** Every element that a query returns yields a line. *)
Lemma line_to_write_matched (ids : list Z) (q : Mongo.pipeline) (docs : list Mongo.Document)
  (v : Mongo.value) :
  Mongo.set_in rs_id_attribute_path ids p0 = Some q ->
  In v (Mongo.aggregate docs q) ->
  exists x, line_to_write rs_id_attribute_path v = inr x.
Proof.
  intros Hq Hv. apply aggregate_In in Hv. destruct Hv as [d [_ [Hm <-]]].
  apply (set_in_matches _ _ _ _ _ Hq) in Hm. apply In_holds in Hm.
  destruct Hm as [z [Hz _]].
  rewrite (set_in_project _ _ _ _ Hq), projected.
  simpl in valid_path.
  destruct valid_path as [<- | [<- | [<- | []]]];
    unfold line_to_write, Mongo.project; simpl mentions_inactiveObjects; simpl String.eqb;
    cbv iota; destruct (Mongo.int_values _ d) as [|z0 zs]; try (now destruct Hz).
  - change (mentions_inactiveObjects "accession") with false. eauto.
  - change (mentions_inactiveObjects "rs") with false. eauto.
  - change (mentions_inactiveObjects "inactiveObjects.rs") with true. eauto.
Qed.

Lemma query_collections_ok (ids : list Z) (q : Mongo.pipeline)
  (handles : list (option (list Mongo.Document))) :
  Mongo.set_in rs_id_attribute_path ids p0 = Some q ->
  forallb Mongo.is_int64 ids = true ->
  (forall h, In h handles -> h <> None) ->
  exists written,
    query_collections handles q rs_id_attribute_path = (written, None) /\
    forall x, In x written <->
              exists docs v, In (Some docs) handles /\ In v (Mongo.aggregate docs q) /\
                             line_to_write rs_id_attribute_path v = inr x.
Proof.
  intros Hq Hint. pose proof (set_in_encodable ids q Hq) as Henc. rewrite Hint in Henc.
  induction handles as [|h handles IH]; intros Hall.
  - exists []. split; auto. simpl. split; [tauto | intros [? [? [[] _]]]].
  - destruct h as [docs|]; [|now elim (Hall None (or_introl eq_refl))].
    destruct IH as [more [E Hmore]]; [intros; apply Hall; now right|].
    destruct (comprehension_ok (line_to_write rs_id_attribute_path) (Mongo.aggregate docs q))
      as [ls [El Hls]].
    { intros v Hv. exact (line_to_write_matched ids q docs v Hq Hv). }
    exists (ls ++ more). simpl. rewrite Henc, El, E. split; auto.
    intros x. rewrite in_app_iff, Hls, Hmore. split.
    + intros [[v [? ?]] | [docs' [v [? [? ?]]]]].
      * exists docs, v. auto.
      * exists docs', v. auto.
    + intros [docs' [v [[E' | Hin] [? ?]]]].
      * injection E' as <-. left. eauto.
      * right. eauto.
Qed.

Lemma query_batches_ok (handles : list (option (list Mongo.Document))) (batches : list file) :
  (forall h, In h handles -> h <> None) ->
  (forall b l, In b batches -> In l b -> Shell.matches_digits l = true) ->
  (forall b l, In b batches -> In l b -> int64_line l = true) ->
  forall p, (exists q, Mongo.set_in rs_id_attribute_path [] p0 = Some q) ->
            (forall ids, Mongo.set_in rs_id_attribute_path ids p =
                         Mongo.set_in rs_id_attribute_path ids p0) ->
  exists written,
    query_batches batches handles p rs_id_attribute_path = (written, None) /\
    forall x, In x written <->
              exists b ids q docs v,
                In b batches /\ comprehension parse_id b = inr ids /\
                Mongo.set_in rs_id_attribute_path ids p0 = Some q /\
                In (Some docs) handles /\ In v (Mongo.aggregate docs q) /\
                line_to_write rs_id_attribute_path v = inr x.
Proof.
  intros Hall. induction batches as [|b batches IH]; intros Hdig Hrange p [q0 Hq0] Hp.
  - exists []. split; auto. simpl. split; [tauto|].
    intros [? [? [? [? [? [[] _]]]]]].
  - destruct (comprehension_ok parse_id b) as [ids [Eids _]].
    { intros l Hl. apply parse_id_digits. apply (Hdig b); auto. now left. }
    destruct (set_in_total _ _ ids _ _ Hq0) as [q Hq].
    assert (Hint : forallb Mongo.is_int64 ids = true).
    { apply (comprehension_int64 b); auto. intros l Hl. apply (Hrange b); auto. now left. }
    destruct (query_collections_ok ids q handles Hq Hint Hall) as [w [Ew Hw]].
    destruct (IH (fun b' l H => Hdig b' l (or_intror H))
                 (fun b' l H => Hrange b' l (or_intror H)) q) as [more [Em Hmore]].
    { eauto. }
    { intros ids'. apply (set_in_again _ _ _ _ _ Hq). }
    exists (w ++ more). simpl. rewrite Eids, Hp, Hq, Ew, Em. split; auto.
    intros x. rewrite in_app_iff, Hw, Hmore. split.
    + intros [[docs [v [? [? ?]]]] | [b' [ids' [q' [docs [v [? H]]]]]]].
      * exists b, ids, q, docs, v. simpl. tauto.
      * exists b', ids', q', docs, v. simpl. tauto.
    + intros [b' [ids' [q' [docs [v [[<- | Hin] [Hids [Hq' H]]]]]]]].
      * left. rewrite Eids in Hids. injection Hids as <-.
        rewrite Hq in Hq'. injection Hq' as <-. exists docs, v. tauto.
      * right. exists b', ids', q', docs, v. tauto.
Qed.

(** The union of the per-batch results is the result of the query on all
    identifiers at once. *)
Lemma batched_query_union (batches : list file) (all_ids : list Z) (q_all : Mongo.pipeline)
  (docs : list Mongo.Document) (v : Mongo.value) :
  (forall b l, In b batches -> In l b -> Shell.matches_digits l = true) ->
  comprehension parse_id (List.concat batches) = inr all_ids ->
  Mongo.set_in rs_id_attribute_path all_ids p0 = Some q_all ->
  (In v (Mongo.aggregate docs q_all) <->
   exists b ids q, In b batches /\ comprehension parse_id b = inr ids /\
                   Mongo.set_in rs_id_attribute_path ids p0 = Some q /\
                   In v (Mongo.aggregate docs q)).
Proof.
  intros Hdig Hall Hq_all.
  pose proof (comprehension_inv _ _ _ Hall) as Hids_all.
  assert (Hproj : forall ids q, Mongo.set_in rs_id_attribute_path ids p0 = Some q ->
                                Mongo.project_accession q = Mongo.project_accession q_all).
  { intros ids q Hq. now rewrite (set_in_project _ _ _ _ Hq), (set_in_project _ _ _ _ Hq_all). }
  rewrite aggregate_In. split.
  - intros [d [Hd [Hm <-]]].
    pose proof (set_in_matches _ _ _ _ _ Hq_all Hm) as Hin. apply In_holds in Hin.
    destruct Hin as [z [Hz Hzall]]. apply Hids_all in Hzall.
    destruct Hzall as [l [Hl Hpl]]. apply in_concat in Hl. destruct Hl as [b [Hb Hlb]].
    destruct (comprehension_ok parse_id b) as [ids [Eids Hids]].
    { intros l' Hl'. apply parse_id_digits. now apply (Hdig b). }
    destruct (set_in_total _ _ ids _ _ Hq_all) as [q Hq].
    exists b, ids, q. repeat split; auto.
    apply aggregate_In. exists d. repeat split; auto.
    + apply (set_in_matches_exchange _ _ _ _ _ _ _ Hq_all Hq Hm).
      apply In_holds. exists z. split; auto. apply Hids. eauto.
    + now rewrite (Hproj ids q Hq).
  - intros [b [ids [q [Hb [Eids [Hq Hv]]]]]].
    apply aggregate_In in Hv. destruct Hv as [d [Hd [Hm <-]]].
    exists d. repeat split; auto.
    + apply (set_in_matches_exchange _ _ _ _ _ _ _ Hq Hq_all Hm).
      pose proof (set_in_matches _ _ _ _ _ Hq Hm) as Hin. apply In_holds in Hin.
      destruct Hin as [z [Hz Hzb]]. apply In_holds. exists z. split; auto.
      apply Hids_all. apply (comprehension_inv _ _ _ Eids) in Hzb.
      destruct Hzb as [l [Hl Hpl]]. exists l. split; auto.
      apply in_concat. eauto.
    + now rewrite (Hproj ids q Hq).
Qed.




End Evaluator.

(** ** Files on disk *)

Lemma path_eqb_eq (p q : path) : path_eqb p q = true <-> p = q.
Proof.
  split.
  - destruct p, q; simpl; try discriminate; auto.
    intros H. apply String.eqb_eq in H. now subst.
  - intros <-. destruct p; simpl; auto. apply String.eqb_refl.
Qed.

Lemma path_eqb_refl (p : path) : path_eqb p p = true.
Proof. now apply path_eqb_eq. Qed.

Lemma path_eqb_neq (p q : path) : p <> q -> path_eqb p q = false.
Proof.
  intros H. destruct (path_eqb p q) eqn:E; auto. apply path_eqb_eq in E. contradiction.
Qed.

Lemma write_same (p : path) (v : option file) (fs : filesystem) : write p v fs p = v.
Proof. unfold write. now rewrite path_eqb_refl. Qed.

Lemma write_other (p q : path) (v : option file) (fs : filesystem) :
  q <> p -> write p v fs q = fs q.
Proof. intros H. unfold write. now rewrite path_eqb_neq. Qed.

Lemma bind_ok {A B : Type} (m : M A) (k : A -> M B) (fs fs' : filesystem) (a : A) :
  m fs = (Ok a, fs') -> bind m k fs = k a fs'.
Proof. unfold bind. now intros ->. Qed.

Lemma run_sort_o (f : path) (l : file) (fs : filesystem) :
  fs f = Some l ->
  run_command_with_output (Cmd.sort_o f) fs = (Ok [], write f (Some (Shell.sort l)) fs).
Proof. unfold run_command_with_output, Cmd.sort_o. now intros ->. Qed.

Lemma run_comm_23_to (a b out : path) (la lb : file) (fs : filesystem) :
  a <> out -> b <> out -> fs a = Some la -> fs b = Some lb ->
  run_command_with_output (Cmd.comm_23_to a b out) fs =
  (Ok [], write out (Some (Shell.comm_23 la lb)) (write out (Some []) fs)).
Proof.
  intros Ha Hb Ea Eb. unfold run_command_with_output, Cmd.comm_23_to.
  rewrite !write_other, Ea, Eb by assumption. reflexivity.
Qed.

(** ** The residual-subtraction step *)

Lemma mkstemp_eq (fs : filesystem) : mkstemp fs = (Ok temp_file, write temp_file (Some []) fs).
Proof. reflexivity. Qed.

Lemma shutil_move_eq (src dst : path) (l : file) (fs : filesystem) :
  fs src = Some l ->
  shutil_move src dst fs = (Ok tt, write src None (write dst (Some l) fs)).
Proof. unfold shutil_move. now intros ->. Qed.

Lemma get_residual_missing_rs_ids_file_eq (r a : path) (old att : file) (fs : filesystem) :
  r <> a -> r <> temp_file -> a <> temp_file ->
  fs r = Some old -> fs a = Some att ->
  get_residual_missing_rs_ids_file r a fs =
  (Ok r,
   write temp_file None
     (write r (Some (Shell.comm_23 (Shell.sort old) (Shell.sort att)))
        (write temp_file (Some (Shell.comm_23 (Shell.sort old) (Shell.sort att)))
           (write temp_file (Some [])
              (write temp_file (Some [])
                 (write a (Some (Shell.sort att))
                    (write r (Some (Shell.sort old)) fs))))))).
Proof.
  intros Hra Hrt Hat Hr Ha. unfold get_residual_missing_rs_ids_file.
  rewrite (bind_ok _ _ _ _ _ (run_sort_o r old fs Hr)).
  set (fs1 := write r (Some (Shell.sort old)) fs).
  assert (Ha1 : fs1 a = Some att) by (unfold fs1; now rewrite write_other by congruence).
  rewrite (bind_ok _ _ _ _ _ (run_sort_o a att fs1 Ha1)).
  set (fs2 := write a (Some (Shell.sort att)) fs1).
  rewrite (bind_ok _ _ _ _ _ (mkstemp_eq fs2)).
  set (fs3 := write temp_file (Some []) fs2).
  assert (Hr3 : fs3 r = Some (Shell.sort old)).
  { unfold fs3, fs2, fs1. rewrite !write_other by congruence. apply write_same. }
  assert (Ha3 : fs3 a = Some (Shell.sort att)).
  { unfold fs3, fs2. rewrite write_other by congruence. apply write_same. }
  unfold file_diff_NOT_IN.
  rewrite (bind_ok _ _ _ _ _ (run_comm_23_to r a temp_file _ _ fs3 Hrt Hat Hr3 Ha3)).
  erewrite bind_ok; [reflexivity|].
  apply shutil_move_eq. apply write_same.
Qed.

Lemma get_residual_missing_rs_ids_file_spec (r a : path) (old att : file) (fs : filesystem) :
  r <> a -> r <> temp_file -> a <> temp_file ->
  fs r = Some old -> fs a = Some att ->
  let fs' := snd (get_residual_missing_rs_ids_file r a fs) in
  fst (get_residual_missing_rs_ids_file r a fs) = Ok r /\
  fs' r = Some (Shell.comm_23 (Shell.sort old) (Shell.sort att)) /\
  fs' a = Some (Shell.sort att) /\
  fs' temp_file = None /\
  forall p, p <> r -> p <> a -> p <> temp_file -> fs' p = fs p.
Proof.
  intros Hra Hrt Hat Hr Ha.
  rewrite (get_residual_missing_rs_ids_file_eq r a old att fs) by assumption.
  cbv zeta. cbn [fst snd].
  split; [reflexivity|]. split; [|split; [|split]].
  - rewrite write_other by congruence. apply write_same.
  - rewrite !write_other by congruence. apply write_same.
  - apply write_same.
  - intros p H1 H2 H3. now rewrite !write_other by congruence.
Qed.

(** ** Set difference of the two universes *)

Lemma diff_release_ids_against_mongo_rs_ids_eq (a b : path) (fs : filesystem) :
  diff_release_ids_against_mongo_rs_ids a b fs =
  (Ok missing_ids_txt,
   write missing_ids_txt
     (Some (Shell.grep_E_digits
              match write missing_ids_txt (Some []) fs a,
                    write missing_ids_txt (Some []) fs b with
              | Some release, Some mongo => Shell.comm_31 release mongo
              | _, _ => []
              end))
     (write missing_ids_txt (Some []) fs)).
Proof. reflexivity. Qed.

Lemma diff_release_ids_against_mongo_rs_ids_some (a b : path) (fs : filesystem)
  (release mongo : file) :
  a <> missing_ids_txt -> b <> missing_ids_txt ->
  fs a = Some release -> fs b = Some mongo ->
  diff_release_ids_against_mongo_rs_ids a b fs =
  (Ok missing_ids_txt,
   write missing_ids_txt (Some (Shell.grep_E_digits (Shell.comm_31 release mongo)))
     (write missing_ids_txt (Some []) fs)).
Proof.
  intros Ha Hb Ea Eb. rewrite diff_release_ids_against_mongo_rs_ids_eq.
  rewrite !write_other by assumption. now rewrite Ea, Eb.
Qed.

Lemma contents_write_other (p q : path) (v : option file) (fs : filesystem) :
  q <> p -> contents (write p v fs) q = contents fs q.
Proof. intros H. unfold contents. now rewrite write_other. Qed.

Lemma contents_some (fs : filesystem) (p : path) (l : file) :
  fs p = Some l -> contents fs p = l.
Proof. unfold contents. now intros ->. Qed.

Lemma diff_eq (a b : file) : diff a b = Shell.grep_E_digits (Shell.comm_31 a b).
Proof. reflexivity. Qed.

Lemma missing_ids_In (release mongo : file) (x : line) :
  StronglySorted line_le release -> StronglySorted line_lt mongo ->
  (In x (Shell.grep_E_digits (Shell.comm_31 release mongo)) <->
   In x mongo /\ ~ In x release /\ Shell.matches_digits x = true).
Proof.
  intros Hr Hm. unfold Shell.grep_E_digits. rewrite filter_In. split.
  - intros [H Hd]. repeat split; auto.
    + now apply (comm_31_incl release mongo).
    + now apply (comm_31_sound release mongo).
  - intros [H1 [H2 Hd]]. split; auto. now apply comm_31_complete.
Qed.

(** Column 2 is a subsequence of FILE2. *)
Lemma comm_31_sorted (l1 l2 : file) :
  StronglySorted line_lt l2 -> StronglySorted line_lt (Shell.comm_31 l1 l2).
Proof.
  intros S2. unfold Shell.comm_31, Shell.select_column.
  rewrite <- (comm_file2 l1 l2) in S2.
  remember (Shell.comm l1 l2) as out eqn:Eout. clear Eout.
  induction out as [|[c y] out IH]; simpl in *; [constructor|].
  destruct c; simpl in *; auto.
  - inversion S2 as [|? ? S2' A2]; subst. constructor; auto.
    rewrite Forall_forall in *. intros z Hz. apply A2.
    rewrite in_map_iff in *. destruct Hz as [cl [E Hcl]]. exists cl. split; auto.
    apply filter_In in Hcl. apply filter_In. destruct Hcl as [? Hc]. split; auto.
    now apply column2_not_1.
  - inversion S2; subst. auto.
Qed.

(** C3 (as amended): the diff returns the store-side identifiers that are
    absent from the release side.  For a sorted release file and a sorted,
    duplicate-free store file, [diff_release_ids_against_mongo_rs_ids]
    succeeds and the missing-IDs file holds exactly the lines of the store
    file that are digit strings and do not occur in the release file. *)
Theorem missing_ids_are_store_minus_release
  (fs : filesystem) (r m : path) (release mongo : file) :
  r <> missing_ids_txt -> m <> missing_ids_txt ->
  fs r = Some release -> fs m = Some mongo ->
  StronglySorted line_le release -> StronglySorted line_lt mongo ->
  fst (diff_release_ids_against_mongo_rs_ids r m fs) = Ok missing_ids_txt /\
  exists missing,
    snd (diff_release_ids_against_mongo_rs_ids r m fs) missing_ids_txt = Some missing /\
    forall x, In x missing <->
              In x mongo /\ ~ In x release /\ Shell.matches_digits x = true.
Proof.
  intros Hr Hm Er Em Sr Sm.
  rewrite (diff_release_ids_against_mongo_rs_ids_some r m fs release mongo Hr Hm Er Em).
  cbn [fst snd]. split; [reflexivity|].
  eexists. split; [apply write_same|].
  intros x. now apply missing_ids_In.
Qed.

Lemma missing_ids_are_store_minus_release_witness :
  fst (diff_release_ids_against_mongo_rs_ids unique_ids_txt mongo_unique_rs_ids_txt
         (disk [(unique_ids_txt, ["1"; "2"; "3"]);
                (mongo_unique_rs_ids_txt, ["1"; "2"; "3"; "4"; "5"])])) = Ok missing_ids_txt /\
  exists missing,
    snd (diff_release_ids_against_mongo_rs_ids unique_ids_txt mongo_unique_rs_ids_txt
           (disk [(unique_ids_txt, ["1"; "2"; "3"]);
                  (mongo_unique_rs_ids_txt, ["1"; "2"; "3"; "4"; "5"])])) missing_ids_txt
    = Some missing /\
    forall x, In x missing <->
              In x ["1"; "2"; "3"; "4"; "5"] /\ ~ In x ["1"; "2"; "3"] /\
              Shell.matches_digits x = true.
Proof.
  apply (missing_ids_are_store_minus_release _ _ _ ["1"; "2"; "3"] ["1"; "2"; "3"; "4"; "5"]);
    try discriminate; try reflexivity.
  - repeat constructor; discriminate.
  - repeat constructor; reflexivity.
Defined.

(** C3 as stated fails: with release universe 1..5 and store universe 1..3,
    identifier 4 is in the release and not in the store, yet the diff is
    empty. *)
Lemma missing_ids_not_release_minus_store :
  ~ (forall (a b : file) (x : line),
       StronglySorted line_lt a -> StronglySorted line_lt b ->
       (In x (diff a b) <-> In x a /\ ~ In x b)).
Proof.
  intros H.
  assert (Hin : In "4" (diff ["1"; "2"; "3"; "4"; "5"] ["1"; "2"; "3"])).
  { apply H.
    - repeat constructor; reflexivity.
    - repeat constructor; reflexivity.
    - split; [simpl; tauto|]. simpl. intros [E | [E | [E | []]]]; discriminate. }
  vm_compute in Hin. exact Hin.
Qed.

(** C5 (as amended): with the release side as first and the store side as
    second operand, the diff of [B] against the union of disjoint [A] and
    [B] is [A], for identifier files (digit strings, strictly increasing);
    and the diff of a file against itself is empty. *)
Theorem diff_of_union_and_self :
  (forall A B : file,
      StronglySorted line_lt A -> StronglySorted line_lt B ->
      Forall (fun l => Shell.matches_digits l = true) A ->
      (forall x, In x A -> ~ In x B) ->
      diff B (Shell.sort_u (A ++ B)) = A) /\
  (forall S : file, diff S S = []).
Proof.
  split.
  - intros A B SA SB HA Hdisj. rewrite diff_eq.
    apply strict_sorted_ext; auto.
    + apply filter_strict_sorted, comm_31_sorted, sort_uniq_sorted.
    + intros x. rewrite missing_ids_In.
      * unfold Shell.sort_u. rewrite sort_uniq_In, in_app_iff. split.
        -- tauto.
        -- intros Hx. rewrite Forall_forall in HA. repeat split; auto.
      * now apply strict_sorted_le.
      * apply sort_uniq_sorted.
  - intros S. rewrite diff_eq. unfold Shell.comm_31. rewrite comm_self.
    now rewrite select_column_tagged.
Qed.

Lemma diff_of_union_and_self_witness :
  diff ["2"; "7"] (Shell.sort_u (["1"; "5"] ++ ["2"; "7"])) = ["1"; "5"].
Proof.
  apply (proj1 diff_of_union_and_self).
  - repeat constructor; reflexivity.
  - repeat constructor; reflexivity.
  - repeat constructor; reflexivity.
  - simpl. intros x [<- | [<- | []]] [E | [E | []]]; discriminate.
Defined.

(** C5 as stated fails: for the disjoint [A] = {1} and [B] = {2} the diff
    of [A union B] against [B] is empty, not [A]. *)
Lemma diff_union_not_left_operand :
  ~ (forall A B : file,
       StronglySorted line_lt A -> StronglySorted line_lt B ->
       Forall (fun l => Shell.matches_digits l = true) A ->
       (forall x, In x A -> ~ In x B) ->
       diff (Shell.sort_u (A ++ B)) B = A).
Proof.
  intros H. specialize (H ["1"] ["2"]).
  assert (E : diff (Shell.sort_u (["1"] ++ ["2"])) ["2"] = ["1"]).
  { apply H.
    - repeat constructor; reflexivity.
    - repeat constructor; reflexivity.
    - repeat constructor; reflexivity.
    - simpl. intros x [<- | []] [E | []]; discriminate. }
  vm_compute in E. discriminate.
Qed.

(** ** Building the release universe *)

Lemma generate_unique_rs_ids_file_unique (fs : filesystem) :
  snd (generate_unique_rs_ids_file fs) unique_ids_txt =
  Some ([] ++ Shell.uniq (Shell.sort ((((((([] ++ [])
     ++ Shell.sed_s_rs_g (Shell.cut_f 3 (Shell.grep_v_hash (contents fs current_ids_vcf_gz))))
     ++ Shell.sed_s_rs_g (Shell.cut_f 3 (Shell.grep_v_hash (contents fs merged_ids_vcf_gz))))
     ++ Shell.sed_s_rs_g (Shell.cut_f 3 (Shell.grep_v_hash (contents fs multimap_ids_vcf_gz))))
     ++ Shell.sed_s_rs_g (Shell.cut_f 1 (contents fs merged_deprecated_ids_txt_gz)))
     ++ Shell.sed_s_rs_g (Shell.cut_f 2 (contents fs merged_deprecated_ids_txt_gz)))
     ++ Shell.sed_s_rs_g (contents fs deprecated_ids_txt_gz)))).
Proof. reflexivity. Qed.

(** C4 (as amended): the set-building stage validates nothing.  For every
    content of the release folder it returns normally, and the unique-IDs
    file holds exactly the extracted tokens, well formed or not; lines that
    are not digit strings are dropped later and silently, by the filter of
    the diff stage, which leaves only digit strings in the missing-IDs
    file. *)
Theorem set_building_keeps_malformed_tokens :
  (forall fs : filesystem,
      fst (generate_unique_rs_ids_file fs) = Ok unique_ids_txt /\
      forall x, In x (contents (snd (generate_unique_rs_ids_file fs)) unique_ids_txt) <->
                In x (extracted_tokens fs)) /\
  (forall (fs : filesystem) (a b : path),
      fst (diff_release_ids_against_mongo_rs_ids a b fs) = Ok missing_ids_txt /\
      Forall (fun l => Shell.matches_digits l = true)
             (contents (snd (diff_release_ids_against_mongo_rs_ids a b fs)) missing_ids_txt)).
Proof.
  split.
  - intros fs. split; [reflexivity|]. intros x.
    unfold contents at 1. rewrite generate_unique_rs_ids_file_unique.
    unfold extracted_tokens. cbn [app].
    rewrite sort_uniq_In, !in_app_iff. tauto.
  - intros fs a b. rewrite diff_release_ids_against_mongo_rs_ids_eq. cbn [fst snd].
    split; [reflexivity|]. unfold contents at 1. rewrite write_same.
    apply Forall_forall. intros l Hl. unfold Shell.grep_E_digits in Hl.
    apply filter_In in Hl. tauto.
Qed.

(** C4 as stated fails: a record whose ID column is "rsXYZ" makes the
    set-building stage neither fail nor drop the token; "XYZ" reaches the
    unique-IDs file and the diff is computed. *)
Lemma malformed_token_not_rejected :
  let fs := disk [(current_ids_vcf_gz, [vcf_line "rsXYZ"]);
                  (mongo_unique_rs_ids_txt, ["7"])] in
  Shell.matches_digits "XYZ" = false /\
  fst (generate_unique_rs_ids_file fs) = Ok unique_ids_txt /\
  snd (generate_unique_rs_ids_file fs) unique_ids_txt = Some ["XYZ"] /\
  (unique_release_rs_ids_file <- generate_unique_rs_ids_file ;;
   diff_release_ids_against_mongo_rs_ids unique_release_rs_ids_file
                                         mongo_unique_rs_ids_txt) fs
  = (Ok missing_ids_txt,
     snd (diff_release_ids_against_mongo_rs_ids unique_ids_txt mongo_unique_rs_ids_txt
            (snd (generate_unique_rs_ids_file fs)))) /\
  snd (diff_release_ids_against_mongo_rs_ids unique_ids_txt mongo_unique_rs_ids_txt
         (snd (generate_unique_rs_ids_file fs))) missing_ids_txt = Some ["7"].
Proof. vm_compute. repeat split. Qed.

(** ** The residual *)

(** One residual-subtraction step only removes lines from the residual
    file: every line of the new residual is a line of the old one, the new
    residual is not longer than the old one, and for a residual without
    repeated lines the new residual holds exactly the old lines that are not
    in the category's file. *)
Lemma residual_subtraction_only_removes (r a : path) (old att : file) (fs : filesystem) :
  r <> a -> r <> temp_file -> a <> temp_file ->
  fs r = Some old -> fs a = Some att ->
  exists new,
    snd (get_residual_missing_rs_ids_file r a fs) r = Some new /\
    (forall x, In x new -> In x old) /\
    List.length new <= List.length old /\
    (NoDup old -> forall x, In x new <-> In x old /\ ~ In x att).
Proof.
  intros Hra Hrt Hat Hr Ha.
  destruct (get_residual_missing_rs_ids_file_spec r a old att fs Hra Hrt Hat Hr Ha)
    as [_ [Hnew _]].
  exists (Shell.comm_23 (Shell.sort old) (Shell.sort att)). split; [exact Hnew|].
  split; [|split].
  - intros x Hx. apply sort_In. now apply comm_23_incl in Hx.
  - rewrite <- (sort_length old). apply comm_23_length.
  - intros Hnd x. split.
    + intros Hx. split.
      * apply sort_In. now apply comm_23_incl in Hx.
      * rewrite <- sort_In. revert Hx. apply comm_23_sound.
        -- apply sorted_NoDup_strict; [apply sort_sorted | now apply sort_NoDup].
        -- apply sort_sorted.
    + intros [H1 H2]. apply comm_23_complete.
      * now apply sort_In.
      * now rewrite sort_In.
Qed.

(** C10: a residual-subtraction step sorts the category's file in place:
    afterwards that file holds the same lines with the same multiplicities
    in sorted order, and the new residual is the difference of the two
    sorted files. *)
Theorem attributed_file_sorted_in_place (r a : path) (old att : file) (fs : filesystem) :
  r <> a -> r <> temp_file -> a <> temp_file ->
  fs r = Some old -> fs a = Some att ->
  exists att',
    snd (get_residual_missing_rs_ids_file r a fs) a = Some att' /\
    Permutation att att' /\
    StronglySorted line_le att' /\
    snd (get_residual_missing_rs_ids_file r a fs) r
    = Some (Shell.comm_23 (Shell.sort old) att').
Proof.
  intros Hra Hrt Hat Hr Ha.
  destruct (get_residual_missing_rs_ids_file_spec r a old att fs Hra Hrt Hat Hr Ha)
    as [_ [Hnew [Hatt _]]].
  exists (Shell.sort att). repeat split; auto.
  - apply sort_perm.
  - apply sort_sorted.
Qed.

Lemma attributed_file_sorted_in_place_witness :
  exists att',
    snd (get_residual_missing_rs_ids_file rs_still_missing_txt
           (category_txt "rs_with_merged_ss_parents")
           (disk [(rs_still_missing_txt, ["5"; "4"; "10"]);
                  (category_txt "rs_with_merged_ss_parents", ["5"; "10"; "5"])]))
        (category_txt "rs_with_merged_ss_parents") = Some att' /\
    Permutation ["5"; "10"; "5"] att' /\
    StronglySorted line_le att' /\
    snd (get_residual_missing_rs_ids_file rs_still_missing_txt
           (category_txt "rs_with_merged_ss_parents")
           (disk [(rs_still_missing_txt, ["5"; "4"; "10"]);
                  (category_txt "rs_with_merged_ss_parents", ["5"; "10"; "5"])]))
        rs_still_missing_txt
    = Some (Shell.comm_23 (Shell.sort ["5"; "4"; "10"]) att').
Proof.
  apply (attributed_file_sorted_in_place _ _ ["5"; "4"; "10"] ["5"; "10"; "5"]);
    try discriminate; reflexivity.
Defined.

(** ** Batched evaluation of a category *)

Lemma get_ids_from_mongo_for_category_ok
  (rs_id_attribute_path : string) (p0 : Mongo.pipeline)
  (db : Mongo.database) (fs : filesystem) (missing_ids_file : path) (lines : file)
  (collections_to_query : list string) (attribution_category : string) :
  In rs_id_attribute_path ["accession"; "rs"; "inactiveObjects.rs"] ->
  Mongo.project_accession p0 = rs_id_attribute_path ->
  Mongo.encodable p0 = true ->
  (exists q, Mongo.set_in rs_id_attribute_path [] p0 = Some q) ->
  fs missing_ids_file = Some lines ->
  missing_ids_file <> category_txt attribution_category ->
  Forall (fun l => Shell.matches_digits l = true) lines ->
  Forall (fun l => int64_line l = true) lines ->
  (forall c, In c collections_to_query -> db c <> None) ->
  exists all_ids q_all written,
    comprehension parse_id lines = inr all_ids /\
    Mongo.set_in rs_id_attribute_path all_ids p0 = Some q_all /\
    get_ids_from_mongo_for_category missing_ids_file db p0 rs_id_attribute_path
      collections_to_query attribution_category fs
    = (Ok (category_txt attribution_category),
       write (category_txt attribution_category) (Some written)
         (write (category_txt attribution_category) (Some []) fs)) /\
    forall x, In x written <->
      exists c docs v, In c collections_to_query /\ db c = Some docs /\
                       In v (Mongo.aggregate docs q_all) /\
                       line_to_write rs_id_attribute_path v = inr x.
Proof.
  intros Hvalid Hproj Henc [q0 Hq0] Hfs Hne Hdig Hrange Hdb.
  pose proof (readlines_digits lines Hdig) as Hread.
  rewrite Forall_forall in Hdig, Hrange.
  destruct (read_next_batch_spec lines) as [Hconcat _].
  destruct (comprehension_ok parse_id lines) as [all_ids [Eall _]].
  { intros l Hl. apply parse_id_digits. now apply Hdig. }
  destruct (set_in_total _ _ all_ids _ _ Hq0) as [q_all Hq_all].
  assert (Hbdig : forall b l, In b (read_next_batch_of_missing_ids lines) -> In l b ->
                              Shell.matches_digits l = true).
  { intros b l Hb Hl. apply Hdig. rewrite <- Hconcat. apply in_concat. eauto. }
  assert (Hbrange : forall b l, In b (read_next_batch_of_missing_ids lines) -> In l b ->
                                int64_line l = true).
  { intros b l Hb Hl. apply Hrange. rewrite <- Hconcat. apply in_concat. eauto. }
  destruct (query_batches_ok rs_id_attribute_path p0 Hvalid Hproj Henc
              (map db collections_to_query) (read_next_batch_of_missing_ids lines))
    with (p := p0) as [written [Ew Hw]]; eauto.
  { intros h Hh. apply in_map_iff in Hh. destruct Hh as [c [<- Hc]]. now apply Hdb. }
  exists all_ids, q_all, written. repeat split; auto.
  - unfold get_ids_from_mongo_for_category. rewrite Hfs.
    rewrite contents_write_other by assumption. rewrite (contents_some _ _ _ Hfs).
    now rewrite Hread, Ew.
  - intros Hx. apply Hw in Hx.
    destruct Hx as [b [ids [q [docs [v [Hb [Eids [Hq [Hh [Hv Hl]]]]]]]]]].
    apply in_map_iff in Hh. destruct Hh as [c [Ec Hc]].
    exists c, docs, v. repeat split; auto.
    apply (batched_query_union rs_id_attribute_path p0
             (read_next_batch_of_missing_ids lines) all_ids q_all docs v); auto.
    + now rewrite Hconcat.
    + exists b, ids, q. auto.
  - intros [c [docs [v [Hc [Ec [Hv Hl]]]]]]. apply Hw.
    apply (batched_query_union rs_id_attribute_path p0
             (read_next_batch_of_missing_ids lines) all_ids q_all docs v) in Hv; auto.
    + destruct Hv as [b [ids [q [Hb [Eids [Hq Hv]]]]]].
      exists b, ids, q, docs, v. repeat split; auto.
      apply in_map_iff. exists c. auto.
    + now rewrite Hconcat.
Qed.

(** The five call sites: the path is one of the three identifier paths,
    it is the path projected as [accession], and the declared pipeline
    carries an empty [$in] list at that path. *)
Lemma category_calls_config (q : Mongo.pipeline) (rs_id_attribute_path : string)
  (collections_to_query : list string) (attribution_category : string) :
  In (q, rs_id_attribute_path, collections_to_query, attribution_category) category_calls ->
  In rs_id_attribute_path ["accession"; "rs"; "inactiveObjects.rs"] /\
  Mongo.project_accession q = rs_id_attribute_path /\
  Mongo.encodable q = true /\
  exists q', Mongo.set_in rs_id_attribute_path [] q = Some q'.
Proof.
  intros Hcall. simpl in Hcall.
  destruct Hcall as [E | [E | [E | [E | [E | []]]]]]; injection E as <- <- <- <-;
    (split; [simpl; tauto | split; [reflexivity | split; [reflexivity |
                                                          eexists; reflexivity]]]).
Qed.




(** The 2500 candidates 1 to 2500 are read in three batches of 1000, 1000
    and 500 lines, each sent to both collections; identifier 4, of the
    first batch, is found in both. *)
Example batches_of_2500_candidates :
  map (@List.length line) (read_next_batch_of_missing_ids (numbered 2500))
  = [1000; 1000; 500] /\
  snd (get_ids_from_mongo_for_category rs_still_missing_txt store_4_merged_twice
         get_merged_ss_query "inactiveObjects.rs"
         [dbsnp_svoe_collection_name; svoe_collection_name]
         "rs_with_merged_ss_parents" (disk [(rs_still_missing_txt, numbered 2500)]))
      (category_txt "rs_with_merged_ss_parents") = Some ["4"; "4"].
Proof. vm_compute. split; reflexivity. Qed.


(** ** The exit status *)

(** Whatever happens, the process does not end with status 0. *)
Lemma exit_status_nonzero (env : environment) (fs : filesystem) :
  fst (validate_rs_release_files env fs) <> 0%Z.
Proof.
  unfold validate_rs_release_files.
  destruct (validate_try_block env fs) as [[pid|] [[u|e] fs']];
    try destruct (close_mongo_port_to_tempmongo env pid); simpl; discriminate.
Qed.

(** C1 (evaluation at the failing input): with a store that holds exactly
    the released identifiers nothing is missing, the [try] block completes
    without an exception and the residual is empty, yet the process ends
    with status 1. *)
Theorem exit_status_unbound_on_success :
  fst (snd (validate_try_block (reachable store_1_2_3) release_1_2_3)) = Ok tt /\
  snd (snd (validate_try_block (reachable store_1_2_3) release_1_2_3)) missing_ids_txt
  = Some [] /\
  snd (snd (validate_try_block (reachable store_1_2_3) release_1_2_3)) rs_still_missing_txt
  = Some [] /\
  fst (validate_rs_release_files (reachable store_1_2_3) release_1_2_3) = 1%Z.
Proof. vm_compute. repeat split. Qed.

(** C2 (evaluation at the failing input): identifiers 4 and 5 are missing,
    4 is attributed to the merged and 5 to the declustered category, the
    residual file is empty, yet the run raises the exception with count 2,
    the number of lines of the initial missing-IDs file. *)
Theorem still_missing_counts_initial_file :
  let run := snd (validate_try_block (reachable store_4_merged_5_declustered) release_1_2_3) in
  snd run missing_ids_txt = Some ["4"; "5"] /\
  snd run (category_txt "rs_with_merged_ss_parents") = Some ["4"] /\
  snd run (category_txt "rs_with_declustered_ss_parents") = Some ["5"] /\
  snd run rs_still_missing_txt = Some [] /\
  fst run = Raise (Exception_still_missing 2 rs_still_missing_txt).
Proof. vm_compute. repeat split. Qed.

(** C8 (evaluation at the failing input): identifier 4 is missing and is
    matched by the last category only; it stays in the residual file, so the
    sizes of the matched sets and of the final residual add up to 2 for an
    initial missing set of size 1. *)
Theorem last_category_not_subtracted :
  let fs' := snd (snd (validate_try_block (reachable store_4_non_nucleotide) release_1_2_3)) in
  fs' missing_ids_txt = Some ["4"] /\
  fs' (category_txt "rs_with_merged_ss_parents") = Some [] /\
  fs' (category_txt "rs_with_declustered_ss_parents") = Some [] /\
  fs' (category_txt "rs_with_tandem_repeat_type") = Some [] /\
  fs' (category_txt "rs_with_non_nucleotide_letters") = Some ["4"] /\
  fs' rs_still_missing_txt = Some ["4"] /\
  List.length (contents fs' (category_txt "rs_with_merged_ss_parents"))
  + List.length (contents fs' (category_txt "rs_with_declustered_ss_parents"))
  + List.length (contents fs' (category_txt "rs_with_tandem_repeat_type"))
  + List.length (contents fs' (category_txt "rs_with_non_nucleotide_letters"))
  + List.length (contents fs' rs_still_missing_txt)
  <> List.length (contents fs' missing_ids_txt).
Proof. vm_compute. repeat split. discriminate. Qed.

(** ** Invariants of the files along a computation *)

Lemma keeps_bind {A B : Type} (Inv P Qs Rs : filesystem -> Prop)
  (m : M A) (k : A -> M B) (Qv : A -> Prop) (Rv : B -> Prop) :
  keeps Inv P m Qv Qs ->
  (forall a, Qv a -> keeps Inv Qs (k a) Rv Rs) ->
  keeps Inv P (bind m k) Rv Rs.
Proof.
  intros Hm Hk fs HP Hw. destruct (Hm fs HP Hw) as [Hw1 HQ]. unfold bind.
  destruct (m fs) as [[a|e] fs1]; cbn [fst snd] in *.
  - destruct (HQ a eq_refl) as [Ha Hs]. now apply (Hk a Ha fs1).
  - split; auto. discriminate.
Qed.

Lemma keeps_ret {A : Type} (Inv P : filesystem -> Prop) (a : A) :
  keeps Inv P (ret a) (fun x => x = a) (fun _ => True).
Proof.
  intros fs _ Hw. split; [exact Hw|]. intros a0 E. injection E as <-. split; auto.
Qed.

Lemma keeps_raise {A : Type} (Inv P : filesystem -> Prop) (Qv : A -> Prop)
  (Qs : filesystem -> Prop) (e : exn) :
  keeps Inv P (raise e) Qv Qs.
Proof. intros fs _ Hw. split; [exact Hw|]. intros a0 E. discriminate E. Qed.

Section Frame.

Variables (protected : path -> Prop) (Inv : filesystem -> Prop).
Hypothesis framed : frame_invariant protected Inv.

Lemma keeps_category (missing_ids_file : path) (db : Mongo.database)
  (q : Mongo.pipeline) (rs_id_attribute_path : string) (collections_to_query : list string)
  (attribution_category : string) (P : filesystem -> Prop) :
  ~ protected (category_txt attribution_category) ->
  keeps Inv P
    (get_ids_from_mongo_for_category missing_ids_file db q rs_id_attribute_path
       collections_to_query attribution_category)
    (fun a => a = category_txt attribution_category)
    (fun fs => fs (category_txt attribution_category) <> None).
Proof.
  intros Hout fs _ Hw. unfold get_ids_from_mongo_for_category.
  destruct (fs missing_ids_file); [|split; [exact Hw | discriminate]].
  destruct (query_batches _ _ _ _) as [written e]. cbn [fst snd]. split.
  - repeat (apply framed; [assumption|]); assumption.
  - intros a Ea. rewrite write_same. split; [|discriminate].
    destruct e; [discriminate|]. now injection Ea as <-.
Qed.

Lemma keeps_redirect_to (out : path) (pipeline : filesystem -> file)
  (P : filesystem -> Prop) :
  ~ protected out ->
  keeps Inv P (run_command_with_output (Cmd.redirect_to out pipeline))
        (fun _ => True) (fun _ => True).
Proof.
  intros Hout fs _ Hw. unfold run_command_with_output, Cmd.redirect_to. cbn [fst snd Z.eqb].
  split; auto; repeat (apply framed; [assumption|]); assumption.
Qed.

Lemma keeps_sort_o (f : path) (P : filesystem -> Prop) :
  ~ protected f ->
  keeps Inv P (run_command_with_output (Cmd.sort_o f)) (fun _ => True) (fun _ => True).
Proof.
  intros Hf fs _ Hw. unfold run_command_with_output, Cmd.sort_o.
  destruct (fs f); cbn [fst snd Z.eqb]; split; auto; try discriminate;
    apply framed; assumption.
Qed.

Lemma keeps_mkstemp (P : filesystem -> Prop) :
  ~ protected temp_file ->
  keeps Inv P mkstemp (fun a => a = temp_file) (fun _ => True).
Proof.
  intros Ht fs _ Hw. unfold mkstemp. cbn [fst snd]. split.
  - apply framed; assumption.
  - intros a E. now injection E as <-.
Qed.

Lemma keeps_comm_23_to (a b out : path) (P : filesystem -> Prop) :
  ~ protected out ->
  keeps Inv P (run_command_with_output (Cmd.comm_23_to a b out))
        (fun _ => True) (fun _ => True).
Proof.
  intros Hout fs _ Hw. unfold run_command_with_output, Cmd.comm_23_to.
  destruct (write out (Some []) fs a); [destruct (write out (Some []) fs b)|];
    cbn [fst snd Z.eqb]; split; auto; try discriminate;
    repeat (apply framed; [assumption|]); assumption.
Qed.

Lemma keeps_shutil_move (src dst : path) (P : filesystem -> Prop) :
  ~ protected src -> ~ protected dst ->
  keeps Inv P (shutil_move src dst) (fun _ => True) (fun _ => True).
Proof.
  intros Hs Hd fs _ Hw. unfold shutil_move.
  destruct (fs src); cbn [fst snd]; split; auto; try discriminate;
    repeat (apply framed; [assumption|]); assumption.
Qed.

End Frame.

Lemma keeps_wc_l_from (Inv P : filesystem -> Prop) (f : path) :
  keeps Inv P (run_command_with_output (Cmd.wc_l_from f)) (fun _ => True) (fun _ => True).
Proof.
  intros fs _ Hw. unfold run_command_with_output, Cmd.wc_l_from.
  destruct (fs f); cbn [fst snd Z.eqb]; split; auto; discriminate.
Qed.

(** ** The count that decides the outcome *)

Lemma string_of_uint_digits (d : Decimal.uint) :
  Shell.all_digits (NilEmpty.string_of_uint d) = true.
Proof. induction d; simpl; auto. Qed.

Lemma rstrip_newline (s : string) :
  Shell.all_digits s = true -> Py.rstrip (s ++ String Mongo.newline EmptyString)%string = s.
Proof.
  induction s as [|c r IH]; [reflexivity|].
  simpl. rewrite andb_true_iff. intros [Hc Hr]. rewrite (IH Hr).
  destruct r; auto. now rewrite digit_not_space.
Qed.

Lemma int_of_digits_value (s : string) :
  Shell.matches_digits s = true ->
  Py.int s = option_map (fun u => Z.of_N (N.of_uint u)) (NilEmpty.uint_of_string s).
Proof.
  intros H. destruct s as [|c r]; [discriminate|].
  assert (Hd : Shell.all_digits (String c r) = true) by exact H.
  unfold Py.int. rewrite (strip_digits (String c r)) by assumption.
  simpl in Hd. apply andb_true_iff in Hd. destruct Hd as [Hc Hr].
  destruct (digit_not_sign c Hc) as [Hm [Hp Hu]].
  assert (Hint : Py.int_of_digits (String c r)
                 = option_map (fun u => Z.of_N (N.of_uint u))
                              (NilEmpty.uint_of_string (String c r))).
  { unfold Py.int_of_digits. simpl Py.drop_underscores. rewrite Hu.
    now rewrite drop_underscores_digits by assumption. }
  rewrite <- Hint.
  destruct c as [[] [] [] [] [] [] [] []]; try reflexivity; congruence.
Qed.

(** The count printed by [wc -l] is read back by [int]. *)
Lemma int_of_wc_l_output (n : nat) :
  Py.int (Py.strip (process_output [Py.str (Z.of_nat n)])) = Some (Z.of_nat n).
Proof.
  assert (Hd : exists d, d <> Decimal.Nil /\
                         Py.str (Z.of_nat n) = NilEmpty.string_of_uint d /\
                         Z.of_N (N.of_uint d) = Z.of_nat n).
  { unfold Py.str. destruct (Z.of_nat n) as [|p|p] eqn:E.
    - exists (Decimal.D0 Decimal.Nil). repeat split. discriminate.
    - exists (Pos.to_uint p). split; [apply DecimalPos.Unsigned.to_uint_nonnil|]. split.
      + simpl. pose proof (DecimalPos.Unsigned.to_uint_nonnil p).
        destruct (Pos.to_uint p); auto. congruence.
      + unfold N.of_uint. now rewrite DecimalPos.Unsigned.of_to.
    - lia. }
  destruct Hd as [d [Hnil [Hs Hv]]].
  unfold process_output. simpl String.concat. rewrite Hs.
  assert (Hstrip : Py.strip (NilEmpty.string_of_uint d ++ String Mongo.newline EmptyString)%string
                   = NilEmpty.string_of_uint d).
  { unfold Py.strip.
    assert (Py.lstrip (NilEmpty.string_of_uint d ++ String Mongo.newline EmptyString)%string
            = (NilEmpty.string_of_uint d ++ String Mongo.newline EmptyString)%string) as ->.
    { destruct d; try reflexivity. congruence. }
    apply rstrip_newline, string_of_uint_digits. }
  rewrite Hstrip, int_of_digits_value.
  - now rewrite NilEmpty.usu, <- Hv.
  - pose proof (string_of_uint_digits d) as Hdig.
    destruct d; try exact Hdig. congruence.
Qed.

Lemma missing_ids_framed (missing : file) :
  frame_invariant (fun p => p = missing_ids_txt)
                  (fun fs => fs missing_ids_txt = Some missing).
Proof. intros fs p v Hp H. rewrite write_other; auto. Qed.

Lemma keeps_cp (protected : path -> Prop) (Inv P : filesystem -> Prop) (a b : path) :
  frame_invariant protected Inv -> ~ protected b ->
  keeps Inv P (run_command_with_output (Cmd.cp a b)) (fun _ => True) (fun _ => True).
Proof.
  intros framed Hb fs _ Hw. unfold run_command_with_output, Cmd.cp.
  destruct (fs a); cbn [fst snd Z.eqb]; split; auto; try discriminate;
    apply framed; assumption.
Qed.

(** The last step returns normally only for an empty missing-IDs file. *)
Lemma keeps_count (missing : file) (residual : path) (P : filesystem -> Prop) :
  keeps (fun fs => fs missing_ids_txt = Some missing) P
    (out <- run_command_with_output (Cmd.wc_l_from missing_ids_txt) ;;
     match Py.int (Py.strip (process_output out)) with
     | Some num_unattributed_missing_rs_ids =>
         if (num_unattributed_missing_rs_ids >? 0)%Z
         then raise (Exception_still_missing num_unattributed_missing_rs_ids residual)
         else ret tt
     | None => raise ValueError
     end)
    (fun _ => missing = []) (fun _ => True).
Proof.
  intros fs _ Hw. unfold bind, run_command_with_output, Cmd.wc_l_from.
  rewrite Hw. cbn [fst snd Z.eqb]. rewrite int_of_wc_l_output.
  destruct (Z.of_nat (Shell.wc_l missing) >? 0)%Z eqn:E; cbn [fst snd raise ret].
  - split; auto. discriminate.
  - split; auto. intros _ _. split; auto.
    destruct missing; auto. simpl in E. discriminate.
Qed.

(** ** The residual along a whole attribution *)

Lemma residual_within_framed (missing : file) :
  frame_invariant (fun p => p = rs_still_missing_txt) (residual_within missing).
Proof.
  intros fs p v Hp [residual [E H]]. exists residual. split; auto.
  now rewrite write_other.
Qed.

Lemma keeps_residual_subtraction (missing : file) (a : path) :
  a <> rs_still_missing_txt -> a <> temp_file ->
  keeps (residual_within missing) (fun fs => fs a <> None)
    (get_residual_missing_rs_ids_file rs_still_missing_txt a)
    (fun r => r = rs_still_missing_txt) (fun _ => True).
Proof.
  intros Ha Hat fs Hsome [residual [E [Hin Hlen]]].
  destruct (fs a) as [att|] eqn:Ea; [|now elim Hsome].
  destruct (get_residual_missing_rs_ids_file_spec rs_still_missing_txt a residual att fs)
    as [Hr [Hnew _]]; auto; try discriminate.
  split.
  - exists (Shell.comm_23 (Shell.sort residual) (Shell.sort att)). split; auto. split.
    + intros x Hx. apply Hin, sort_In. now apply comm_23_incl in Hx.
    + pose proof (comm_23_length (Shell.sort residual) (Shell.sort att)) as Hl.
      rewrite sort_length in Hl. lia.
  - intros r Er. split; auto. congruence.
Qed.

Ltac keeps_side :=
  let H := fresh "H" in intros H; cbv beta in H; discriminate H.

Ltac keeps_solve framed :=
  lazymatch goal with
  | |- keeps _ _ (bind (run_command_with_output (Cmd.wc_l_from missing_ids_txt)) _)
             (fun _ => _ = []) _ =>
      apply keeps_count
  | |- keeps _ _ (bind _ _) _ _ =>
      eapply keeps_bind;
      [ keeps_solve framed
      | let a := fresh "a" in
        let Ha := fresh "Ha" in
        intros a Ha; cbv beta in Ha; try subst a; keeps_solve framed ]
  | |- keeps _ _ (ret _) _ _ => apply keeps_ret
  | |- keeps _ _ (raise _) _ _ => apply keeps_raise
  | |- keeps _ _ (get_ids_from_mongo_for_category _ _ _ _ _ _) _ _ =>
      eapply keeps_category; [exact framed | keeps_side]
  | |- keeps (residual_within _) _ (get_residual_missing_rs_ids_file _ _) _ _ =>
      apply keeps_residual_subtraction; keeps_side
  | |- keeps _ _ (run_command_with_output (Cmd.redirect_to _ _)) _ _ =>
      eapply keeps_redirect_to; [exact framed | keeps_side]
  | |- keeps _ _ (run_command_with_output (Cmd.sort_o _)) _ _ =>
      eapply keeps_sort_o; [exact framed | keeps_side]
  | |- keeps _ _ (run_command_with_output (Cmd.comm_23_to _ _ _)) _ _ =>
      eapply keeps_comm_23_to; [exact framed | keeps_side]
  | |- keeps _ _ mkstemp _ _ => eapply keeps_mkstemp; [exact framed | keeps_side]
  | |- keeps _ _ (shutil_move _ _) _ _ =>
      eapply keeps_shutil_move; [exact framed | keeps_side | keeps_side]
  | |- keeps _ _ (run_command_with_output (Cmd.wc_l_from _)) _ _ =>
      apply keeps_wc_l_from
  | |- keeps _ _ (match ?o with Some _ => _ | None => _ end) _ _ =>
      destruct o; keeps_solve framed
  | |- keeps _ _ (if ?b then _ else _) _ _ =>
      destruct b; keeps_solve framed
  end.

Lemma cp_missing_ids (fs : filesystem) (missing : file) :
  fs missing_ids_txt = Some missing ->
  run_command_with_output (Cmd.cp missing_ids_txt rs_still_missing_txt) fs
  = (Ok [], write rs_still_missing_txt (Some missing) fs).
Proof. intros Hfs. unfold run_command_with_output, Cmd.cp. now rewrite Hfs. Qed.

(** X11: whatever the store returns and wherever the attribution stops,
    the residual file holds only lines of the initial missing-IDs file and
    is not longer than it. *)
Lemma attribution_keeps_residual_within_missing (db : Mongo.database) (fs : filesystem)
  (missing : file) :
  fs missing_ids_txt = Some missing ->
  residual_within missing (snd (get_missing_ids_attributions missing_ids_txt db fs)).
Proof.
  intros Hfs. unfold get_missing_ids_attributions.
  rewrite (bind_ok _ _ _ _ _ (cp_missing_ids fs missing Hfs)).
  assert (Hw : residual_within missing (write rs_still_missing_txt (Some missing) fs)).
  { exists missing. split; [apply write_same | auto]. }
  revert Hw. generalize (write rs_still_missing_txt (Some missing) fs). clear fs Hfs.
  intros fs Hw.
  match goal with
  | |- residual_within _ (snd (?m fs)) =>
      assert (Hk : exists Rv Rs, keeps (residual_within missing) (fun _ => True) m Rv Rs)
  end.
  { eexists. eexists.
    unfold get_rs_with_merged_ss, get_rs_with_declustered_ss, get_rs_with_tandem_repeat_type,
      get_rs_with_non_nucleotide_letters.
    keeps_solve (residual_within_framed missing). }
  destruct Hk as [Rv [Rs Hk]]. exact (proj1 (Hk fs I Hw)).
Qed.

Lemma attribution_keeps_residual_within_missing_witness :
  residual_within ["4"; "5"]
    (snd (get_missing_ids_attributions missing_ids_txt (fun _ => None)
            (disk [(missing_ids_txt, ["4"; "5"])]))).
Proof.
  apply (attribution_keeps_residual_within_missing (fun _ => None)
           (disk [(missing_ids_txt, ["4"; "5"])]) ["4"; "5"]).
  reflexivity.
Defined.

(** ** The residual along a run *)

Lemma get_residual_missing_rs_ids_file_returns (r a : path) (fs fs' : filesystem)
  (x : path) :
  get_residual_missing_rs_ids_file r a fs = (Ok x, fs') -> x = r.
Proof.
  unfold get_residual_missing_rs_ids_file, bind, ret. intros H.
  repeat match type of H with
         | context [match ?t with _ => _ end] =>
             destruct t as [[?|?] ?]; try discriminate H
         end.
  congruence.
Qed.

(** [get_missing_ids_attributions] runs its steps one after the other. *)
Lemma attribution_runs_its_steps (missing_ids_file : path) (db : Mongo.database)
  (fs : filesystem) :
  get_missing_ids_attributions missing_ids_file db fs
  = run_steps (attribution_steps missing_ids_file db) fs.
Proof.
  unfold get_missing_ids_attributions, attribution_steps, attribution_step, run_steps.
  cbv zeta. unfold bind, ret, raise.
  destruct (run_command_with_output (Cmd.cp missing_ids_file rs_still_missing_txt) fs)
    as [[o|e] fs1]; [|reflexivity].
  destruct (get_rs_with_merged_ss rs_still_missing_txt db fs1) as [[f1|e] fs2];
    [|reflexivity].
  destruct (get_residual_missing_rs_ids_file rs_still_missing_txt f1 fs2)
    as [[r1|e] fs3] eqn:E1; [|reflexivity].
  apply get_residual_missing_rs_ids_file_returns in E1. subst r1.
  destruct (get_rs_with_declustered_ss rs_still_missing_txt db fs3) as [[f2|e] fs4];
    [|reflexivity].
  destruct (get_residual_missing_rs_ids_file rs_still_missing_txt f2 fs4)
    as [[r2|e] fs5] eqn:E2; [|reflexivity].
  apply get_residual_missing_rs_ids_file_returns in E2. subst r2.
  destruct (get_rs_with_tandem_repeat_type rs_still_missing_txt db fs5) as [[f3|e] fs6];
    [|reflexivity].
  destruct (get_residual_missing_rs_ids_file rs_still_missing_txt f3 fs6)
    as [[r3|e] fs7] eqn:E3; [|reflexivity].
  apply get_residual_missing_rs_ids_file_returns in E3. subst r3.
  destruct (get_rs_with_non_nucleotide_letters rs_still_missing_txt db fs7)
    as [[f4|e] fs8]; [|reflexivity].
  destruct (run_command_with_output (Cmd.wc_l_from missing_ids_file) fs8)
    as [[out|e] fs9]; [|reflexivity].
  destruct (Py.int (Py.strip (process_output out))) as [n|]; [|reflexivity].
  destruct (n >? 0)%Z; reflexivity.
Qed.

Lemma run_steps_cons (step : M unit) (steps : list (M unit)) (fs : filesystem) :
  run_steps (step :: steps) fs
  = match step fs with
    | (Ok _, fs') => run_steps steps fs'
    | (Raise e, fs') => (Raise e, fs')
    end.
Proof. reflexivity. Qed.

Lemma run_steps_app (l1 l2 : list (M unit)) (fs : filesystem) :
  run_steps (l1 ++ l2) fs
  = match run_steps l1 fs with
    | (Ok _, fs') => run_steps l2 fs'
    | (Raise e, fs') => (Raise e, fs')
    end.
Proof.
  revert fs. induction l1 as [|s l1 IH]; intros fs; [reflexivity|].
  cbn [app]. rewrite !run_steps_cons. destruct (s fs) as [[u|e] fs1]; auto.
Qed.

Lemma run_steps_single (step : M unit) (fs : filesystem) : run_steps [step] fs = step fs.
Proof.
  rewrite run_steps_cons. destruct (step fs) as [[[]|e] fs1]; reflexivity.
Qed.

Lemma snd_then_ret {A : Type} (m : M A) (fs : filesystem) :
  snd ((m ;;; ret tt) fs) = snd (m fs).
Proof. unfold bind, ret. destruct (m fs) as [[a|e] fs1]; reflexivity. Qed.

Lemma residual_is_framed (v : option file) :
  frame_invariant (fun p => p = rs_still_missing_txt)
                  (fun fs => fs rs_still_missing_txt = v).
Proof.
  intros fs p w Hp H. rewrite write_other; [exact H|].
  intros E. apply Hp. now symmetry.
Qed.

Lemma leaves_residual_shrinks (step : M unit) : leaves_residual step -> shrinks step.
Proof.
  intros H fs before Hb. exists before. rewrite H. auto.
Qed.

Lemma comm_23_sort_In (old att : file) (x : line) :
  NoDup old ->
  (In x (Shell.comm_23 (Shell.sort old) (Shell.sort att)) <->
   In x old /\ ~ In x (Shell.sort att)).
Proof.
  intros Hnd. split.
  - intros Hx. split.
    + apply sort_In. now apply comm_23_incl in Hx.
    + revert Hx. apply comm_23_sound.
      * apply sorted_NoDup_strict; [apply sort_sorted | now apply sort_NoDup].
      * apply sort_sorted.
  - intros [H1 H2]. apply comm_23_complete; [now apply sort_In | assumption].
Qed.

Lemma subtracted_within (c : string) (r : result unit * filesystem) (before after : file) :
  subtracted c r before after ->
  (forall x, In x after -> In x before) /\ List.length after <= List.length before.
Proof.
  unfold subtracted. destruct (fst r) as [u|e].
  - intros [attributed [_ [-> _]]]. split.
    + intros x Hx. apply sort_In. now apply comm_23_incl in Hx.
    + rewrite <- (sort_length before). apply comm_23_length.
  - intros ->. auto.
Qed.

(** A category step subtracts the file of its category, or stops before it
    writes the residual file. *)
Lemma category_subtraction_step (db : Mongo.database) (q : Mongo.pipeline)
  (rs_id_attribute_path : string) (collections_to_query : list string) (c : string)
  (fs : filesystem) (before : file) :
  fs rs_still_missing_txt = Some before ->
  let r := (attributed <- get_ids_from_mongo_for_category rs_still_missing_txt db q
                            rs_id_attribute_path collections_to_query c ;;
            get_residual_missing_rs_ids_file rs_still_missing_txt attributed ;;;
            ret tt) fs in
  exists after, snd r rs_still_missing_txt = Some after /\ subtracted c r before after.
Proof.
  intros Hb. cbv zeta.
  destruct (keeps_category (fun p => p = rs_still_missing_txt)
              (fun fs' => fs' rs_still_missing_txt = Some before)
              (residual_is_framed (Some before))
              rs_still_missing_txt db q rs_id_attribute_path collections_to_query c
              (fun _ => True) ltac:(keeps_side) fs I Hb) as [Hinv Hok].
  unfold subtracted, bind, ret.
  destruct (get_ids_from_mongo_for_category rs_still_missing_txt db q rs_id_attribute_path
              collections_to_query c fs) as [[f|e] fs1]; cbn [fst snd] in *.
  - destruct (Hok f eq_refl) as [-> Hsome].
    destruct (fs1 (category_txt c)) as [att|] eqn:Ea; [|now elim Hsome].
    destruct (get_residual_missing_rs_ids_file_spec rs_still_missing_txt (category_txt c)
                before att fs1 ltac:(discriminate) ltac:(discriminate) ltac:(discriminate)
                Hinv Ea) as [H1 [H2 [H3 _]]].
    destruct (get_residual_missing_rs_ids_file rs_still_missing_txt (category_txt c) fs1)
      as [[r|e] fs2]; cbn [fst snd] in *; [|discriminate H1].
    exists (Shell.comm_23 (Shell.sort before) (Shell.sort att)).
    split; [exact H2|]. exists (Shell.sort att).
    split; [exact H3|]. split; [reflexivity|].
    intros Hnd x. now apply comm_23_sort_In.
  - exists before. split; [exact Hinv | reflexivity].
Qed.

Lemma category_step_shrinks (db : Mongo.database) (q : Mongo.pipeline)
  (rs_id_attribute_path : string) (collections_to_query : list string) (c : string) :
  shrinks (attributed <- get_ids_from_mongo_for_category rs_still_missing_txt db q
                           rs_id_attribute_path collections_to_query c ;;
           get_residual_missing_rs_ids_file rs_still_missing_txt attributed ;;;
           ret tt).
Proof.
  intros fs before Hb.
  destruct (category_subtraction_step db q rs_id_attribute_path collections_to_query c
              fs before Hb) as [after [Ha Hs]].
  exists after. split; [exact Ha|]. exact (subtracted_within _ _ _ _ Hs).
Qed.

Lemma non_nucleotide_leaves_residual (db : Mongo.database) :
  leaves_residual (get_rs_with_non_nucleotide_letters rs_still_missing_txt db ;;; ret tt).
Proof.
  intros fs. rewrite snd_then_ret.
  assert (Hk : exists Rv Rs,
             keeps (fun fs' => fs' rs_still_missing_txt = fs rs_still_missing_txt)
                   (fun _ => True)
                   (get_rs_with_non_nucleotide_letters rs_still_missing_txt db) Rv Rs).
  { eexists. eexists. unfold get_rs_with_non_nucleotide_letters.
    keeps_solve (residual_is_framed (fs rs_still_missing_txt)). }
  destruct Hk as [Rv [Rs Hk]]. exact (proj1 (Hk fs I eq_refl)).
Qed.

Lemma count_leaves_residual (missing_ids_file residual : path) :
  leaves_residual
    (out <- run_command_with_output (Cmd.wc_l_from missing_ids_file) ;;
     match Py.int (Py.strip (process_output out)) with
     | None => raise ValueError
     | Some num_unattributed_missing_rs_ids =>
         if (num_unattributed_missing_rs_ids >? 0)%Z
         then raise (Exception_still_missing num_unattributed_missing_rs_ids residual)
         else ret tt
     end).
Proof.
  intros fs. unfold bind, run_command_with_output, Cmd.wc_l_from, raise, ret.
  destruct (fs missing_ids_file); cbn [Z.eqb fst snd]; [|reflexivity].
  destruct (Py.int _) as [n|]; [destruct (n >? 0)%Z|]; reflexivity.
Qed.

(** Along steps that shrink the residual, the residual after one more step
    is within the residual before it. *)
Lemma run_steps_shrinks (steps : list (M unit)) :
  Forall shrinks steps ->
  forall (fs : filesystem) (start : file) (j : nat),
    fs rs_still_missing_txt = Some start ->
    exists before after,
      snd (run_steps (firstn j steps) fs) rs_still_missing_txt = Some before /\
      snd (run_steps (firstn (S j) steps) fs) rs_still_missing_txt = Some after /\
      (forall x, In x after -> In x before) /\
      List.length after <= List.length before.
Proof.
  induction 1 as [|s steps Hs Hsteps IH]; intros fs start j Hstart.
  - exists start, start. rewrite !firstn_nil. cbn [run_steps ret snd]. auto.
  - destruct (Hs fs start Hstart) as [next [Hnext Hin]].
    destruct j as [|j].
    + exists start, next. cbn [firstn]. rewrite run_steps_single.
      cbn [run_steps ret snd]. auto.
    + cbn [firstn]. rewrite !run_steps_cons.
      destruct (s fs) as [[u|e] fs1]; cbn [snd] in *.
      * exact (IH fs1 next j Hnext).
      * exists next, next. auto.
Qed.

Lemma run_steps_keeps_residual_file (steps : list (M unit)) :
  Forall shrinks steps ->
  forall (fs : filesystem) (start : file),
    fs rs_still_missing_txt = Some start ->
    exists residual, snd (run_steps steps fs) rs_still_missing_txt = Some residual.
Proof.
  induction 1 as [|s steps Hs Hsteps IH]; intros fs start Hstart.
  - exists start. exact Hstart.
  - destruct (Hs fs start Hstart) as [next [Hnext _]].
    rewrite run_steps_cons. destruct (s fs) as [[u|e] fs1]; cbn [snd] in *; eauto.
Qed.

(** The step of category [c] after the steps [steps]. *)
Lemma run_steps_subtracted (steps : list (M unit)) (step : M unit) (c : string) :
  Forall shrinks steps ->
  (forall fs before, fs rs_still_missing_txt = Some before ->
     exists after, snd (step fs) rs_still_missing_txt = Some after /\
                   subtracted c (step fs) before after) ->
  forall (fs : filesystem) (start : file),
    fs rs_still_missing_txt = Some start ->
    exists before after,
      snd (run_steps steps fs) rs_still_missing_txt = Some before /\
      snd (run_steps (steps ++ [step]) fs) rs_still_missing_txt = Some after /\
      subtracted c (run_steps (steps ++ [step]) fs) before after.
Proof.
  intros Hsteps Hstep fs start Hstart.
  destruct (run_steps_keeps_residual_file steps Hsteps fs start Hstart) as [before Hb].
  rewrite run_steps_app.
  destruct (run_steps steps fs) as [[u|e] fs1]; cbn [snd] in *.
  - rewrite run_steps_single. destruct (Hstep fs1 before Hb) as [after [Ha Hs]]. eauto.
  - exists before, before. split; [exact Hb|]. split; [exact Hb|]. reflexivity.
Qed.

Lemma run_steps_leaves_residual (steps : list (M unit)) :
  Forall leaves_residual steps ->
  forall fs, snd (run_steps steps fs) rs_still_missing_txt = fs rs_still_missing_txt.
Proof.
  induction 1 as [|s steps Hs Hsteps IH]; intros fs; [reflexivity|].
  rewrite run_steps_cons. specialize (Hs fs).
  destruct (s fs) as [[u|e] fs1]; cbn [snd] in *; [rewrite IH|]; exact Hs.
Qed.

Lemma Forall_firstn_of {A : Type} (P : A -> Prop) (n : nat) (l : list A) :
  Forall P l -> Forall P (firstn n l).
Proof.
  intros H. revert n. induction H as [|a l Ha Hl IH]; intros [|n]; cbn [firstn]; auto.
Qed.

Lemma attribution_steps_shrink (db : Mongo.database) :
  Forall shrinks (tl (attribution_steps missing_ids_txt db)).
Proof.
  cbn [attribution_steps tl].
  unfold attribution_step, get_rs_with_merged_ss, get_rs_with_declustered_ss,
    get_rs_with_tandem_repeat_type.
  repeat constructor.
  - apply category_step_shrinks.
  - apply category_step_shrinks.
  - apply category_step_shrinks.
  - apply leaves_residual_shrinks, non_nucleotide_leaves_residual.
  - apply leaves_residual_shrinks, count_leaves_residual.
Qed.

Lemma copy_step (fs : filesystem) (missing : file) (steps : list (M unit)) :
  fs missing_ids_txt = Some missing ->
  run_steps ((run_command_with_output (Cmd.cp missing_ids_txt rs_still_missing_txt) ;;;
              ret tt) :: steps) fs
  = run_steps steps (write rs_still_missing_txt (Some missing) fs).
Proof.
  intros Hfs. rewrite run_steps_cons.
  now rewrite (bind_ok _ _ _ _ _ (cp_missing_ids fs missing Hfs)).
Qed.

(** C7: along every run of [get_missing_ids_attributions] on a missing-IDs
    file, the residual file is written by subtraction only.  The run is the
    sequence of its six steps, and the state after [k] steps is the state
    in which the run is after its first [k] steps, or in which it has
    stopped before.  The first step makes the residual file a copy of the
    missing-IDs file.  After every later step the residual file holds only
    lines that it held before the step, and not more of them.  Each of the
    three category steps, when it returns, leaves what [comm -23] keeps of
    the sorted residual against the file of its category (for a residual
    without repeated lines: exactly the lines that are not in that file),
    and leaves the residual file as it was when it raises; the last two
    steps do not write it. *)
Theorem residual_shrinks_along_every_run (db : Mongo.database) (fs : filesystem)
  (missing : file) :
  fs missing_ids_txt = Some missing ->
  let steps := attribution_steps missing_ids_txt db in
  let run k := run_steps (firstn k steps) fs in
  let residual k := snd (run k) rs_still_missing_txt in
  get_missing_ids_attributions missing_ids_txt db fs = run (List.length steps) /\
  residual 1 = Some missing /\
  (forall k, 1 <= k ->
     exists before after,
       residual k = Some before /\ residual (S k) = Some after /\
       (forall x, In x after -> In x before) /\
       List.length after <= List.length before) /\
  (forall k c, nth_error subtracted_categories k = Some c ->
     exists before after,
       residual (S k) = Some before /\ residual (S (S k)) = Some after /\
       subtracted c (run (S (S k))) before after) /\
  (forall k, 4 <= k -> residual k = residual 4).
Proof.
  intros Hfs. cbv zeta.
  pose proof (attribution_steps_shrink db) as Hshrink.
  set (fs1 := write rs_still_missing_txt (Some missing) fs).
  assert (Hstart : fs1 rs_still_missing_txt = Some missing) by apply write_same.
  assert (Hcons : forall k,
             run_steps (firstn (S k) (attribution_steps missing_ids_txt db)) fs
             = run_steps (firstn k (tl (attribution_steps missing_ids_txt db))) fs1).
  { intros k. cbn [attribution_steps firstn tl]. now apply copy_step. }
  split; [|split; [|split; [|split]]].
  - rewrite attribution_runs_its_steps. reflexivity.
  - rewrite Hcons. exact Hstart.
  - intros [|k] Hk; [lia|]. rewrite !Hcons.
    exact (run_steps_shrinks _ Hshrink fs1 missing k Hstart).
  - intros k c Hc. rewrite !Hcons.
    unfold attribution_steps, attribution_step, get_rs_with_merged_ss,
      get_rs_with_declustered_ss, get_rs_with_tandem_repeat_type in *.
    cbn [tl] in *.
    destruct k as [|[|[|k]]]; cbn [subtracted_categories nth_error] in Hc.
    + injection Hc as <-.
      apply (run_steps_subtracted [] _ _ (Forall_nil _)
               (category_subtraction_step db _ _ _ _) fs1 missing Hstart).
    + injection Hc as <-.
      apply (run_steps_subtracted [_] _ _ (Forall_firstn_of _ 1 _ Hshrink)
               (category_subtraction_step db _ _ _ _) fs1 missing Hstart).
    + injection Hc as <-.
      apply (run_steps_subtracted [_; _] _ _ (Forall_firstn_of _ 2 _ Hshrink)
               (category_subtraction_step db _ _ _ _) fs1 missing Hstart).
    + destruct k; discriminate Hc.
  - intros k Hk. do 4 (destruct k as [|k]; [lia|]). rewrite !Hcons.
    cbn [attribution_steps tl firstn].
    match goal with
    | |- snd (run_steps (?a :: ?b :: ?c :: ?l) fs1) _ = _ =>
        change (a :: b :: c :: l) with ([a; b; c] ++ l)
    end.
    rewrite run_steps_app.
    destruct (run_steps _ fs1) as [[u|e] fs4]; [|reflexivity]. cbn [snd].
    apply run_steps_leaves_residual. apply Forall_firstn_of.
    repeat constructor;
      [apply non_nucleotide_leaves_residual | apply count_leaves_residual].
Qed.

Lemma residual_shrinks_along_every_run_witness :
  let fs := disk [(missing_ids_txt, ["4"; "5"; "6"])] in
  let steps := attribution_steps missing_ids_txt store_4_merged_5_declustered in
  let run k := run_steps (firstn k steps) fs in
  let residual k := snd (run k) rs_still_missing_txt in
  get_missing_ids_attributions missing_ids_txt store_4_merged_5_declustered fs
  = run (List.length steps) /\
  residual 1 = Some ["4"; "5"; "6"] /\
  (forall k, 1 <= k ->
     exists before after,
       residual k = Some before /\ residual (S k) = Some after /\
       (forall x, In x after -> In x before) /\
       List.length after <= List.length before) /\
  (forall k c, nth_error subtracted_categories k = Some c ->
     exists before after,
       residual (S k) = Some before /\ residual (S (S k)) = Some after /\
       subtracted c (run (S (S k))) before after) /\
  (forall k, 4 <= k -> residual k = residual 4).
Proof.
  apply (residual_shrinks_along_every_run store_4_merged_5_declustered
           (disk [(missing_ids_txt, ["4"; "5"; "6"])]) ["4"; "5"; "6"]).
  reflexivity.
Defined.

(** On that store the residual file holds 4, 5 and 6 after the copy, 5 and
    6 after the merged step, and 6 from the declustered step on. *)
Example residual_after_each_step :
  map (fun k => snd (run_steps (firstn k (attribution_steps missing_ids_txt
                                            store_4_merged_5_declustered))
                       (disk [(missing_ids_txt, ["4"; "5"; "6"])]))
                    rs_still_missing_txt)
      [0; 1; 2; 3; 4; 5; 6]
  = [None; Some ["4"; "5"; "6"]; Some ["5"; "6"]; Some ["6"]; Some ["6"]; Some ["6"];
     Some ["6"]].
Proof. vm_compute. reflexivity. Qed.

(** ** Determinacy of a run *)

Lemma only_true (p f : path) : only f p = true -> p = f.
Proof. apply path_eqb_eq. Qed.

Lemma contents_eqon (K : pathset) (fs fs' : filesystem) (p : path) :
  eqon K fs fs' -> K p = true -> contents fs p = contents fs' p.
Proof. intros H Hp. unfold contents. now rewrite (H p Hp). Qed.

Lemma eqon_write (K : pathset) (fs fs' : filesystem) (f : path) (v : option file) :
  eqon K fs fs' -> eqon (union K (only f)) (write f v fs) (write f v fs').
Proof.
  intros H p Hp. unfold write. destruct (path_eqb p f) eqn:E; auto.
  apply H. unfold union, only in Hp. rewrite E in Hp. now rewrite orb_false_r in Hp.
Qed.

Lemma determined_ret {A : Type} (K : pathset) (a : A) :
  determined K (ret a) nothing (fun x => x = a).
Proof.
  intros fs. exists (Ok a), (fun _ => None). split; [auto|split].
  - intros a' E. injection E as <-. split; auto. discriminate.
  - intros fs' _. split; reflexivity.
Qed.

Lemma determined_raise {A : Type} (K W : pathset) (Q : A -> Prop) (e : exn) :
  determined K (raise e) W Q.
Proof.
  intros fs. exists (Raise e), (fun _ => None). split; [auto|split].
  - discriminate.
  - intros fs' _. split; reflexivity.
Qed.

Lemma determined_bind {A B : Type} (K W W2 : pathset) (m : M A) (k : A -> M B)
  (Q : A -> Prop) (Q2 : B -> Prop) :
  determined K m W Q ->
  (forall a, Q a -> determined (union K W) (k a) W2 Q2) ->
  determined K (bind m k) (union W W2) Q2.
Proof.
  intros Hm Hk fs. destruct (Hm fs) as [r [d [Hrel [Hok Hdet]]]].
  destruct r as [a|e].
  - destruct (Hok a eq_refl) as [Ha HW].
    destruct (Hk a Ha (override d fs)) as [r2 [d2 [Hrel2 [Hok2 Hdet2]]]].
    exists r2, (fun p => match d2 p with Some v => Some v | None => d p end).
    split; [|split].
    + intros p Hp. rewrite (Hrel2 p Hp). now apply Hrel.
    + intros b Eb. destruct (Hok2 b Eb) as [Hb HW2]. split; auto.
      intros p Hp. unfold union in Hp. apply orb_true_iff in Hp.
      destruct (d2 p) eqn:E; [discriminate|].
      destruct Hp as [Hp|Hp]; [now apply HW | now elim (HW2 p Hp)].
    + intros fs' Heq. destruct (Hdet fs' Heq) as [Hr Hs].
      unfold bind. destruct (m fs') as [r' fs1] eqn:Em. cbn [fst snd] in Hr, Hs. subst r'.
      assert (Heq1 : eqon (union K W) (override d fs) fs1).
      { intros p Hp. rewrite Hs. unfold override. destruct (d p) eqn:E; auto.
        apply Heq. unfold union in Hp. apply orb_true_iff in Hp.
        destruct Hp as [Hp|Hp]; auto. now elim (HW p Hp). }
      destruct (Hdet2 fs1 Heq1) as [Hr2 Hs2]. split; auto.
      intros p. rewrite Hs2. unfold override. destruct (d2 p); auto.
  - exists (Raise e), d. split; [auto|split].
    + discriminate.
    + intros fs' Heq. destruct (Hdet fs' Heq) as [Hr Hs].
      unfold bind. destruct (m fs') as [r' fs1]. cbn [fst snd] in *. subst r'. split; auto.
Qed.

(** A computation that replaces at most the file [f]. *)
Lemma determined_writer {A : Type} (K : pathset) (m : M A) (f : path) (Q : A -> Prop)
  (r : filesystem -> result A) (v : filesystem -> option (option file)) :
  is_release_file f = false ->
  (forall fs a, r fs = Ok a -> Q a /\ v fs <> None) ->
  (forall fs fs', eqon K fs fs' ->
     fst (m fs') = r fs /\
     forall p, snd (m fs') p = match v fs with
                               | Some c => write f c fs' p
                               | None => fs' p
                               end) ->
  determined K m (only f) Q.
Proof.
  intros Hf Hok Hm fs.
  exists (r fs), (fun p => if path_eqb p f then v fs else None). split; [|split].
  - intros p Hp. destruct (path_eqb p f) eqn:E; auto.
    apply path_eqb_eq in E. subst p. congruence.
  - intros a Ea. destruct (Hok fs a Ea) as [Ha Hv]. split; auto.
    intros p Hp. unfold only in Hp. now rewrite Hp.
  - intros fs' Heq. destruct (Hm fs fs' Heq) as [Hr Hs]. split; auto.
    intros p. rewrite Hs. unfold override, write.
    destruct (v fs); destruct (path_eqb p f); reflexivity.
Qed.

Lemma determined_append_to (K : pathset) (out : path) (pipeline : filesystem -> file) :
  is_release_file out = false -> K out = true ->
  (forall fs fs', eqon K fs fs' -> pipeline fs = pipeline fs') ->
  determined K (run_command_with_output (Cmd.append_to out pipeline)) (only out)
             (fun _ => True).
Proof.
  intros Hout HK Hp.
  apply (determined_writer K _ out _ (fun _ => Ok [])
           (fun fs => Some (Some (contents fs out ++ pipeline fs)))); auto.
  - intros fs a _. split; auto. discriminate.
  - intros fs fs' Heq. unfold run_command_with_output, Cmd.append_to. cbn [fst snd Z.eqb].
    rewrite (Hp fs fs' Heq), (contents_eqon K fs fs' out Heq HK). auto.
Qed.

Lemma determined_redirect_to (K : pathset) (out : path) (pipeline : filesystem -> file) :
  is_release_file out = false ->
  (forall fs fs', eqon (union K (only out)) fs fs' -> pipeline fs = pipeline fs') ->
  determined K (run_command_with_output (Cmd.redirect_to out pipeline)) (only out)
             (fun _ => True).
Proof.
  intros Hout Hp.
  apply (determined_writer K _ out _ (fun _ => Ok [])
           (fun fs => Some (Some (pipeline (write out (Some []) fs))))); auto.
  - intros fs a _. split; auto. discriminate.
  - intros fs fs' Heq. unfold run_command_with_output, Cmd.redirect_to. cbn [fst snd Z.eqb].
    rewrite (Hp _ _ (eqon_write K fs fs' out (Some []) Heq)). split; auto.
    intros p. unfold write. destruct (path_eqb p out); reflexivity.
Qed.

Lemma determined_cp (K : pathset) (a b : path) :
  is_release_file b = false -> K a = true ->
  determined K (run_command_with_output (Cmd.cp a b)) (only b) (fun _ => True).
Proof.
  intros Hb HK.
  apply (determined_writer K _ b _
           (fun fs => match fs a with Some _ => Ok [] | None => Raise (CalledProcessError 1) end)
           (fun fs => match fs a with Some l => Some (Some l) | None => None end)); auto.
  - intros fs x. destruct (fs a); [|discriminate]. intros _. split; auto. discriminate.
  - intros fs fs' Heq. unfold run_command_with_output, Cmd.cp.
    rewrite <- (Heq a HK). destruct (fs a); cbn [fst snd Z.eqb]; auto.
Qed.

Lemma determined_sort_o (K : pathset) (f : path) :
  is_release_file f = false -> K f = true ->
  determined K (run_command_with_output (Cmd.sort_o f)) (only f) (fun _ => True).
Proof.
  intros Hf HK.
  apply (determined_writer K _ f _
           (fun fs => match fs f with Some _ => Ok [] | None => Raise (CalledProcessError 2) end)
           (fun fs => match fs f with
                      | Some l => Some (Some (Shell.sort l))
                      | None => None
                      end)); auto.
  - intros fs x. destruct (fs f); [|discriminate]. intros _. split; auto. discriminate.
  - intros fs fs' Heq. unfold run_command_with_output, Cmd.sort_o.
    rewrite <- (Heq f HK). destruct (fs f); cbn [fst snd Z.eqb]; auto.
Qed.

Lemma determined_sort_u_o (K : pathset) (f : path) :
  is_release_file f = false -> K f = true ->
  determined K (run_command_with_output (Cmd.sort_u_o f)) (only f) (fun _ => True).
Proof.
  intros Hf HK.
  apply (determined_writer K _ f _
           (fun fs => match fs f with Some _ => Ok [] | None => Raise (CalledProcessError 2) end)
           (fun fs => match fs f with
                      | Some l => Some (Some (Shell.sort_u l))
                      | None => None
                      end)); auto.
  - intros fs x. destruct (fs f); [|discriminate]. intros _. split; auto. discriminate.
  - intros fs fs' Heq. unfold run_command_with_output, Cmd.sort_u_o.
    rewrite <- (Heq f HK). destruct (fs f); cbn [fst snd Z.eqb]; auto.
Qed.

Lemma determined_mongoexport (K : pathset) (db : Mongo.database) (c : string) (f : path) :
  is_release_file f = false ->
  determined K (run_command_with_output (Cmd.mongoexport db c f)) (only f) (fun _ => True).
Proof.
  intros Hf.
  apply (determined_writer K _ f _
           (fun _ => match db c with Some _ => Ok [] | None => Raise (CalledProcessError 1) end)
           (fun _ => match db c with
                     | Some docs => Some (Some (Mongo.mongoexport_accession docs))
                     | None => None
                     end)); auto.
  - intros fs x. destruct (db c); [|discriminate]. intros _. split; auto. discriminate.
  - intros fs fs' Heq. unfold run_command_with_output, Cmd.mongoexport.
    destruct (db c); cbn [fst snd Z.eqb]; auto.
Qed.

Lemma determined_wc_l_from (K : pathset) (f : path) :
  K f = true ->
  determined K (run_command_with_output (Cmd.wc_l_from f)) nothing (fun _ => True).
Proof.
  intros HK fs.
  exists (match fs f with
          | Some l => Ok [Py.str (Z.of_nat (Shell.wc_l l))]
          | None => Raise (CalledProcessError 1)
          end), (fun _ => None).
  split; [auto|split].
  - intros a _. split; auto. discriminate.
  - intros fs' Heq. unfold run_command_with_output, Cmd.wc_l_from.
    rewrite <- (Heq f HK). destruct (fs f); cbn [fst snd Z.eqb]; auto.
Qed.

Lemma determined_comm_23_to (K : pathset) (a b out : path) :
  is_release_file out = false ->
  union K (only out) a = true -> union K (only out) b = true ->
  determined K (run_command_with_output (Cmd.comm_23_to a b out)) (only out)
             (fun _ => True).
Proof.
  intros Hout Ha Hb.
  apply (determined_writer K _ out _
           (fun fs => match write out (Some []) fs a, write out (Some []) fs b with
                      | Some _, Some _ => Ok []
                      | _, _ => Raise (CalledProcessError 1)
                      end)
           (fun fs => match write out (Some []) fs a, write out (Some []) fs b with
                      | Some la, Some lb => Some (Some (Shell.comm_23 la lb))
                      | _, _ => Some (Some [])
                      end)); auto.
  - intros fs x _. split; auto.
    destruct (write out (Some []) fs a); [destruct (write out (Some []) fs b)|]; discriminate.
  - intros fs fs' Heq. unfold run_command_with_output, Cmd.comm_23_to.
    pose proof (eqon_write K fs fs' out (Some []) Heq) as Heq0.
    rewrite <- (Heq0 a Ha), <- (Heq0 b Hb).
    destruct (write out (Some []) fs a); [destruct (write out (Some []) fs b)|];
      cbn [fst snd Z.eqb]; split; auto;
      intros p; unfold write; destruct (path_eqb p out); reflexivity.
Qed.

Lemma determined_mkstemp (K : pathset) :
  determined K mkstemp (only temp_file) (fun a => a = temp_file).
Proof.
  apply (determined_writer K _ temp_file _ (fun _ => Ok temp_file)
           (fun _ => Some (Some []))); auto.
  intros fs a E. injection E as <-. split; auto. discriminate.
Qed.

Lemma determined_get_ids_from_mongo_for_category (K : pathset) (missing_ids_file : path)
  (db : Mongo.database) (q : Mongo.pipeline) (rs_id_attribute_path : string)
  (collections_to_query : list string) (attribution_category : string) :
  K missing_ids_file = true ->
  determined K
    (get_ids_from_mongo_for_category missing_ids_file db q rs_id_attribute_path
       collections_to_query attribution_category)
    (only (category_txt attribution_category))
    (fun a => a = category_txt attribution_category).
Proof.
  intros HK.
  set (out := category_txt attribution_category).
  set (result_of := fun fs : filesystem =>
         query_batches
           (read_next_batch_of_missing_ids
              (Py.readlines (contents (write out (Some []) fs) missing_ids_file)))
           (map db collections_to_query) q rs_id_attribute_path).
  apply (determined_writer K _ out _
           (fun fs => match fs missing_ids_file with
                      | None => Raise (FileNotFoundError missing_ids_file)
                      | Some _ => match snd (result_of fs) with
                                  | None => Ok out
                                  | Some e => Raise e
                                  end
                      end)
           (fun fs => match fs missing_ids_file with
                      | None => None
                      | Some _ => Some (Some (fst (result_of fs)))
                      end)); auto.
  - intros fs a. destruct (fs missing_ids_file); [|discriminate].
    destruct (snd (result_of fs)); [discriminate|].
    intros E. injection E as <-. split; auto. discriminate.
  - intros fs fs' Heq. unfold get_ids_from_mongo_for_category. fold out.
    assert (E : result_of fs' = result_of fs).
    { unfold result_of. f_equal. f_equal. f_equal. unfold contents, write.
      now rewrite (Heq _ HK). }
    rewrite <- (Heq _ HK). destruct (fs missing_ids_file); [|split; reflexivity].
    fold (result_of fs'). rewrite E. destruct (result_of fs) as [written e].
    cbn [fst snd]. split; auto.
    intros p. unfold write. destruct (path_eqb p out); reflexivity.
Qed.

(** A computation that replaces at most the files [f] and [g]. *)
Lemma determined_rm_f (K : pathset) (a b : path) :
  is_release_file a = false -> is_release_file b = false ->
  determined K (run_command_with_output (Cmd.rm_f a b)) (union (only a) (only b))
             (fun _ => True).
Proof.
  intros Ha Hb fs.
  exists (Ok []), (fun p => if path_eqb p b then Some None
                            else if path_eqb p a then Some None else None).
  split; [|split].
  - intros p Hp. destruct (path_eqb p b) eqn:Eb.
    { apply path_eqb_eq in Eb. subst p. congruence. }
    destruct (path_eqb p a) eqn:Ea; auto.
    apply path_eqb_eq in Ea. subst p. congruence.
  - intros x _. split; auto. intros p Hp. unfold union, only in Hp.
    destruct (path_eqb p b); [discriminate|].
    rewrite orb_false_r in Hp. rewrite Hp. discriminate.
  - intros fs' _. unfold run_command_with_output, Cmd.rm_f. cbn [fst snd Z.eqb].
    split; auto. intros p. unfold override, write.
    destruct (path_eqb p b); auto. destruct (path_eqb p a); auto.
Qed.

Lemma determined_shutil_move (K : pathset) (src dst : path) :
  is_release_file src = false -> is_release_file dst = false -> K src = true ->
  determined K (shutil_move src dst) (union (only src) (only dst)) (fun _ => True).
Proof.
  intros Hs Hd HK fs.
  exists (match fs src with Some _ => Ok tt | None => Raise (FileNotFoundError src) end),
         (fun p => match fs src with
                   | Some l => if path_eqb p src then Some None
                               else if path_eqb p dst then Some (Some l) else None
                   | None => None
                   end).
  split; [|split].
  - intros p Hp. destruct (fs src); auto. destruct (path_eqb p src) eqn:Es.
    { apply path_eqb_eq in Es. subst p. congruence. }
    destruct (path_eqb p dst) eqn:Ed; auto.
    apply path_eqb_eq in Ed. subst p. congruence.
  - intros x. destruct (fs src); [|discriminate]. intros _. split; auto.
    intros p Hp. unfold union, only in Hp.
    destruct (path_eqb p src); [discriminate|].
    cbn [orb] in Hp. rewrite Hp. discriminate.
  - intros fs' Heq. unfold shutil_move. rewrite <- (Heq src HK).
    destruct (fs src); cbn [fst snd]; split; auto.
    intros p. unfold override, write.
    destruct (path_eqb p src); auto. destruct (path_eqb p dst); auto.
Qed.

Ltac determined_pipeline :=
  let f1 := fresh "fs" in
  let f2 := fresh "fs" in
  let H := fresh "H" in
  intros f1 f2 H; cbv beta zeta;
  repeat (rewrite (contents_eqon _ f1 f2 _ H) by reflexivity);
  repeat match goal with
         | |- context [f1 ?p] => rewrite (H p eq_refl)
         end;
  reflexivity.

Ltac determined_solve :=
  lazymatch goal with
  | |- determined _ (bind _ _) _ _ =>
      eapply determined_bind;
      [ determined_solve
      | let a := fresh "a" in
        let Ha := fresh "Ha" in
        intros a Ha; cbv beta in Ha; try subst a; determined_solve ]
  | |- determined _ (ret _) _ _ => apply determined_ret
  | |- determined _ (raise _) _ _ => apply determined_raise
  | |- determined _ mkstemp _ _ => apply determined_mkstemp
  | |- determined _ (shutil_move _ _) _ _ => apply determined_shutil_move; reflexivity
  | |- determined _ (get_ids_from_mongo_for_category _ _ _ _ _ _) _ _ =>
      apply determined_get_ids_from_mongo_for_category; reflexivity
  | |- determined _ (run_command_with_output (Cmd.rm_f _ _)) _ _ =>
      apply determined_rm_f; reflexivity
  | |- determined _ (run_command_with_output (Cmd.append_to _ _)) _ _ =>
      apply determined_append_to; [reflexivity | reflexivity | determined_pipeline]
  | |- determined _ (run_command_with_output (Cmd.redirect_to _ _)) _ _ =>
      apply determined_redirect_to; [reflexivity | determined_pipeline]
  | |- determined _ (run_command_with_output (Cmd.cp _ _)) _ _ =>
      apply determined_cp; reflexivity
  | |- determined _ (run_command_with_output (Cmd.sort_o _)) _ _ =>
      apply determined_sort_o; reflexivity
  | |- determined _ (run_command_with_output (Cmd.sort_u_o _)) _ _ =>
      apply determined_sort_u_o; reflexivity
  | |- determined _ (run_command_with_output (Cmd.wc_l_from _)) _ _ =>
      apply determined_wc_l_from; reflexivity
  | |- determined _ (run_command_with_output (Cmd.mongoexport _ _ _)) _ _ =>
      apply determined_mongoexport; reflexivity
  | |- determined _ (run_command_with_output (Cmd.comm_23_to _ _ _)) _ _ =>
      apply determined_comm_23_to; reflexivity
  | |- determined _ (match ?o with Some _ => _ | None => _ end) _ _ =>
      destruct o; determined_solve
  | |- determined _ (if ?b then _ else _) _ _ =>
      destruct b; determined_solve
  end.

(** The body of a validation run, after the port has been opened. *)
Lemma determined_validation (db : Mongo.database) :
  exists (W : pathset) (Q : unit -> Prop),
    determined is_release_file
      (export_unique_rs_ids_from_mongo db mongo_unique_rs_ids_txt ;;;
       unique_release_rs_ids_file <- generate_unique_rs_ids_file ;;
       missing_rs_ids_file <-
         diff_release_ids_against_mongo_rs_ids unique_release_rs_ids_file
                                               mongo_unique_rs_ids_txt ;;
       get_missing_ids_attributions missing_rs_ids_file db) W Q.
Proof.
  eexists. eexists.
  unfold export_unique_rs_ids_from_mongo, generate_unique_rs_ids_file,
    diff_release_ids_against_mongo_rs_ids, get_missing_ids_attributions,
    get_rs_with_merged_ss, get_rs_with_declustered_ss, get_rs_with_tandem_repeat_type,
    get_rs_with_non_nucleotide_letters, get_residual_missing_rs_ids_file,
    file_diff_NOT_IN, for_each.
  determined_solve.
Qed.

(** A determined computation gives the same result and leaves the same
    files on any two disks with the same release files. *)
Lemma determined_same_inputs {A : Type} (m : M A) (W : pathset) (Q : A -> Prop) :
  determined is_release_file m W Q ->
  forall fs fs', eqon is_release_file fs fs' ->
    fst (m fs) = fst (m fs') /\
    forall p, snd (m fs) p <> fs p -> snd (m fs') p = snd (m fs) p.
Proof.
  intros Hm fs fs' Heq. destruct (Hm fs) as [r [d [Hrel [_ Hdet]]]].
  destruct (Hdet fs (fun p _ => eq_refl)) as [Hr Hs].
  destruct (Hdet fs' Heq) as [Hr' Hs']. split; [congruence|].
  intros p Hp. rewrite Hs' , Hs. rewrite Hs in Hp. unfold override in *.
  destruct (d p); [reflexivity|]. now elim Hp.
Qed.

(** Running a determined computation again on the files it left changes
    nothing. *)
Lemma determined_rerun {A : Type} (m : M A) (W : pathset) (Q : A -> Prop) :
  determined is_release_file m W Q ->
  forall fs, fst (m (snd (m fs))) = fst (m fs) /\
             forall p, snd (m (snd (m fs))) p = snd (m fs) p.
Proof.
  intros Hm fs. destruct (Hm fs) as [r [d [Hrel [_ Hdet]]]].
  destruct (Hdet fs (fun p _ => eq_refl)) as [Hr Hs].
  assert (Heq : eqon is_release_file fs (snd (m fs))).
  { intros p Hp. rewrite Hs. unfold override. now rewrite (Hrel p Hp). }
  destruct (Hdet (snd (m fs)) Heq) as [Hr' Hs']. split; [congruence|].
  intros p. rewrite Hs'. unfold override at 1. destruct (d p) eqn:E; [|reflexivity].
  rewrite Hs. unfold override. now rewrite E.
Qed.

(** C9: running the validation again on unchanged release files and an
    unchanged store, starting from the files that the first run left,
    gives the same outcome (success, or the same exception with the same
    count), the same content of every file (category files and residual
    included) and the same exit status. *)
Theorem validation_rerun_idempotent (env : environment) (fs : filesystem) :
  let first := validate_try_block env fs in
  let second := validate_try_block env (snd (snd first)) in
  fst (snd second) = fst (snd first) /\
  (forall p, snd (snd second) p = snd (snd first) p) /\
  fst (validate_rs_release_files env (snd (validate_rs_release_files env fs)))
  = fst (validate_rs_release_files env fs).
Proof.
  assert (Hsnd : forall fs0, snd (validate_rs_release_files env fs0)
                             = snd (snd (validate_try_block env fs0))).
  { intros fs0. unfold validate_rs_release_files.
    destruct (validate_try_block env fs0) as [[pid|] [[u|e] fs']];
      try destruct (close_mongo_port_to_tempmongo env pid); reflexivity. }
  assert (Hfst : forall fs1 fs2,
             fst (validate_try_block env fs1) = fst (validate_try_block env fs2) ->
             fst (snd (validate_try_block env fs1)) = fst (snd (validate_try_block env fs2)) ->
             fst (validate_rs_release_files env fs1) = fst (validate_rs_release_files env fs2)).
  { intros fs1 fs2. unfold validate_rs_release_files.
    destruct (validate_try_block env fs1) as [[pid1|] [[u1|e1] fs1']];
      destruct (validate_try_block env fs2) as [[pid2|] [[u2|e2] fs2']];
      cbn [fst snd]; intros E1 E2; try discriminate; try reflexivity;
      injection E1 as <-; destruct (close_mongo_port_to_tempmongo env pid1); reflexivity. }
  cbv zeta.
  assert (Hrun : fst (validate_try_block env (snd (snd (validate_try_block env fs))))
                 = fst (validate_try_block env fs) /\
                 fst (snd (validate_try_block env (snd (snd (validate_try_block env fs)))))
                 = fst (snd (validate_try_block env fs)) /\
                 forall p, snd (snd (validate_try_block env
                                       (snd (snd (validate_try_block env fs))))) p
                           = snd (snd (validate_try_block env fs)) p).
  { unfold validate_try_block.
    destruct (open_mongo_port_to_tempmongo env) as [[pid port]|].
    - cbn [fst snd]. destruct (determined_validation (release_db env)) as [W [Q Hdet]].
      destruct (determined_rerun _ W Q Hdet fs) as [H1 H2]. auto.
    - cbn [fst snd]. auto. }
  destruct Hrun as [H0 [H1 H2]]. split; [exact H1|]. split; [exact H2|].
  rewrite Hsnd. now apply Hfst.
Qed.


(** ** The outcome of the attribution *)

(** The attribution never touches the initial missing-IDs file, and it
    returns normally only if that file is empty. *)
Lemma attribution_keeps_missing_ids (db : Mongo.database) (missing : file) :
  exists Rs,
    keeps (fun fs => fs missing_ids_txt = Some missing) (fun _ => True)
          (get_missing_ids_attributions missing_ids_txt db)
          (fun _ => missing = []) Rs.
Proof.
  eexists.
  unfold get_missing_ids_attributions, get_rs_with_merged_ss, get_rs_with_declustered_ss,
    get_rs_with_tandem_repeat_type, get_rs_with_non_nucleotide_letters,
    get_residual_missing_rs_ids_file, file_diff_NOT_IN.
  eapply keeps_bind;
    [apply (keeps_cp _ _ _ _ _ (missing_ids_framed missing)); intros H; discriminate H|].
  intros _ _.
  keeps_solve (missing_ids_framed missing).
Qed.

(** With an empty missing-IDs file no query is sent and the attribution
    returns normally, whatever the store and the other files are. *)
Lemma attribution_of_nothing_returns (db : Mongo.database) (fs : filesystem) :
  fs missing_ids_txt = Some [] ->
  fst (get_missing_ids_attributions missing_ids_txt db fs) = Ok tt.
Proof.
  intros Hfs.
  assert (Hdet : exists W Q, determined (only missing_ids_txt)
                               (get_missing_ids_attributions missing_ids_txt db) W Q).
  { eexists. eexists.
    unfold get_missing_ids_attributions, get_rs_with_merged_ss, get_rs_with_declustered_ss,
      get_rs_with_tandem_repeat_type, get_rs_with_non_nucleotide_letters,
      get_residual_missing_rs_ids_file, file_diff_NOT_IN.
    determined_solve. }
  destruct Hdet as [W [Q Hdet]].
  destruct (Hdet (disk [(missing_ids_txt, [])])) as [r [d [_ [_ H]]]].
  destruct (H (disk [(missing_ids_txt, [])]) (fun p _ => eq_refl)) as [Hr _].
  destruct (H fs) as [Hr' _].
  { intros p Hp. apply only_true in Hp. subst p. now rewrite Hfs. }
  rewrite Hr', <- Hr. vm_compute. reflexivity.
Qed.

(** The attribution returns normally exactly when the initial missing-IDs
    file is empty: with any missing identifier it ends with an exception,
    whether or not the categories explain it. *)
Lemma attribution_returns_iff_nothing_missing (db : Mongo.database) (fs : filesystem)
  (missing : file) :
  fs missing_ids_txt = Some missing ->
  (fst (get_missing_ids_attributions missing_ids_txt db fs) = Ok tt <-> missing = []).
Proof.
  intros Hfs. split.
  - destruct (attribution_keeps_missing_ids db missing) as [Rs Hk].
    intros E. exact (proj1 (proj2 (Hk fs I Hfs) tt E)).
  - intros ->. now apply attribution_of_nothing_returns.
Qed.

Lemma generate_unique_rs_ids_file_returns (fs : filesystem) :
  fst (generate_unique_rs_ids_file fs) = Ok unique_ids_txt.
Proof. reflexivity. Qed.

(** The [try] block of a validation completes without an exception only if
    the missing-IDs file it computed is empty. *)
Lemma validation_completes_only_if_nothing_missing (env : environment) (fs : filesystem) :
  fst (snd (validate_try_block env fs)) = Ok tt ->
  snd (snd (validate_try_block env fs)) missing_ids_txt = Some [].
Proof.
  unfold validate_try_block.
  destruct (open_mongo_port_to_tempmongo env) as [[pid port]|]; [|discriminate].
  cbn [fst snd].
  destruct (export_unique_rs_ids_from_mongo (release_db env) mongo_unique_rs_ids_txt fs)
    as [[u|e] fs0] eqn:Ee.
  - rewrite (bind_ok _ _ _ _ _ Ee).
    assert (Eg : generate_unique_rs_ids_file fs0
                 = (Ok unique_ids_txt, snd (generate_unique_rs_ids_file fs0))).
    { now rewrite <- (generate_unique_rs_ids_file_returns fs0), <- surjective_pairing. }
    rewrite (bind_ok _ _ _ _ _ Eg).
    rewrite (bind_ok _ _ _ _ _ (diff_release_ids_against_mongo_rs_ids_eq _ _ _)).
    match goal with
    | |- context [get_missing_ids_attributions _ _ (write missing_ids_txt (Some ?l) ?f)] =>
        generalize l; intros missing;
        assert (Hfs : write missing_ids_txt (Some missing) f missing_ids_txt = Some missing)
          by apply write_same;
        revert Hfs; generalize (write missing_ids_txt (Some missing) f)
    end.
    intros fs1 Hfs E.
    destruct (attribution_keeps_missing_ids (release_db env) missing) as [Rs Hk].
    destruct (Hk fs1 I Hfs) as [Hkeep Hok].
    destruct (Hok tt E) as [-> _]. exact Hkeep.
  - unfold bind. rewrite Ee. discriminate.
Qed.

(** ** The exit status in general *)

(** X14: whatever the environment and the files, the process ends with
    status 1 or 255, never 0.  It is 255 (from [sys.exit(-1)]) exactly when
    the port was opened, the [try] block raised an exception and the port
    was closed without one; in every other case, a normal completion of the
    [try] block included, the interpreter ends with status 1 on an exception
    that nothing catches. *)
Theorem exit_status_is_1_or_255 (env : environment) (fs : filesystem) :
  let status := fst (validate_rs_release_files env fs) in
  (status = 1 \/ status = 255)%Z /\
  (status = 255%Z <->
   exists pid port e,
     open_mongo_port_to_tempmongo env = Some (pid, port) /\
     close_mongo_port_to_tempmongo env pid = None /\
     fst (snd (validate_try_block env fs)) = Raise e).
Proof.
  cbv zeta. unfold validate_rs_release_files, validate_try_block.
  destruct (open_mongo_port_to_tempmongo env) as [[pid port]|].
  - match goal with
    | |- context [(?m fs)] =>
        match type of (m fs) with (result unit * filesystem)%type =>
          destruct (m fs) as [[u|e] fs'] end
    end; cbn [fst snd];
      destruct (close_mongo_port_to_tempmongo env pid) as [x|] eqn:Ec; cbn [fst snd];
      change (sys_exit (-1)) with 255%Z; unfold uncaught_exception_status;
      (split; [auto|]);
      (split;
       [ intros H; try discriminate H; exists pid, port, e; auto
       | intros [pid' [port' [e' [E [Ec' Er]]]]]; try discriminate Er;
         try reflexivity; injection E as <- <-; congruence ]).
  - cbn [fst snd]. split; [auto|]. split; [discriminate|].
    intros [pid [port [e [E _]]]]. discriminate.
Qed.

(** ** The store universe *)

Lemma export_unique_rs_ids_from_mongo_eq (db : Mongo.database) (f : path) (fs : filesystem)
  (d1 d2 d3 d4 : list Mongo.Document) :
  db "clusteredVariantEntity" = Some d1 ->
  db "clusteredVariantOperationEntity" = Some d2 ->
  db "dbsnpClusteredVariantEntity" = Some d3 ->
  db "dbsnpClusteredVariantOperationEntity" = Some d4 ->
  export_unique_rs_ids_from_mongo db f fs =
  (Ok tt,
   write f (Some (Shell.sort_u (Mongo.mongoexport_accession d4)))
     (write f (Some (Mongo.mongoexport_accession d4))
        (write f (Some (Mongo.mongoexport_accession d3))
           (write f (Some (Mongo.mongoexport_accession d2))
              (write f (Some (Mongo.mongoexport_accession d1)) fs))))).
Proof.
  intros E1 E2 E3 E4.
  unfold export_unique_rs_ids_from_mongo, for_each, bind, run_command_with_output,
    Cmd.mongoexport, Cmd.sort_u_o, ret.
  rewrite E1, E2, E3, E4. cbn [Z.eqb]. rewrite write_same. reflexivity.
Qed.

Lemma export_unique_rs_ids_from_mongo_frame (db : Mongo.database) (f p : path)
  (fs : filesystem) :
  p <> f -> snd (export_unique_rs_ids_from_mongo db f fs) p = fs p.
Proof.
  intros Hp.
  unfold export_unique_rs_ids_from_mongo, for_each, bind, run_command_with_output,
    Cmd.mongoexport, Cmd.sort_u_o, ret.
  repeat match goal with
         | |- context [match db ?c with Some _ => _ | None => _ end] => destruct (db c)
         end; cbn [Z.eqb fst snd]; rewrite ?write_same; cbn [Z.eqb fst snd];
    rewrite ?write_other by assumption; reflexivity.
Qed.

(** X13: [export_unique_rs_ids_from_mongo] returns normally exactly when
    all four clustered-variant collections can be exported, and fails with
    [CalledProcessError] otherwise.  The four exports write the same file,
    so on return it holds the sorted, duplicate-free accessions of the last
    collection, dbsnpClusteredVariantOperationEntity, only.  No other file
    is touched. *)
Theorem export_keeps_last_collection_only (db : Mongo.database) (f : path) (fs : filesystem) :
  let run := export_unique_rs_ids_from_mongo db f fs in
  (fst run = Ok tt <->
   forall c, In c ["clusteredVariantEntity"; "clusteredVariantOperationEntity";
                   "dbsnpClusteredVariantEntity"; "dbsnpClusteredVariantOperationEntity"] ->
             db c <> None) /\
  (fst run <> Ok tt -> exists returncode, returncode <> 0%Z /\
                                          fst run = Raise (CalledProcessError returncode)) /\
  (fst run = Ok tt ->
   exists docs, db "dbsnpClusteredVariantOperationEntity" = Some docs /\
                snd run f = Some (Shell.sort_u (Mongo.mongoexport_accession docs))) /\
  (forall p, p <> f -> snd run p = fs p).
Proof.
  cbv zeta. split; [|split; [|split]].
  - split.
    + intros E c Hc. simpl in Hc.
      unfold export_unique_rs_ids_from_mongo, for_each, bind, run_command_with_output,
        Cmd.mongoexport in E.
      destruct (db "clusteredVariantEntity") eqn:E1; [|discriminate E].
      destruct (db "clusteredVariantOperationEntity") eqn:E2; [|discriminate E].
      destruct (db "dbsnpClusteredVariantEntity") eqn:E3; [|discriminate E].
      destruct (db "dbsnpClusteredVariantOperationEntity") eqn:E4; [|discriminate E].
      destruct Hc as [<- | [<- | [<- | [<- | []]]]]; congruence.
    + intros H.
      destruct (db "clusteredVariantEntity") as [d1|] eqn:E1;
        [|elim (H "clusteredVariantEntity"); simpl; auto].
      destruct (db "clusteredVariantOperationEntity") as [d2|] eqn:E2;
        [|elim (H "clusteredVariantOperationEntity"); simpl; auto].
      destruct (db "dbsnpClusteredVariantEntity") as [d3|] eqn:E3;
        [|elim (H "dbsnpClusteredVariantEntity"); simpl; auto].
      destruct (db "dbsnpClusteredVariantOperationEntity") as [d4|] eqn:E4;
        [|elim (H "dbsnpClusteredVariantOperationEntity"); simpl; auto 6].
      now rewrite (export_unique_rs_ids_from_mongo_eq db f fs d1 d2 d3 d4).
  - unfold export_unique_rs_ids_from_mongo, for_each, bind, run_command_with_output,
      Cmd.mongoexport, Cmd.sort_u_o, ret.
    destruct (db "clusteredVariantEntity") eqn:E1; cbn [Z.eqb fst snd];
      [|intros _; exists 1%Z; split; [discriminate|reflexivity]].
    destruct (db "clusteredVariantOperationEntity") eqn:E2; cbn [Z.eqb fst snd];
      [|intros _; exists 1%Z; split; [discriminate|reflexivity]].
    destruct (db "dbsnpClusteredVariantEntity") eqn:E3; cbn [Z.eqb fst snd];
      [|intros _; exists 1%Z; split; [discriminate|reflexivity]].
    destruct (db "dbsnpClusteredVariantOperationEntity") eqn:E4; cbn [Z.eqb fst snd];
      [|intros _; exists 1%Z; split; [discriminate|reflexivity]].
    rewrite write_same. cbn [Z.eqb fst snd]. intros H. now elim H.
  - intros E.
    unfold export_unique_rs_ids_from_mongo, for_each, bind, run_command_with_output,
      Cmd.mongoexport in E.
    destruct (db "clusteredVariantEntity") as [d1|] eqn:E1; [|discriminate E].
    destruct (db "clusteredVariantOperationEntity") as [d2|] eqn:E2; [|discriminate E].
    destruct (db "dbsnpClusteredVariantEntity") as [d3|] eqn:E3; [|discriminate E].
    destruct (db "dbsnpClusteredVariantOperationEntity") as [d4|] eqn:E4; [|discriminate E].
    exists d4. split; [reflexivity|].
    rewrite (export_unique_rs_ids_from_mongo_eq db f fs d1 d2 d3 d4) by assumption.
    cbn [snd]. apply write_same.
  - intros p Hp. now apply export_unique_rs_ids_from_mongo_frame.
Qed.

(** ** The release universe in full *)

Lemma generate_unique_rs_ids_file_content (fs : filesystem) :
  snd (generate_unique_rs_ids_file fs) unique_ids_txt
  = Some (Shell.sort_u (extracted_tokens fs)).
Proof.
  rewrite generate_unique_rs_ids_file_unique. unfold extracted_tokens, Shell.sort_u.
  cbn [app]. now rewrite !app_assoc.
Qed.

Lemma generate_unique_rs_ids_file_frame (fs : filesystem) (p : path) :
  p <> all_ids_txt -> p <> unique_ids_txt ->
  snd (generate_unique_rs_ids_file fs) p = fs p.
Proof.
  intros Ha Hu.
  unfold generate_unique_rs_ids_file, bind, run_command_with_output, Cmd.rm_f,
    Cmd.append_to, ret.
  cbn [Z.eqb fst snd]. now rewrite !write_other by assumption.
Qed.

(** X2: [generate_unique_rs_ids_file] leaves in the all-IDs file exactly
    the extracted tokens, in the order of the six extraction commands and
    whatever the two files held before, and in the unique-IDs file the same
    tokens in strictly increasing byte order, hence without duplicates; it
    touches no other file. *)
Theorem release_universe_is_sorted_set_of_tokens (fs : filesystem) :
  let fs' := snd (generate_unique_rs_ids_file fs) in
  fs' all_ids_txt = Some (extracted_tokens fs) /\
  fs' unique_ids_txt = Some (Shell.sort_u (extracted_tokens fs)) /\
  StronglySorted line_lt (Shell.sort_u (extracted_tokens fs)) /\
  forall p, p <> all_ids_txt -> p <> unique_ids_txt -> fs' p = fs p.
Proof.
  cbv zeta. split; [|split; [|split]].
  - unfold extracted_tokens. rewrite !app_assoc. reflexivity.
  - apply generate_unique_rs_ids_file_content.
  - apply sort_uniq_sorted.
  - intros p. apply generate_unique_rs_ids_file_frame.
Qed.

(** ** Files a run leaves alone *)

Lemma validate_rs_release_files_snd (env : environment) (fs : filesystem) :
  snd (validate_rs_release_files env fs) = snd (snd (validate_try_block env fs)).
Proof.
  unfold validate_rs_release_files.
  destruct (validate_try_block env fs) as [[pid|] [[u|e] fs']];
    try destruct (close_mongo_port_to_tempmongo env pid); reflexivity.
Qed.

(** X18: a validation run never changes a release file, however it
    ends. *)
Theorem validation_leaves_release_files (env : environment) (fs : filesystem) (p : path) :
  is_release_file p = true ->
  snd (validate_rs_release_files env fs) p = fs p.
Proof.
  intros Hp. rewrite validate_rs_release_files_snd. unfold validate_try_block.
  destruct (open_mongo_port_to_tempmongo env) as [[pid port]|]; [|reflexivity].
  cbn [fst snd]. destruct (determined_validation (release_db env)) as [W [Q Hdet]].
  destruct (Hdet fs) as [r [d [Hrel [_ H]]]].
  destruct (H fs (fun q _ => eq_refl)) as [_ Hs].
  rewrite Hs. unfold override. now rewrite (Hrel p Hp).
Qed.

Lemma validation_leaves_release_files_witness :
  snd (validate_rs_release_files (reachable store_4_merged_5_declustered) release_1_2_3)
      current_ids_vcf_gz
  = release_1_2_3 current_ids_vcf_gz.
Proof.
  apply (validation_leaves_release_files (reachable store_4_merged_5_declustered)
           release_1_2_3 current_ids_vcf_gz).
  reflexivity.
Defined.

(** X17: the outcome of a validation depends on the release files and the
    environment only.  On two disks with the same release files the [try]
    block ends the same way, the exit status is the same, and every file is
    either left with the same content by both runs or left untouched by
    both: intermediate files of an earlier run have no influence. *)
Theorem validation_ignores_stale_files (env : environment) (fs fs' : filesystem) :
  eqon is_release_file fs fs' ->
  fst (snd (validate_try_block env fs)) = fst (snd (validate_try_block env fs')) /\
  fst (validate_rs_release_files env fs) = fst (validate_rs_release_files env fs') /\
  forall p,
    snd (validate_rs_release_files env fs) p = snd (validate_rs_release_files env fs') p \/
    (snd (validate_rs_release_files env fs) p = fs p /\
     snd (validate_rs_release_files env fs') p = fs' p).
Proof.
  intros Heq.
  assert (Hrun : fst (validate_try_block env fs) = fst (validate_try_block env fs') /\
                 fst (snd (validate_try_block env fs))
                 = fst (snd (validate_try_block env fs')) /\
                 forall p,
                   snd (snd (validate_try_block env fs)) p
                   = snd (snd (validate_try_block env fs')) p \/
                   (snd (snd (validate_try_block env fs)) p = fs p /\
                    snd (snd (validate_try_block env fs')) p = fs' p)).
  { unfold validate_try_block.
    destruct (open_mongo_port_to_tempmongo env) as [[pid port]|]; cbn [fst snd]; [|auto].
    destruct (determined_validation (release_db env)) as [W [Q Hdet]].
    destruct (Hdet fs) as [r [d [_ [_ H]]]].
    destruct (H fs (fun q _ => eq_refl)) as [Hr Hs].
    destruct (H fs' Heq) as [Hr' Hs'].
    split; [reflexivity|]. split; [congruence|].
    intros p. rewrite Hs, Hs'. unfold override. destruct (d p); auto. }
  destruct Hrun as [H0 [H1 H2]]. split; [exact H1|]. split.
  - unfold validate_rs_release_files.
    destruct (validate_try_block env fs) as [[pid1|] [[u1|e1] fs1]];
      destruct (validate_try_block env fs') as [[pid2|] [[u2|e2] fs2]];
      cbn [fst snd] in *; try discriminate; try reflexivity;
      injection H0 as <-; destruct (close_mongo_port_to_tempmongo env pid1); reflexivity.
  - intros p. rewrite !validate_rs_release_files_snd. apply H2.
Qed.

Lemma validation_ignores_stale_files_witness :
  let fs' := write missing_ids_txt (Some ["999"])
               (write (category_txt "rs_with_merged_ss_parents") (Some ["7"])
                  release_1_2_3) in
  fst (snd (validate_try_block (reachable store_4_merged_5_declustered) release_1_2_3))
  = fst (snd (validate_try_block (reachable store_4_merged_5_declustered) fs')) /\
  fst (validate_rs_release_files (reachable store_4_merged_5_declustered) release_1_2_3)
  = fst (validate_rs_release_files (reachable store_4_merged_5_declustered) fs') /\
  forall p,
    snd (validate_rs_release_files (reachable store_4_merged_5_declustered) release_1_2_3) p
    = snd (validate_rs_release_files (reachable store_4_merged_5_declustered) fs') p \/
    (snd (validate_rs_release_files (reachable store_4_merged_5_declustered) release_1_2_3) p
     = release_1_2_3 p /\
     snd (validate_rs_release_files (reachable store_4_merged_5_declustered) fs') p = fs' p).
Proof.
  apply (validation_ignores_stale_files (reachable store_4_merged_5_declustered)
           release_1_2_3
           (write missing_ids_txt (Some ["999"])
              (write (category_txt "rs_with_merged_ss_parents") (Some ["7"])
                 release_1_2_3))).
  intros p Hp. destruct p; try discriminate Hp; reflexivity.
Defined.

(** ** The residual-subtraction step: clean-up and failure *)

(** X9: when both files exist, the residual subtraction returns the path
    of the residual file, leaves no temporary file behind and changes no
    file other than the residual file and the attributed file. *)
Theorem residual_subtraction_cleans_up (r a : path) (old att : file) (fs : filesystem) :
  r <> a -> r <> temp_file -> a <> temp_file ->
  fs r = Some old -> fs a = Some att ->
  fst (get_residual_missing_rs_ids_file r a fs) = Ok r /\
  snd (get_residual_missing_rs_ids_file r a fs) temp_file = None /\
  forall p, p <> r -> p <> a -> p <> temp_file ->
            snd (get_residual_missing_rs_ids_file r a fs) p = fs p.
Proof.
  intros Hra Hrt Hat Hr Ha.
  destruct (get_residual_missing_rs_ids_file_spec r a old att fs Hra Hrt Hat Hr Ha)
    as [H1 [_ [_ [H4 H5]]]].
  auto.
Qed.

Lemma residual_subtraction_cleans_up_witness :
  let fs := disk [(rs_still_missing_txt, ["5"; "4"]);
                  (category_txt "rs_with_merged_ss_parents", ["4"]);
                  (missing_ids_txt, ["4"; "5"])] in
  fst (get_residual_missing_rs_ids_file rs_still_missing_txt
         (category_txt "rs_with_merged_ss_parents") fs) = Ok rs_still_missing_txt /\
  snd (get_residual_missing_rs_ids_file rs_still_missing_txt
         (category_txt "rs_with_merged_ss_parents") fs) temp_file = None /\
  forall p, p <> rs_still_missing_txt -> p <> category_txt "rs_with_merged_ss_parents" ->
            p <> temp_file ->
            snd (get_residual_missing_rs_ids_file rs_still_missing_txt
                   (category_txt "rs_with_merged_ss_parents") fs) p = fs p.
Proof.
  apply (residual_subtraction_cleans_up rs_still_missing_txt
           (category_txt "rs_with_merged_ss_parents") ["5"; "4"] ["4"]);
    try discriminate; reflexivity.
Defined.

(** X10: when the residual file or the attributed file does not exist,
    the residual subtraction fails with [CalledProcessError] before a
    temporary file is made; the residual file keeps its lines (it has at
    most been sorted) and no other file is changed. *)
Theorem residual_subtraction_needs_both_files (r a : path) (fs : filesystem) :
  r <> a -> r <> temp_file ->
  fs r = None \/ fs a = None ->
  let run := get_residual_missing_rs_ids_file r a fs in
  (exists returncode, returncode <> 0%Z /\ fst run = Raise (CalledProcessError returncode)) /\
  snd run temp_file = fs temp_file /\
  (forall x, In x (contents (snd run) r) <-> In x (contents fs r)) /\
  forall p, p <> r -> snd run p = fs p.
Proof.
  intros Hra Hrt H. cbv zeta.
  unfold get_residual_missing_rs_ids_file, bind, run_command_with_output, Cmd.sort_o.
  destruct (fs r) as [old|] eqn:Er.
  - destruct H as [H|Ha]; [discriminate H|]. cbn [Z.eqb fst snd].
    rewrite write_other by congruence. rewrite Ha. cbn [Z.eqb fst snd].
    split; [exists 2%Z; split; [discriminate|reflexivity]|].
    split; [apply write_other; congruence|]. split.
    + intros x. unfold contents. rewrite write_same, Er. apply sort_In.
    + intros p Hp. now apply write_other.
  - cbn [Z.eqb fst snd]. split; [exists 2%Z; split; [discriminate|reflexivity]|].
    split; [reflexivity|]. split; [tauto|reflexivity].
Qed.

Lemma residual_subtraction_needs_both_files_witness :
  let fs := disk [(rs_still_missing_txt, ["5"; "4"])] in
  let run := get_residual_missing_rs_ids_file rs_still_missing_txt
               (category_txt "rs_with_merged_ss_parents") fs in
  (exists returncode, returncode <> 0%Z /\ fst run = Raise (CalledProcessError returncode)) /\
  snd run temp_file = fs temp_file /\
  (forall x, In x (contents (snd run) rs_still_missing_txt)
             <-> In x (contents fs rs_still_missing_txt)) /\
  forall p, p <> rs_still_missing_txt -> snd run p = fs p.
Proof.
  apply (residual_subtraction_needs_both_files rs_still_missing_txt
           (category_txt "rs_with_merged_ss_parents")
           (disk [(rs_still_missing_txt, ["5"; "4"])])).
  - discriminate.
  - discriminate.
  - right. reflexivity.
Defined.

(** ** Files the attribution leaves alone *)

Lemma untouched_framed (p : path) (v : option file) :
  frame_invariant (fun q => q = p) (fun fs => fs p = v).
Proof. intros fs q w Hq H. rewrite write_other; auto. Qed.

Ltac frame_solve framed side :=
  lazymatch goal with
  | |- keeps _ _ (bind _ _) _ _ =>
      eapply keeps_bind;
      [ frame_solve framed side
      | let a := fresh "a" in
        let Ha := fresh "Ha" in
        intros a Ha; cbv beta in Ha; try subst a; frame_solve framed side ]
  | |- keeps _ _ (ret _) _ _ => apply keeps_ret
  | |- keeps _ _ (raise _) _ _ => apply keeps_raise
  | |- keeps _ _ (get_ids_from_mongo_for_category _ _ _ _ _ _) _ _ =>
      eapply keeps_category; [exact framed | side]
  | |- keeps _ _ (run_command_with_output (Cmd.cp _ _)) _ _ =>
      eapply keeps_cp; [exact framed | side]
  | |- keeps _ _ (run_command_with_output (Cmd.redirect_to _ _)) _ _ =>
      eapply keeps_redirect_to; [exact framed | side]
  | |- keeps _ _ (run_command_with_output (Cmd.sort_o _)) _ _ =>
      eapply keeps_sort_o; [exact framed | side]
  | |- keeps _ _ (run_command_with_output (Cmd.comm_23_to _ _ _)) _ _ =>
      eapply keeps_comm_23_to; [exact framed | side]
  | |- keeps _ _ mkstemp _ _ => eapply keeps_mkstemp; [exact framed | side]
  | |- keeps _ _ (shutil_move _ _) _ _ =>
      eapply keeps_shutil_move; [exact framed | side | side]
  | |- keeps _ _ (run_command_with_output (Cmd.wc_l_from _)) _ _ =>
      apply keeps_wc_l_from
  | |- keeps _ _ (match ?o with Some _ => _ | None => _ end) _ _ =>
      destruct o; frame_solve framed side
  | |- keeps _ _ (if ?b then _ else _) _ _ =>
      destruct b; frame_solve framed side
  end.

(** X12: [get_missing_ids_attributions] writes only the residual file,
    the category files and the temporary file of the subtraction: every
    other file, the missing-IDs file included, is left as it was, however
    the attribution ends. *)
Theorem attribution_writes_only_its_own_files (missing_ids_file : path)
  (db : Mongo.database) (fs : filesystem) (p : path) :
  p <> rs_still_missing_txt -> p <> temp_file -> (forall c, p <> category_txt c) ->
  snd (get_missing_ids_attributions missing_ids_file db fs) p = fs p.
Proof.
  intros Hr Ht Hc.
  assert (Hk : exists Rv Rs,
             keeps (fun fs' => fs' p = fs p) (fun _ => True)
                   (get_missing_ids_attributions missing_ids_file db) Rv Rs).
  { eexists. eexists.
    unfold get_missing_ids_attributions, get_rs_with_merged_ss, get_rs_with_declustered_ss,
      get_rs_with_tandem_repeat_type, get_rs_with_non_nucleotide_letters,
      get_residual_missing_rs_ids_file, file_diff_NOT_IN.
    frame_solve (untouched_framed p (fs p))
                ltac:(let H := fresh "H" in
                      intros H; cbv beta in H; symmetry in H;
                      first [exact (Hr H) | exact (Ht H) | exact (Hc _ H)]). }
  destruct Hk as [Rv [Rs Hk]]. exact (proj1 (Hk fs I eq_refl)).
Qed.

Lemma attribution_writes_only_its_own_files_witness :
  snd (get_missing_ids_attributions missing_ids_txt store_4_merged_5_declustered
         (disk [(missing_ids_txt, ["4"; "5"]); (unique_ids_txt, ["1"; "2"; "3"])]))
      missing_ids_txt
  = disk [(missing_ids_txt, ["4"; "5"]); (unique_ids_txt, ["1"; "2"; "3"])] missing_ids_txt.
Proof.
  apply (attribution_writes_only_its_own_files missing_ids_txt store_4_merged_5_declustered
           (disk [(missing_ids_txt, ["4"; "5"]); (unique_ids_txt, ["1"; "2"; "3"])])
           missing_ids_txt).
  - discriminate.
  - discriminate.
  - intros c. discriminate.
Defined.

(** ** Identifiers printed and read back *)

Lemma str_nonnegative (z : Z) :
  (0 <= z)%Z ->
  exists d, d <> Decimal.Nil /\ Py.str z = NilEmpty.string_of_uint d /\
            Z.of_N (N.of_uint d) = z.
Proof.
  intros Hz. unfold Py.str. destruct z as [|p|p].
  - exists (Decimal.D0 Decimal.Nil). repeat split. discriminate.
  - exists (Pos.to_uint p). split; [apply DecimalPos.Unsigned.to_uint_nonnil|]. split.
    + simpl. pose proof (DecimalPos.Unsigned.to_uint_nonnil p).
      destruct (Pos.to_uint p); auto. congruence.
    + unfold N.of_uint. now rewrite DecimalPos.Unsigned.of_to.
  - lia.
Qed.

Lemma str_negative (p : positive) :
  exists d, d <> Decimal.Nil /\
            Py.str (Z.neg p) = String "-" (NilEmpty.string_of_uint d) /\
            Z.of_N (N.of_uint d) = Z.pos p.
Proof.
  exists (Pos.to_uint p). split; [apply DecimalPos.Unsigned.to_uint_nonnil|]. split.
  - unfold Py.str. simpl. pose proof (DecimalPos.Unsigned.to_uint_nonnil p).
    destruct (Pos.to_uint p); auto. congruence.
  - unfold N.of_uint. now rewrite DecimalPos.Unsigned.of_to.
Qed.

Lemma string_of_uint_matches_digits (d : Decimal.uint) :
  d <> Decimal.Nil -> Shell.matches_digits (NilEmpty.string_of_uint d) = true.
Proof.
  intros Hd. pose proof (string_of_uint_digits d) as Hdig.
  destruct d; try exact Hdig. congruence.
Qed.

Lemma int_of_digits_digits (s : string) :
  Shell.matches_digits s = true ->
  Py.int_of_digits s
  = option_map (fun u => Z.of_N (N.of_uint u)) (NilEmpty.uint_of_string s).
Proof.
  intros H. destruct s as [|c r]; [discriminate|].
  assert (Hd : Shell.all_digits (String c r) = true) by exact H.
  simpl in Hd. apply andb_true_iff in Hd. destruct Hd as [Hc Hr].
  destruct (digit_not_sign c Hc) as [_ [_ Hu]].
  unfold Py.int_of_digits. simpl Py.drop_underscores. rewrite Hu.
  now rewrite drop_underscores_digits by assumption.
Qed.

Lemma parse_id_str (z : Z) : parse_id (Py.str z) = inr z.
Proof.
  destruct (Z_le_gt_dec 0 z) as [Hz|Hz].
  - destruct (str_nonnegative z Hz) as [d [Hd [Es Ev]]].
    pose proof (string_of_uint_matches_digits d Hd) as Hm.
    unfold parse_id. rewrite Es.
    assert (Hall : Shell.all_digits (NilEmpty.string_of_uint d) = true)
      by apply string_of_uint_digits.
    rewrite (strip_digits _ Hall), (int_of_digits_value _ Hm), NilEmpty.usu.
    simpl. now rewrite Ev.
  - destruct z as [|p|p]; try lia.
    destruct (str_negative p) as [d [Hd [Es Ev]]].
    pose proof (string_of_uint_matches_digits d Hd) as Hm.
    assert (Hall : Shell.all_digits (NilEmpty.string_of_uint d) = true)
      by apply string_of_uint_digits.
    unfold parse_id. rewrite Es.
    assert (Hstrip : Py.strip (String "-" (NilEmpty.string_of_uint d))
                     = String "-" (NilEmpty.string_of_uint d)).
    { unfold Py.strip. cbn [Py.lstrip]. change (Py.is_space "-") with false. cbv iota.
      cbn [Py.rstrip]. rewrite (rstrip_digits _ Hall).
      destruct (NilEmpty.string_of_uint d); [discriminate Hm|reflexivity]. }
    rewrite Hstrip. unfold Py.int. rewrite Hstrip.
    rewrite (int_of_digits_digits _ Hm), NilEmpty.usu. simpl. now rewrite Ev.
Qed.

Lemma matches_digits_str (z : Z) :
  Shell.matches_digits (Py.str z) = true <-> (0 <= z)%Z.
Proof.
  destruct (Z_le_gt_dec 0 z) as [Hz|Hz].
  - destruct (str_nonnegative z Hz) as [d [Hd [Es Ev]]].
    pose proof (string_of_uint_matches_digits d Hd) as Hm. rewrite Es. tauto.
  - destruct z as [|p|p]; try lia.
    destruct (str_negative p) as [d [Hd [Es Ev]]].
    rewrite Es. split; [discriminate|lia].
Qed.

(** What the store returns fits in 8 bytes. *)
Lemma int64_is_int64 (z : Z) : Mongo.is_int64 (Mongo.int64 z) = true.
Proof.
  unfold Mongo.is_int64, Mongo.int64.
  pose proof (Z.mod_pos_bound (z + 9223372036854775808) 18446744073709551616
                ltac:(lia)) as H.
  apply andb_true_iff. split; apply Z.leb_le; lia.
Qed.

(** A stored integer within 8 bytes is returned as it is. *)
Lemma int64_id (z : Z) : Mongo.is_int64 z = true -> Mongo.int64 z = z.
Proof.
  unfold Mongo.is_int64, Mongo.int64. rewrite andb_true_iff, !Z.leb_le. intros [H1 H2].
  rewrite Z.mod_small by lia. lia.
Qed.

(** An exported accession is a candidate of at most 8 bytes. *)
Lemma exported_line_int64 (docs : list Mongo.Document) (x : line) :
  In x (Mongo.mongoexport_accession docs) -> Shell.matches_digits x = true ->
  int64_line x = true.
Proof.
  intros Hx Hd. unfold Mongo.mongoexport_accession in Hx. apply in_map_iff in Hx.
  destruct Hx as [d [<- _]]. destruct (Mongo.doc_accession d) as [z|]; [|discriminate Hd].
  unfold int64_line. rewrite parse_id_str. apply int64_is_int64.
Qed.

Lemma residual_within_Forall (P : line -> Prop) (missing : file) (fs : filesystem) :
  Forall P missing ->
  residual_within missing fs ->
  exists residual, fs rs_still_missing_txt = Some residual /\ Forall P residual.
Proof.
  intros HP [residual [E [Hin _]]]. exists residual. split; auto.
  rewrite Forall_forall in *. auto.
Qed.

(** ** The attribution on a reachable store *)

Lemma residual_within_digits (missing : file) (fs : filesystem) :
  Forall (fun l => Shell.matches_digits l = true) missing ->
  residual_within missing fs ->
  exists residual, fs rs_still_missing_txt = Some residual /\
                   Forall (fun l => Shell.matches_digits l = true) residual.
Proof.
  intros Hdig [residual [E [Hin _]]]. exists residual. split; auto.
  rewrite Forall_forall in *. auto.
Qed.

Lemma category_evaluation_step (db : Mongo.database) (missing : file) (q : Mongo.pipeline)
  (rs_id_attribute_path : string) (collections_to_query : list string)
  (attribution_category : string) (fs : filesystem) :
  In (q, rs_id_attribute_path, collections_to_query, attribution_category) category_calls ->
  Forall (fun l => Shell.matches_digits l = true) missing ->
  Forall (fun l => int64_line l = true) missing ->
  (forall c, In c collections_to_query -> db c <> None) ->
  residual_within missing fs ->
  exists fs',
    get_ids_from_mongo_for_category rs_still_missing_txt db q rs_id_attribute_path
      collections_to_query attribution_category fs
    = (Ok (category_txt attribution_category), fs') /\
    residual_within missing fs' /\
    fs' (category_txt attribution_category) <> None /\
    forall p, p <> category_txt attribution_category -> fs' p = fs p.
Proof.
  intros Hcall Hdig Hrange Hdb Hres.
  destruct (category_calls_config _ _ _ _ Hcall) as [Hvalid [Hproj [Henc Hset]]].
  destruct (residual_within_digits missing fs Hdig Hres) as [residual [Er Hrdig]].
  destruct (residual_within_Forall _ missing fs Hrange Hres) as [residual' [Er' Hrrange]].
  rewrite Er in Er'. injection Er' as <-.
  destruct (get_ids_from_mongo_for_category_ok rs_id_attribute_path q db fs
              rs_still_missing_txt residual collections_to_query attribution_category
              Hvalid Hproj Henc Hset Er ltac:(discriminate) Hrdig Hrrange Hdb)
    as [all_ids [q_all [written [_ [_ [E _]]]]]].
  eexists. split; [exact E|]. split; [|split].
  - do 2 (apply residual_within_framed; [discriminate|]). exact Hres.
  - rewrite write_same. discriminate.
  - intros p Hp. now rewrite !write_other by assumption.
Qed.

Lemma subtraction_step (missing : file) (attribution_category : string) (fs : filesystem) :
  residual_within missing fs ->
  fs (category_txt attribution_category) <> None ->
  exists fs',
    get_residual_missing_rs_ids_file rs_still_missing_txt
      (category_txt attribution_category) fs
    = (Ok rs_still_missing_txt, fs') /\
    residual_within missing fs' /\
    forall p, p <> rs_still_missing_txt -> p <> category_txt attribution_category ->
              p <> temp_file -> fs' p = fs p.
Proof.
  intros Hres Hatt.
  destruct (keeps_residual_subtraction missing (category_txt attribution_category)
              ltac:(discriminate) ltac:(discriminate) fs Hatt Hres) as [Hres' _].
  destruct Hres as [residual [Er _]].
  destruct (fs (category_txt attribution_category)) as [att|] eqn:Ea; [|now elim Hatt].
  destruct (get_residual_missing_rs_ids_file_spec rs_still_missing_txt
              (category_txt attribution_category) residual att fs)
    as [H1 [_ [_ [_ H5]]]]; auto; try discriminate.
  exists (snd (get_residual_missing_rs_ids_file rs_still_missing_txt
                 (category_txt attribution_category) fs)).
  split; [|split; assumption].
  rewrite <- H1. apply surjective_pairing.
Qed.

(** The wrapper of the last category, on a candidate file of digit lines
    and reachable collections. *)
Lemma get_rs_with_non_nucleotide_letters_eq (db : Mongo.database) (fs : filesystem)
  (missing_ids_file : path) (lines : file) :
  fs missing_ids_file = Some lines ->
  (forall c, missing_ids_file <> category_txt c) ->
  Forall (fun l => Shell.matches_digits l = true) lines ->
  Forall (fun l => int64_line l = true) lines ->
  (forall c, In c [dbsnp_sve_collection_name; sve_collection_name;
                   dbsnp_svoe_collection_name; svoe_collection_name] -> db c <> None) ->
  exists sve svoe,
    get_rs_with_non_nucleotide_letters missing_ids_file db fs
    = (Ok (category_txt "rs_with_non_nucleotide_letters"),
       write (category_txt "rs_with_non_nucleotide_letters")
         (Some (Shell.uniq (Shell.sort (sve ++ svoe))))
         (write (category_txt "rs_with_non_nucleotide_letters") (Some [])
            (write (category_txt "rs_with_non_nucleotide_letters_SVOE") (Some svoe)
               (write (category_txt "rs_with_non_nucleotide_letters_SVOE") (Some [])
                  (write (category_txt "rs_with_non_nucleotide_letters_SVE") (Some sve)
                     (write (category_txt "rs_with_non_nucleotide_letters_SVE") (Some [])
                        fs)))))).
Proof.
  intros Hfs Hne Hdig Hrange Hdb. unfold get_rs_with_non_nucleotide_letters.
  assert (Hsve : forall c, In c [dbsnp_sve_collection_name; sve_collection_name] ->
                           db c <> None).
  { intros c Hc. apply Hdb. simpl in *. tauto. }
  assert (Hsvoe : forall c, In c [dbsnp_svoe_collection_name; svoe_collection_name] ->
                            db c <> None).
  { intros c Hc. apply Hdb. simpl in *. tauto. }
  destruct (get_ids_from_mongo_for_category_ok "rs"
              get_rs_with_non_nucleotide_letters_query_SVE db fs missing_ids_file lines
              [dbsnp_sve_collection_name; sve_collection_name]
              "rs_with_non_nucleotide_letters_SVE"
              ltac:(simpl; tauto) eq_refl eq_refl ltac:(eexists; reflexivity) Hfs (Hne _)
              Hdig Hrange Hsve)
    as [ids1 [q1 [sve [_ [_ [E1 _]]]]]].
  rewrite (bind_ok _ _ _ _ _ E1).
  match goal with
  | |- context [bind (get_ids_from_mongo_for_category _ _ _ _ _ _) _ ?f] =>
      assert (Hfs' : f missing_ids_file = Some lines)
        by (now rewrite !write_other by apply Hne);
      destruct (get_ids_from_mongo_for_category_ok "inactiveObjects.rs"
                  get_rs_with_non_nucleotide_letters_query_SVOE db f missing_ids_file lines
                  [dbsnp_svoe_collection_name; svoe_collection_name]
                  "rs_with_non_nucleotide_letters_SVOE"
                  ltac:(simpl; tauto) eq_refl eq_refl ltac:(eexists; reflexivity) Hfs'
                  (Hne _) Hdig Hrange Hsvoe)
      as [ids2 [q2 [svoe [_ [_ [E2 _]]]]]]
  end.
  rewrite (bind_ok _ _ _ _ _ E2).
  exists sve, svoe.
  change (replace_SVE (category_txt "rs_with_non_nucleotide_letters_SVE"))
    with (category_txt "rs_with_non_nucleotide_letters").
  unfold bind, run_command_with_output, Cmd.redirect_to, ret. cbn [Z.eqb fst snd].
  repeat (rewrite contents_write_other by discriminate).
  unfold contents. rewrite !write_same. reflexivity.
Qed.

(** On a reachable store the attribution runs to its last step, where the
    lines of the initial missing-IDs file are counted. *)
Lemma attribution_outcome (db : Mongo.database) (fs : filesystem) (missing : file) :
  fs missing_ids_txt = Some missing ->
  Forall (fun l => Shell.matches_digits l = true) missing ->
  Forall (fun l => int64_line l = true) missing ->
  (forall c, In c [dbsnp_svoe_collection_name; svoe_collection_name;
                   dbsnp_cve_collection_name; cve_collection_name;
                   dbsnp_sve_collection_name; sve_collection_name] -> db c <> None) ->
  fst (get_missing_ids_attributions missing_ids_txt db fs)
  = match missing with
    | [] => Ok tt
    | _ => Raise (Exception_still_missing (Z.of_nat (List.length missing))
                                          rs_still_missing_txt)
    end.
Proof.
  intros Hfs Hdig Hrange Hdb. unfold get_missing_ids_attributions.
  rewrite (bind_ok _ _ _ _ _ (cp_missing_ids fs missing Hfs)).
  assert (M0 : write rs_still_missing_txt (Some missing) fs missing_ids_txt = Some missing).
  { now rewrite write_other by discriminate. }
  assert (R0 : residual_within missing (write rs_still_missing_txt (Some missing) fs)).
  { exists missing. split; [apply write_same | auto]. }
  revert M0 R0. generalize (write rs_still_missing_txt (Some missing) fs). clear fs Hfs.
  intros fs0 M0 R0.
  unfold get_rs_with_merged_ss, get_rs_with_declustered_ss, get_rs_with_tandem_repeat_type.
  (* merged *)
  destruct (category_evaluation_step db missing get_merged_ss_query "inactiveObjects.rs"
              [dbsnp_svoe_collection_name; svoe_collection_name]
              "rs_with_merged_ss_parents" fs0) as [fs1 [E1 [R1 [C1 F1]]]]; auto.
  { simpl; auto 10. }
  { intros c Hc. apply Hdb. simpl in *. tauto. }
  rewrite (bind_ok _ _ _ _ _ E1).
  destruct (subtraction_step missing _ fs1 R1 C1) as [fs2 [E2 [R2 F2]]].
  rewrite (bind_ok _ _ _ _ _ E2).
  (* declustered *)
  destruct (category_evaluation_step db missing get_declustered_ss_query "inactiveObjects.rs"
              [dbsnp_svoe_collection_name; svoe_collection_name]
              "rs_with_declustered_ss_parents" fs2) as [fs3 [E3 [R3 [C3 F3]]]]; auto.
  { simpl; auto 10. }
  { intros c Hc. apply Hdb. simpl in *. tauto. }
  rewrite (bind_ok _ _ _ _ _ E3).
  destruct (subtraction_step missing _ fs3 R3 C3) as [fs4 [E4 [R4 F4]]].
  rewrite (bind_ok _ _ _ _ _ E4).
  (* tandem repeats *)
  destruct (category_evaluation_step db missing get_tandem_repeat_rs_query "accession"
              [dbsnp_cve_collection_name; cve_collection_name]
              "rs_with_tandem_repeat_type" fs4) as [fs5 [E5 [R5 [C5 F5]]]]; auto.
  { simpl; auto 10. }
  { intros c Hc. apply Hdb. simpl in *. tauto. }
  rewrite (bind_ok _ _ _ _ _ E5).
  destruct (subtraction_step missing _ fs5 R5 C5) as [fs6 [E6 [R6 F6]]].
  rewrite (bind_ok _ _ _ _ _ E6).
  (* non-nucleotide letters *)
  destruct (residual_within_digits missing fs6 Hdig R6) as [residual [Er Hrdig]].
  destruct (residual_within_Forall _ missing fs6 Hrange R6) as [residual' [Er' Hrrange]].
  rewrite Er in Er'. injection Er' as <-.
  destruct (get_rs_with_non_nucleotide_letters_eq db fs6 rs_still_missing_txt residual)
    as [sve [svoe E7]]; auto.
  { intros c. discriminate. }
  { intros c Hc. apply Hdb. simpl in *. tauto. }
  rewrite (bind_ok _ _ _ _ _ E7).
  (* the count *)
  assert (M : fs6 missing_ids_txt = Some missing).
  { rewrite F6, F5, F4, F3, F2, F1 by discriminate. exact M0. }
  unfold bind, run_command_with_output, Cmd.wc_l_from.
  rewrite !write_other by discriminate. rewrite M. cbn [Z.eqb fst snd].
  rewrite int_of_wc_l_output.
  destruct missing; reflexivity.
Qed.

(** ** A whole run on a reachable store *)

Lemma extracted_tokens_ext (fs fs' : filesystem) :
  eqon is_release_file fs fs' -> extracted_tokens fs = extracted_tokens fs'.
Proof.
  intros H. unfold extracted_tokens.
  now rewrite !(contents_eqon _ fs fs' _ H) by reflexivity.
Qed.

Lemma validate_try_block_eq (env : environment) (fs : filesystem) (pid port : Z)
  (d1 d2 d3 d4 : list Mongo.Document) :
  open_mongo_port_to_tempmongo env = Some (pid, port) ->
  release_db env "clusteredVariantEntity" = Some d1 ->
  release_db env "clusteredVariantOperationEntity" = Some d2 ->
  release_db env "dbsnpClusteredVariantEntity" = Some d3 ->
  release_db env "dbsnpClusteredVariantOperationEntity" = Some d4 ->
  exists fs2,
    validate_try_block env fs
    = (Some pid, get_missing_ids_attributions missing_ids_txt (release_db env) fs2) /\
    fs2 missing_ids_txt
    = Some (Shell.grep_E_digits
              (Shell.comm_31 (Shell.sort_u (extracted_tokens fs))
                             (Shell.sort_u (Mongo.mongoexport_accession d4)))).
Proof.
  intros Hopen E1 E2 E3 E4. unfold validate_try_block. rewrite Hopen.
  rewrite (bind_ok _ _ _ _ _
             (export_unique_rs_ids_from_mongo_eq _ mongo_unique_rs_ids_txt fs _ _ _ _
                E1 E2 E3 E4)).
  match goal with
  | |- context [bind generate_unique_rs_ids_file _ ?f] => set (fs0 := f)
  end.
  assert (Eg : generate_unique_rs_ids_file fs0
               = (Ok unique_ids_txt, snd (generate_unique_rs_ids_file fs0))).
  { now rewrite <- (generate_unique_rs_ids_file_returns fs0), <- surjective_pairing. }
  rewrite (bind_ok _ _ _ _ _ Eg).
  assert (Et : extracted_tokens fs0 = extracted_tokens fs).
  { apply extracted_tokens_ext. intros p Hp. unfold fs0.
    rewrite !write_other; [reflexivity| | | | |]; intros ->; discriminate Hp. }
  rewrite (bind_ok _ _ _ _ _
             (diff_release_ids_against_mongo_rs_ids_some unique_ids_txt
                mongo_unique_rs_ids_txt _
                (Shell.sort_u (extracted_tokens fs))
                (Shell.sort_u (Mongo.mongoexport_accession d4))
                ltac:(discriminate) ltac:(discriminate)
                ltac:(rewrite generate_unique_rs_ids_file_content; now rewrite Et)
                ltac:(rewrite generate_unique_rs_ids_file_frame by discriminate;
                      apply write_same))).
  eexists. split; [reflexivity|]. apply write_same.
Qed.

(** X15: when the port opens and the four clustered-variant collections
    can be exported, the missing-IDs file that a run leaves is strictly
    sorted and holds exactly the exported accessions of
    dbsnpClusteredVariantOperationEntity that are digit strings and are not
    among the tokens extracted from the release files. *)
Theorem validation_missing_ids_file (env : environment) (fs : filesystem) (pid port : Z)
  (docs : list Mongo.Document) :
  open_mongo_port_to_tempmongo env = Some (pid, port) ->
  (forall c, In c ["clusteredVariantEntity"; "clusteredVariantOperationEntity";
                   "dbsnpClusteredVariantEntity"] -> release_db env c <> None) ->
  release_db env "dbsnpClusteredVariantOperationEntity" = Some docs ->
  exists missing,
    snd (validate_rs_release_files env fs) missing_ids_txt = Some missing /\
    StronglySorted line_lt missing /\
    forall x, In x missing <->
              In x (Mongo.mongoexport_accession docs) /\
              Shell.matches_digits x = true /\
              ~ In x (extracted_tokens fs).
Proof.
  intros Hopen Hdb E4.
  destruct (release_db env "clusteredVariantEntity") as [d1|] eqn:E1;
    [|elim (Hdb "clusteredVariantEntity"); simpl; auto].
  destruct (release_db env "clusteredVariantOperationEntity") as [d2|] eqn:E2;
    [|elim (Hdb "clusteredVariantOperationEntity"); simpl; auto].
  destruct (release_db env "dbsnpClusteredVariantEntity") as [d3|] eqn:E3;
    [|elim (Hdb "dbsnpClusteredVariantEntity"); simpl; auto].
  destruct (validate_try_block_eq env fs pid port d1 d2 d3 docs Hopen E1 E2 E3 E4)
    as [fs2 [Erun Hmissing]].
  rewrite validate_rs_release_files_snd, Erun. cbn [snd].
  match type of Hmissing with _ = Some ?l => set (missing := l) in * end.
  exists missing. split; [|split].
  - destruct (attribution_keeps_missing_ids (release_db env) missing) as [Rs Hk].
    exact (proj1 (Hk fs2 I Hmissing)).
  - apply filter_strict_sorted, comm_31_sorted, sort_uniq_sorted.
  - intros x. unfold missing. rewrite missing_ids_In.
    + unfold Shell.sort_u. rewrite !sort_uniq_In. tauto.
    + apply strict_sorted_le, sort_uniq_sorted.
    + apply sort_uniq_sorted.
Qed.

Lemma validation_missing_ids_file_witness :
  exists missing,
    snd (validate_rs_release_files (reachable store_4_merged_5_declustered) release_1_2_3)
        missing_ids_txt = Some missing /\
    StronglySorted line_lt missing /\
    forall x, In x missing <->
              In x (Mongo.mongoexport_accession
                      [clustered 1 "SNV"; clustered 2 "SNV"; clustered 3 "SNV";
                       clustered 4 "SNV"; clustered 5 "SNV"]) /\
              Shell.matches_digits x = true /\
              ~ In x (extracted_tokens release_1_2_3).
Proof.
  apply (validation_missing_ids_file (reachable store_4_merged_5_declustered)
           release_1_2_3 4242%Z 27017%Z).
  - reflexivity.
  - intros c _. discriminate.
  - reflexivity.
Defined.

(** X16: when the port opens and closes without an exception and every
    collection can be reached, the [try] block returns normally if the
    missing-IDs file is empty, and otherwise raises "There are still n
    missing IDs" with n the number of lines of the missing-IDs file,
    whatever the categories explain; the exit status is 1 in the first case
    and 255 in the second. *)
Theorem validation_outcome_on_reachable_store (env : environment) (fs : filesystem)
  (pid port : Z) :
  open_mongo_port_to_tempmongo env = Some (pid, port) ->
  close_mongo_port_to_tempmongo env pid = None ->
  (forall c, In c ["clusteredVariantEntity"; "clusteredVariantOperationEntity";
                   "dbsnpClusteredVariantEntity"; "dbsnpClusteredVariantOperationEntity";
                   dbsnp_svoe_collection_name; svoe_collection_name;
                   dbsnp_cve_collection_name; cve_collection_name;
                   dbsnp_sve_collection_name; sve_collection_name] ->
             release_db env c <> None) ->
  let missing := contents (snd (validate_rs_release_files env fs)) missing_ids_txt in
  fst (snd (validate_try_block env fs))
  = match missing with
    | [] => Ok tt
    | _ => Raise (Exception_still_missing (Z.of_nat (List.length missing))
                                          rs_still_missing_txt)
    end /\
  fst (validate_rs_release_files env fs)
  = match missing with
    | [] => 1%Z
    | _ => 255%Z
    end.
Proof.
  intros Hopen Hclose Hdb.
  destruct (release_db env "clusteredVariantEntity") as [d1|] eqn:E1;
    [|elim (Hdb "clusteredVariantEntity"); simpl; auto].
  destruct (release_db env "clusteredVariantOperationEntity") as [d2|] eqn:E2;
    [|elim (Hdb "clusteredVariantOperationEntity"); simpl; auto].
  destruct (release_db env "dbsnpClusteredVariantEntity") as [d3|] eqn:E3;
    [|elim (Hdb "dbsnpClusteredVariantEntity"); simpl; auto].
  destruct (release_db env "dbsnpClusteredVariantOperationEntity") as [d4|] eqn:E4;
    [|elim (Hdb "dbsnpClusteredVariantOperationEntity"); simpl; auto 6].
  destruct (validate_try_block_eq env fs pid port d1 d2 d3 d4 Hopen E1 E2 E3 E4)
    as [fs2 [Erun Hmissing]].
  match type of Hmissing with _ = Some ?l => set (missing := l) in * end.
  assert (Hdig : Forall (fun l => Shell.matches_digits l = true) missing).
  { apply Forall_forall. intros l Hl. unfold missing, Shell.grep_E_digits in Hl.
    apply filter_In in Hl. tauto. }
  assert (Hrange : Forall (fun l => int64_line l = true) missing).
  { apply Forall_forall. intros l Hl. unfold missing, Shell.grep_E_digits in Hl.
    apply filter_In in Hl. destruct Hl as [Hl Hd].
    apply comm_31_incl in Hl. unfold Shell.sort_u in Hl.
    apply (proj1 (sort_uniq_In _ _)) in Hl.
    now apply (exported_line_int64 d4). }
  assert (Hkeep : snd (get_missing_ids_attributions missing_ids_txt (release_db env) fs2)
                      missing_ids_txt = Some missing).
  { destruct (attribution_keeps_missing_ids (release_db env) missing) as [Rs Hk].
    exact (proj1 (Hk fs2 I Hmissing)). }
  assert (Hout : fst (get_missing_ids_attributions missing_ids_txt (release_db env) fs2)
                 = match missing with
                   | [] => Ok tt
                   | _ => Raise (Exception_still_missing (Z.of_nat (List.length missing))
                                                         rs_still_missing_txt)
                   end).
  { apply attribution_outcome; auto. intros c Hc. apply Hdb. simpl in *. tauto. }
  cbv zeta. rewrite validate_rs_release_files_snd. unfold validate_rs_release_files.
  rewrite Erun. cbn [snd]. unfold contents. rewrite Hkeep.
  split; [exact Hout|].
  destruct (get_missing_ids_attributions missing_ids_txt (release_db env) fs2)
    as [r fs3]. cbn [fst] in Hout. rewrite Hout, Hclose.
  destruct missing; reflexivity.
Qed.

Lemma validation_outcome_on_reachable_store_witness :
  let env := reachable store_4_merged_5_declustered in
  let missing := contents (snd (validate_rs_release_files env release_1_2_3))
                          missing_ids_txt in
  fst (snd (validate_try_block env release_1_2_3))
  = match missing with
    | [] => Ok tt
    | _ => Raise (Exception_still_missing (Z.of_nat (List.length missing))
                                          rs_still_missing_txt)
    end /\
  fst (validate_rs_release_files env release_1_2_3)
  = match missing with
    | [] => 1%Z
    | _ => 255%Z
    end.
Proof.
  apply (validation_outcome_on_reachable_store (reachable store_4_merged_5_declustered)
           release_1_2_3 4242%Z 27017%Z).
  - reflexivity.
  - reflexivity.
  - intros c _. discriminate.
Defined.

(** ** Edge cases of a category evaluation *)

(** X4: with an empty candidate file a category evaluation sends no
    query: it returns normally and leaves an empty category file, whatever
    the store (reachable or not), the pipeline and the identifier path; no
    other file is changed. *)
Theorem category_of_no_candidates_is_empty (missing_ids_file : path)
  (db : Mongo.database) (q : Mongo.pipeline) (rs_id_attribute_path : string)
  (collections_to_query : list string) (attribution_category : string)
  (fs : filesystem) :
  fs missing_ids_file = Some [] ->
  let run := get_ids_from_mongo_for_category missing_ids_file db q rs_id_attribute_path
               collections_to_query attribution_category fs in
  fst run = Ok (category_txt attribution_category) /\
  snd run (category_txt attribution_category) = Some [] /\
  forall p, p <> category_txt attribution_category -> snd run p = fs p.
Proof.
  intros Hfs. cbv zeta. unfold get_ids_from_mongo_for_category. rewrite Hfs.
  assert (E : contents (write (category_txt attribution_category) (Some []) fs)
                       missing_ids_file = []).
  { unfold contents, write.
    destruct (path_eqb missing_ids_file (category_txt attribution_category));
      [reflexivity | now rewrite Hfs]. }
  rewrite E. cbn [Py.readlines flat_map read_next_batch_of_missing_ids islice_batches
                  List.length firstn num_lines_to_read query_batches fst snd].
  split; [reflexivity|]. split; [apply write_same|].
  intros p Hp. now rewrite !write_other by assumption.
Qed.

Lemma category_of_no_candidates_is_empty_witness :
  let run := get_ids_from_mongo_for_category rs_still_missing_txt (fun _ => None)
               get_merged_ss_query "inactiveObjects.rs"
               [dbsnp_svoe_collection_name; svoe_collection_name]
               "rs_with_merged_ss_parents" (disk [(rs_still_missing_txt, [])]) in
  fst run = Ok (category_txt "rs_with_merged_ss_parents") /\
  snd run (category_txt "rs_with_merged_ss_parents") = Some [] /\
  forall p, p <> category_txt "rs_with_merged_ss_parents" ->
            snd run p = disk [(rs_still_missing_txt, [])] p.
Proof.
  apply (category_of_no_candidates_is_empty rs_still_missing_txt (fun _ => None)
           get_merged_ss_query "inactiveObjects.rs"
           [dbsnp_svoe_collection_name; svoe_collection_name]
           "rs_with_merged_ss_parents" (disk [(rs_still_missing_txt, [])])).
  reflexivity.
Defined.

Lemma comprehension_all_ok {A B : Type} (f : A -> exn + B) (l : list A) (ys : list B) :
  comprehension f l = inr ys -> forall x, In x l -> exists y, f x = inr y.
Proof.
  revert ys. induction l as [|a l IH]; intros ys E x Hx; [destruct Hx|].
  simpl in E. destruct (f a) as [e|y] eqn:Ea; [discriminate|].
  destruct (comprehension f l) as [e|ys'] eqn:El; [discriminate|].
  destruct Hx as [<-|Hx]; eauto.
Qed.

Lemma comprehension_parse_id_fails (b : file) (l : line) :
  In l b -> Py.int (Py.strip l) = None -> comprehension parse_id b = inl ValueError.
Proof.
  intros Hl Hint. induction b as [|a b IH]; [destruct Hl|].
  simpl. unfold parse_id at 1. destruct (Py.int (Py.strip a)) eqn:Ea; [|reflexivity].
  destruct Hl as [<-|Hl]; [congruence|]. now rewrite IH.
Qed.

Lemma query_batches_parsed (batches : list file)
  (handles : list (option (list Mongo.Document))) (rs_id_attribute_path : string) :
  forall (p : Mongo.pipeline) (written : file),
    query_batches batches handles p rs_id_attribute_path = (written, None) ->
    forall b l, In b batches -> In l b -> exists z, parse_id l = inr z.
Proof.
  induction batches as [|b0 batches IH]; intros p written E b l Hb Hl; [destruct Hb|].
  simpl in E.
  destruct (comprehension parse_id b0) as [e|ids] eqn:Eids; [discriminate|].
  destruct (Mongo.set_in rs_id_attribute_path ids p) as [q|]; [|discriminate].
  destruct (query_collections handles q rs_id_attribute_path) as [w [e|]];
    [discriminate|].
  destruct (query_batches batches handles q rs_id_attribute_path) as [more e] eqn:Em.
  destruct Hb as [<-|Hb].
  - eapply comprehension_all_ok; eauto.
  - injection E as _ ->. eapply IH; eauto.
Qed.

(** X5: in an ASCII candidate file, a line (as the text-mode reader
    yields it) that [int] rejects makes the category evaluation end with an
    exception; when the line is among the first 1000, the exception is
    [ValueError], raised before any query is sent, and the category file is
    left empty. *)
Theorem category_rejects_malformed_candidate (missing_ids_file : path)
  (db : Mongo.database) (q : Mongo.pipeline) (rs_id_attribute_path : string)
  (collections_to_query : list string) (attribution_category : string)
  (fs : filesystem) (lines : file) (l : line) :
  fs missing_ids_file = Some lines ->
  missing_ids_file <> category_txt attribution_category ->
  Forall (fun x => Py.is_ascii x = true) lines ->
  In l (Py.readlines lines) -> Py.int (Py.strip l) = None ->
  let run := get_ids_from_mongo_for_category missing_ids_file db q rs_id_attribute_path
               collections_to_query attribution_category fs in
  (exists e, fst run = Raise e) /\
  (In l (firstn 1000 (Py.readlines lines)) ->
   fst run = Raise ValueError /\ snd run (category_txt attribution_category) = Some []).
Proof.
  intros Hfs Hne _ Hl Hint. cbv zeta. unfold get_ids_from_mongo_for_category.
  rewrite Hfs. rewrite contents_write_other by assumption.
  rewrite (contents_some _ _ _ Hfs). split.
  - destruct (query_batches (read_next_batch_of_missing_ids (Py.readlines lines))
                (map db collections_to_query) q rs_id_attribute_path)
      as [written [e|]] eqn:E; cbn [fst]; [eauto|].
    exfalso.
    destruct (read_next_batch_spec (Py.readlines lines)) as [Hconcat _].
    rewrite <- Hconcat in Hl. apply in_concat in Hl. destruct Hl as [b [Hb Hlb]].
    destruct (query_batches_parsed _ _ _ _ _ E b l Hb Hlb) as [z Hz].
    unfold parse_id in Hz. rewrite Hint in Hz. discriminate.
  - intros Hfirst.
    assert (Hnil : Py.readlines lines <> []) by (intros E; rewrite E in Hl; destruct Hl).
    unfold read_next_batch_of_missing_ids, num_lines_to_read.
    rewrite islice_batches_step by (auto; lia).
    cbn [query_batches].
    match goal with
    | |- context [comprehension parse_id ?b] =>
        assert (Hc : comprehension parse_id b = inl ValueError)
          by exact (comprehension_parse_id_fails _ l Hfirst Hint);
        rewrite Hc
    end.
    cbn [fst snd]. split; [reflexivity|apply write_same].
Qed.

Lemma category_rejects_malformed_candidate_witness :
  let run := get_ids_from_mongo_for_category rs_still_missing_txt store_4_merged_twice
               get_merged_ss_query "inactiveObjects.rs"
               [dbsnp_svoe_collection_name; svoe_collection_name]
               "rs_with_merged_ss_parents" (disk [(rs_still_missing_txt, ["4"; "rs5"])]) in
  (exists e, fst run = Raise e) /\
  (In "rs5" (firstn 1000 (Py.readlines ["4"; "rs5"])) ->
   fst run = Raise ValueError /\
   snd run (category_txt "rs_with_merged_ss_parents") = Some []).
Proof.
  apply (category_rejects_malformed_candidate rs_still_missing_txt store_4_merged_twice
           get_merged_ss_query "inactiveObjects.rs"
           [dbsnp_svoe_collection_name; svoe_collection_name]
           "rs_with_merged_ss_parents" (disk [(rs_still_missing_txt, ["4"; "rs5"])])
           ["4"; "rs5"] "rs5").
  - reflexivity.
  - discriminate.
  - repeat constructor.
  - right. left. reflexivity.
  - reflexivity.
Defined.

(** ** Batches as slices *)

(** X1: the i-th batch yielded by [read_next_batch_of_missing_ids] is the
    i-th slice of 1000 lines of the file (empty beyond the last batch), so
    every batch but the last holds exactly 1000 lines. *)
Theorem batches_are_consecutive_slices (lines : file) (i : nat) :
  nth i (read_next_batch_of_missing_ids lines) [] = firstn 1000 (skipn (1000 * i) lines) /\
  (S i < List.length (read_next_batch_of_missing_ids lines) ->
   List.length (nth i (read_next_batch_of_missing_ids lines) []) = 1000).
Proof.
  assert (Hnth : forall j, nth j (read_next_batch_of_missing_ids lines) []
                           = firstn 1000 (skipn (1000 * j) lines)).
  { intros j. unfold read_next_batch_of_missing_ids, num_lines_to_read.
    apply islice_batches_nth; lia. }
  split; [apply Hnth|]. intros Hi.
  destruct (read_next_batch_spec lines) as [_ [_ Hcount]].
  rewrite Hnth, length_firstn, length_skipn.
  rewrite Hcount in Hi.
  assert (H : S (S i) * 1000 <= List.length lines + 999).
  { pose proof (Nat.div_mod_eq (List.length lines + 999) 1000) as Hd.
    pose proof (Nat.mod_upper_bound (List.length lines + 999) 1000 ltac:(lia)) as Hm.
    nia. }
  lia.
Qed.

(** ** What a category file holds *)

Lemma line_to_write_project (rs_id_attribute_path : string) (d : Mongo.Document)
  (x : line) :
  In rs_id_attribute_path ["accession"; "rs"; "inactiveObjects.rs"] ->
  (line_to_write rs_id_attribute_path (Mongo.project rs_id_attribute_path d) = inr x <->
   exists z0 rest, Mongo.int_values rs_id_attribute_path d = z0 :: rest /\ x = Py.str z0).
Proof.
  intros [<- | [<- | [<- | []]]]; unfold line_to_write, Mongo.project.
  - change (mentions_inactiveObjects "accession") with false.
    change ("accession" =? "inactiveObjects.rs") with false. cbv iota.
    destruct (Mongo.int_values "accession" d) as [|z0 rest]; split.
    + discriminate.
    + intros [z [r [E _]]]. discriminate.
    + intros E. injection E as <-. eauto.
    + intros [z [r [E ->]]]. injection E as <- <-. reflexivity.
  - change (mentions_inactiveObjects "rs") with false.
    change ("rs" =? "inactiveObjects.rs") with false. cbv iota.
    destruct (Mongo.int_values "rs" d) as [|z0 rest]; split.
    + discriminate.
    + intros [z [r [E _]]]. discriminate.
    + intros E. injection E as <-. eauto.
    + intros [z [r [E ->]]]. injection E as <- <-. reflexivity.
  - change (mentions_inactiveObjects "inactiveObjects.rs") with true.
    change ("inactiveObjects.rs" =? "inactiveObjects.rs") with true. cbv iota.
    destruct (Mongo.int_values "inactiveObjects.rs" d) as [|z0 rest]; split.
    + discriminate.
    + intros [z [r [E _]]]. discriminate.
    + intros E. injection E as <-. eauto.
    + intros [z [r [E ->]]]. injection E as <- <-. reflexivity.
Qed.

Lemma scalar_path_single (rs_id_attribute_path : string) (d : Mongo.Document)
  (z0 : Z) (rest : list Z) :
  In rs_id_attribute_path ["accession"; "rs"] ->
  Mongo.int_values rs_id_attribute_path d = z0 :: rest -> rest = [].
Proof.
  intros [<- | [<- | []]]; unfold Mongo.int_values.
  - change ("accession" =? "accession") with true. cbv iota.
    destruct (Mongo.doc_accession d); simpl; congruence.
  - change ("rs" =? "accession") with false. change ("rs" =? "rs") with true. cbv iota.
    destruct (Mongo.doc_rs d); simpl; congruence.
Qed.

(** X6: for each of the five category evaluations, on digit candidates
    that are 64-bit integers and reachable collections, a line is in the
    category file exactly when
    it prints the first identifier found at the category's path in a
    document that satisfies the [$match] stage carrying all candidates.
    Such a document holds a candidate at that path.  For the paths
    "accession" and "rs" the printed identifier is that candidate; for
    "inactiveObjects.rs" it is the identifier of the first inactive object,
    whichever inactive object matched. *)
Theorem attributed_ids_are_first_ids_of_matching_documents
  (db : Mongo.database) (fs : filesystem) (missing_ids_file : path) (lines : file)
  (q : Mongo.pipeline) (rs_id_attribute_path : string)
  (collections_to_query : list string) (attribution_category : string) :
  In (q, rs_id_attribute_path, collections_to_query, attribution_category) category_calls ->
  fs missing_ids_file = Some lines ->
  missing_ids_file <> category_txt attribution_category ->
  Forall (fun l => Shell.matches_digits l = true) lines ->
  Forall (fun l => int64_line l = true) lines ->
  (forall c, In c collections_to_query -> db c <> None) ->
  exists all_ids q_all written,
    comprehension parse_id lines = inr all_ids /\
    Mongo.set_in rs_id_attribute_path all_ids q = Some q_all /\
    snd (get_ids_from_mongo_for_category missing_ids_file db q rs_id_attribute_path
           collections_to_query attribution_category fs)
        (category_txt attribution_category) = Some written /\
    (forall x, In x written <->
       exists c docs d z0 rest,
         In c collections_to_query /\ db c = Some docs /\ In d docs /\
         Mongo.matches q_all d = true /\
         Mongo.int_values rs_id_attribute_path d = z0 :: rest /\ x = Py.str z0) /\
    (forall d, Mongo.matches q_all d = true ->
               exists z, In z (Mongo.int_values rs_id_attribute_path d) /\ In z all_ids) /\
    (rs_id_attribute_path <> "inactiveObjects.rs" ->
     forall x, In x written -> exists z, In z all_ids /\ x = Py.str z).
Proof.
  intros Hcall Hfs Hne Hdig Hrange Hdb.
  destruct (category_calls_config _ _ _ _ Hcall) as [Hvalid [Hproj [Henc Hset]]].
  destruct (get_ids_from_mongo_for_category_ok rs_id_attribute_path q db fs
              missing_ids_file lines collections_to_query attribution_category
              Hvalid Hproj Henc Hset Hfs Hne Hdig Hrange Hdb)
    as [all_ids [q_all [written [E1 [E2 [E3 E4]]]]]].
  assert (Hp : Mongo.project_accession q_all = rs_id_attribute_path).
  { now rewrite (set_in_project _ _ _ _ E2). }
  assert (Hcand : forall d, Mongo.matches q_all d = true ->
                            exists z, In z (Mongo.int_values rs_id_attribute_path d) /\
                                      In z all_ids).
  { intros d Hd. apply In_holds. exact (set_in_matches _ _ _ _ d E2 Hd). }
  assert (Hwritten : forall x, In x written <->
             exists c docs d z0 rest,
               In c collections_to_query /\ db c = Some docs /\ In d docs /\
               Mongo.matches q_all d = true /\
               Mongo.int_values rs_id_attribute_path d = z0 :: rest /\ x = Py.str z0).
  { intros x. rewrite E4. split.
    - intros [c [docs [v [Hc [Ec [Hv Hl]]]]]].
      apply aggregate_In in Hv. destruct Hv as [d [Hd [Hm Hv]]].
      rewrite Hp in Hv. subst v.
      apply line_to_write_project in Hl; [|assumption].
      destruct Hl as [z0 [rest [Ez Ex]]].
      exists c, docs, d, z0, rest. auto 10.
    - intros [c [docs [d [z0 [rest [Hc [Ec [Hd [Hm [Ez Ex]]]]]]]]]].
      exists c, docs, (Mongo.project rs_id_attribute_path d).
      split; [assumption|]. split; [assumption|]. split.
      + apply aggregate_In. exists d. rewrite Hp. auto.
      + apply line_to_write_project; eauto. }
  exists all_ids, q_all, written. rewrite E3. cbn [snd].
  split; [assumption|]. split; [assumption|]. split; [apply write_same|].
  split; [assumption|]. split; [assumption|].
  intros Hscalar x Hx. apply Hwritten in Hx.
  destruct Hx as [c [docs [d [z0 [rest [_ [_ [_ [Hm [Ez Ex]]]]]]]]]].
  assert (Hrest : rest = []).
  { apply (scalar_path_single rs_id_attribute_path d z0 rest); [|assumption].
    simpl in Hvalid. simpl. intuition congruence. }
  destruct (Hcand d Hm) as [z [Hz Hin]]. rewrite Ez, Hrest in Hz.
  destruct Hz as [<-|[]]. eauto.
Qed.

Lemma attributed_ids_are_first_ids_of_matching_documents_witness :
  exists all_ids q_all written,
    comprehension parse_id ["4"] = inr all_ids /\
    Mongo.set_in "inactiveObjects.rs" all_ids get_merged_ss_query = Some q_all /\
    snd (get_ids_from_mongo_for_category rs_still_missing_txt store_9_and_4_merged_together
           get_merged_ss_query "inactiveObjects.rs"
           [dbsnp_svoe_collection_name; svoe_collection_name]
           "rs_with_merged_ss_parents" (disk [(rs_still_missing_txt, ["4"])]))
        (category_txt "rs_with_merged_ss_parents") = Some written /\
    (forall x, In x written <->
       exists c docs d z0 rest,
         In c [dbsnp_svoe_collection_name; svoe_collection_name] /\
         store_9_and_4_merged_together c = Some docs /\ In d docs /\
         Mongo.matches q_all d = true /\
         Mongo.int_values "inactiveObjects.rs" d = z0 :: rest /\ x = Py.str z0) /\
    (forall d, Mongo.matches q_all d = true ->
               exists z, In z (Mongo.int_values "inactiveObjects.rs" d) /\ In z all_ids) /\
    ("inactiveObjects.rs" <> "inactiveObjects.rs" ->
     forall x, In x written -> exists z, In z all_ids /\ x = Py.str z).
Proof.
  apply (attributed_ids_are_first_ids_of_matching_documents store_9_and_4_merged_together
           (disk [(rs_still_missing_txt, ["4"])]) rs_still_missing_txt ["4"]).
  - left. reflexivity.
  - reflexivity.
  - discriminate.
  - repeat constructor.
  - repeat constructor.
  - intros c _. discriminate.
Defined.

(** On that store the candidate 4 is attributed under the identifier of the
    first inactive object of its merge operation. *)
Example merged_category_file_holds_first_inactive_object :
  snd (get_ids_from_mongo_for_category rs_still_missing_txt store_9_and_4_merged_together
         get_merged_ss_query "inactiveObjects.rs"
         [dbsnp_svoe_collection_name; svoe_collection_name]
         "rs_with_merged_ss_parents" (disk [(rs_still_missing_txt, ["4"])]))
      (category_txt "rs_with_merged_ss_parents") = Some ["9"].
Proof. vm_compute. reflexivity. Qed.

(** ** The last category *)

(** No occurrence of ["_SVE"] starts in a prefix that holds none, when the
    text goes on with ["_r"]. *)
Lemma no_SVE_across (s rest : string) :
  Py.occurs "_SVE" s = false ->
  String.prefix "_SVE" (s ++ String "_" (String "r" rest)) = false.
Proof.
  intros H.
  assert (Hp : String.prefix "_SVE" s = false).
  { destruct s; [reflexivity|]. cbn [Py.occurs] in H. apply orb_false_iff in H. tauto. }
  clear H.
  destruct s as [|c1 [|c2 [|c3 [|c4 s]]]]; cbn [String.prefix String.append] in *;
    repeat match goal with
           | |- context [ascii_dec ?a ?b] => destruct (ascii_dec a b)
           end; try congruence.
  destruct s; discriminate Hp.
Qed.

Lemma replace_by_empty_after (pre rest : string) (fuel : nat) :
  Py.occurs "_SVE" pre = false ->
  Py.replace_by_empty (String.length pre + fuel) "_SVE"
    (pre ++ String "_" (String "r" rest))
  = (pre ++ Py.replace_by_empty fuel "_SVE" (String "_" (String "r" rest)))%string.
Proof.
  induction pre as [|c pre IH]; intros H; [reflexivity|].
  pose proof (no_SVE_across _ rest H) as Hp.
  assert (H' : Py.occurs "_SVE" pre = false).
  { cbn [Py.occurs] in H. apply orb_false_iff in H. tauto. }
  change (String.length (String c pre) + fuel) with (S (String.length pre + fuel)).
  change (String c pre ++ String "_" (String "r" rest))%string
    with (String c (pre ++ String "_" (String "r" rest))) in *.
  cbn [Py.replace_by_empty]. rewrite Hp. now rewrite IH.
Qed.

Lemma string_length_app (s t : string) :
  String.length (s ++ t) = String.length s + String.length t.
Proof. induction s as [|c s IH]; simpl; auto. Qed.

(** [str.replace] on the whole path of the SVE result file gives the path
    of the category file named without ["_SVE"]. *)
Lemma replace_SVE_on_whole_path (prefix : string) :
  Py.occurs "_SVE" prefix = false ->
  Py.replace (category_file_name prefix "rs_with_non_nucleotide_letters_SVE") "_SVE"
  = category_file_name prefix "rs_with_non_nucleotide_letters".
Proof.
  intros H. unfold Py.replace, category_file_name.
  change ("_" ++ "rs_with_non_nucleotide_letters_SVE" ++ ".txt")%string
    with (String "_" (String "r" "s_with_non_nucleotide_letters_SVE.txt")).
  rewrite string_length_app, (replace_by_empty_after _ _ _ H). reflexivity.
Qed.

(** X8: on digit candidates that are 64-bit integers and reachable
    collections [get_rs_with_non_nucleotide_letters] returns the file named
    after the category without ["_SVE"]; it holds, strictly sorted and
    without duplicates, exactly the lines of the SVE and SVOE result files,
    both of which are kept.  The file returned is the one that
    [str.replace], which acts on the whole path, names: for every directory
    and assembly accession that hold no ["_SVE"], removing ["_SVE"] from
    the path of the SVE result file gives the path of the category file
    named without it. *)
Theorem non_nucleotide_file_is_sorted_union (db : Mongo.database) (fs : filesystem)
  (missing_ids_file : path) (lines : file) :
  fs missing_ids_file = Some lines ->
  (forall c, missing_ids_file <> category_txt c) ->
  Forall (fun l => Shell.matches_digits l = true) lines ->
  Forall (fun l => int64_line l = true) lines ->
  (forall c, In c [dbsnp_sve_collection_name; sve_collection_name;
                   dbsnp_svoe_collection_name; svoe_collection_name] -> db c <> None) ->
  let run := get_rs_with_non_nucleotide_letters missing_ids_file db fs in
  fst run = Ok (replace_SVE (category_txt "rs_with_non_nucleotide_letters_SVE")) /\
  replace_SVE (category_txt "rs_with_non_nucleotide_letters_SVE")
  = category_txt "rs_with_non_nucleotide_letters" /\
  (forall prefix, Py.occurs "_SVE" prefix = false ->
     Py.replace (category_file_name prefix "rs_with_non_nucleotide_letters_SVE") "_SVE"
     = category_file_name prefix "rs_with_non_nucleotide_letters") /\
  exists sve svoe final,
    snd run (category_txt "rs_with_non_nucleotide_letters_SVE") = Some sve /\
    snd run (category_txt "rs_with_non_nucleotide_letters_SVOE") = Some svoe /\
    snd run (category_txt "rs_with_non_nucleotide_letters") = Some final /\
    StronglySorted line_lt final /\
    forall x, In x final <-> In x sve \/ In x svoe.
Proof.
  intros Hfs Hne Hdig Hrange Hdb. cbv zeta.
  destruct (get_rs_with_non_nucleotide_letters_eq db fs missing_ids_file lines
              Hfs Hne Hdig Hrange Hdb) as [sve [svoe E]].
  rewrite E. cbn [fst snd]. split; [reflexivity|]. split; [reflexivity|].
  split; [exact replace_SVE_on_whole_path|].
  exists sve, svoe, (Shell.uniq (Shell.sort (sve ++ svoe))).
  split; [|split; [|split; [|split]]].
  - rewrite !write_other by discriminate. apply write_same.
  - rewrite !write_other by discriminate. apply write_same.
  - apply write_same.
  - apply sort_uniq_sorted.
  - intros x. rewrite sort_uniq_In. apply in_app_iff.
Qed.

Lemma non_nucleotide_file_is_sorted_union_witness :
  let run := get_rs_with_non_nucleotide_letters rs_still_missing_txt store_4_non_nucleotide
               (disk [(rs_still_missing_txt, ["4"])]) in
  fst run = Ok (replace_SVE (category_txt "rs_with_non_nucleotide_letters_SVE")) /\
  replace_SVE (category_txt "rs_with_non_nucleotide_letters_SVE")
  = category_txt "rs_with_non_nucleotide_letters" /\
  (forall prefix, Py.occurs "_SVE" prefix = false ->
     Py.replace (category_file_name prefix "rs_with_non_nucleotide_letters_SVE") "_SVE"
     = category_file_name prefix "rs_with_non_nucleotide_letters") /\
  exists sve svoe final,
    snd run (category_txt "rs_with_non_nucleotide_letters_SVE") = Some sve /\
    snd run (category_txt "rs_with_non_nucleotide_letters_SVOE") = Some svoe /\
    snd run (category_txt "rs_with_non_nucleotide_letters") = Some final /\
    StronglySorted line_lt final /\
    forall x, In x final <-> In x sve \/ In x svoe.
Proof.
  apply (non_nucleotide_file_is_sorted_union store_4_non_nucleotide
           (disk [(rs_still_missing_txt, ["4"])]) rs_still_missing_txt ["4"]).
  - reflexivity.
  - intros c. discriminate.
  - repeat constructor.
  - repeat constructor.
  - intros c _. discriminate.
Defined.

(** ** The round trip of an identifier *)

(** X7: an identifier printed by [str] is read back by
    [int(line.strip())] as the same integer, negative or not; the printed
    line is a digit string, and so passes the filter of the diff stage,
    exactly when the identifier is not negative. *)
Theorem exported_accession_parses_back (z : Z) :
  parse_id (Py.str z) = inr z /\
  (Shell.matches_digits (Py.str z) = true <-> (0 <= z)%Z).
Proof. split; [apply parse_id_str | apply matches_digits_str]. Qed.

(** ** Extraction of the released identifiers *)

Lemma fields_nonempty (s : string) : Shell.fields s <> [].
Proof.
  destruct s as [|c r]; simpl; [discriminate|].
  destruct (Ascii.eqb c Shell.tab); [discriminate|].
  destruct (Shell.fields r); discriminate.
Qed.

Lemma fields_tab_free (s : string) : tab_free s = true -> Shell.fields s = [s].
Proof.
  induction s as [|c r IH]; [reflexivity|].
  unfold tab_free. cbn [list_ascii_of_string forallb]. rewrite andb_true_iff.
  intros [Hc Hr]. apply negb_true_iff in Hc. cbn [Shell.fields]. rewrite Hc.
  now rewrite (IH Hr).
Qed.

Lemma fields_app (a s : string) :
  tab_free a = true ->
  Shell.fields (a ++ String Shell.tab s)%string = a :: Shell.fields s.
Proof.
  induction a as [|c r IH].
  - intros _. cbn [String.append Shell.fields]. now rewrite Ascii.eqb_refl.
  - unfold tab_free. cbn [list_ascii_of_string forallb]. rewrite andb_true_iff.
    intros [Hc Hr]. apply negb_true_iff in Hc. cbn [String.append Shell.fields].
    rewrite Hc. now rewrite (IH Hr).
Qed.

Lemma digit_not_tab (c : ascii) : Shell.is_digit c = true -> Ascii.eqb c Shell.tab = false.
Proof.
  intros H. destruct (Ascii.eqb_spec c Shell.tab) as [->|]; [discriminate H|reflexivity].
Qed.

Lemma all_digits_tab_free (d : string) : Shell.all_digits d = true -> tab_free d = true.
Proof.
  induction d as [|c r IH]; [reflexivity|].
  cbn [Shell.all_digits]. rewrite andb_true_iff. intros [Hc Hr].
  unfold tab_free. cbn [list_ascii_of_string forallb].
  rewrite (digit_not_tab c Hc). exact (IH Hr).
Qed.

Lemma rs_digits_tab_free (d : string) :
  Shell.all_digits d = true -> tab_free ("rs" ++ d) = true.
Proof. intros H. exact (all_digits_tab_free d H). Qed.

Lemma remove_rs_digits (d : string) : Shell.all_digits d = true -> Shell.remove_rs d = d.
Proof.
  induction d as [|c r IH]; [reflexivity|].
  cbn [Shell.all_digits]. rewrite andb_true_iff. intros [Hc Hr].
  cbn [Shell.remove_rs]. destruct r as [|c' r']; [reflexivity|].
  assert (Hcr : Ascii.eqb c "r" = false).
  { destruct (Ascii.eqb_spec c "r") as [->|]; [discriminate Hc|reflexivity]. }
  rewrite Hcr. cbn [andb]. now rewrite (IH Hr).
Qed.

Lemma remove_rs_prefixed (d : string) :
  Shell.all_digits d = true -> Shell.remove_rs ("rs" ++ d) = d.
Proof.
  intros H. change (Shell.remove_rs ("rs" ++ d)) with (Shell.remove_rs d).
  now apply remove_rs_digits.
Qed.

Lemma grep_v_hash_keeps (l : line) (lines : file) :
  String.prefix "#" l = false -> In l lines -> In l (Shell.grep_v_hash lines).
Proof.
  intros Hp Hl. unfold Shell.grep_v_hash. apply filter_In. split; [assumption|].
  destruct l as [|c r]; [reflexivity|].
  cbn [String.prefix] in Hp.
  destruct (ascii_dec "#" c) as [<-|Hc]; [destruct r; discriminate Hp|].
  destruct c as [[] [] [] [] [] [] [] []]; try reflexivity. now elim Hc.
Qed.

Lemma vcf_record_kept (chrom pos id rest : string) :
  String.prefix "#" chrom = false ->
  String.prefix "#" (vcf_record chrom pos id rest) = false.
Proof.
  intros H. unfold vcf_record. cbv zeta.
  destruct chrom as [|c r]; [reflexivity|].
  cbn [String.append String.prefix] in *.
  destruct (ascii_dec "#" c); [destruct r; discriminate H|reflexivity].
Qed.

Lemma cut_f3_vcf_record (chrom pos id rest : string) :
  tab_free chrom = true -> tab_free pos = true -> tab_free id = true ->
  Shell.cut_f 3 [vcf_record chrom pos id rest] = [id].
Proof.
  intros Hc Hp Hi. unfold Shell.cut_f, vcf_record. cbv zeta. cbn [map].
  change (chrom ++ String Shell.tab EmptyString ++ pos ++ String Shell.tab EmptyString
          ++ id ++ String Shell.tab EmptyString ++ rest)%string
    with (chrom ++ String Shell.tab (pos ++ String Shell.tab
          (id ++ String Shell.tab rest)))%string.
  rewrite (fields_app chrom _ Hc), (fields_app pos _ Hp), (fields_app id _ Hi).
  reflexivity.
Qed.

Lemma in_cut_f (n : nat) (l : line) (lines : file) (token : string) :
  Shell.cut_f n [l] = [token] -> In l lines -> In token (Shell.cut_f n lines).
Proof.
  intros E Hl.
  assert (H : In token (Shell.cut_f n [l])) by (rewrite E; left; reflexivity).
  unfold Shell.cut_f in *. apply in_map_iff in H. destruct H as [x [Ex [<-|[]]]].
  apply in_map_iff. exists l. auto.
Qed.

Lemma in_sed_s_rs_g (d : string) (lines : file) :
  Shell.all_digits d = true -> In ("rs" ++ d)%string lines ->
  In d (Shell.sed_s_rs_g lines).
Proof.
  intros Hd Hl. unfold Shell.sed_s_rs_g.
  rewrite <- (remove_rs_prefixed d Hd). now apply in_map.
Qed.

(** X3: an identifier written as rs<digits> in the ID column of a record
    of one of the three VCF files, in either column of the merged-deprecated
    file or as a line of the deprecated file reaches the release universe as
    <digits>. *)
Theorem released_rs_id_reaches_release_universe (fs : filesystem) (d : string) :
  Shell.all_digits d = true ->
  (exists f chrom pos rest,
      In f [current_ids_vcf_gz; merged_ids_vcf_gz; multimap_ids_vcf_gz] /\
      String.prefix "#" chrom = false /\ tab_free chrom = true /\ tab_free pos = true /\
      In (vcf_record chrom pos ("rs" ++ d) rest) (contents fs f)) \/
  (exists other,
      In (two_columns ("rs" ++ d) other) (contents fs merged_deprecated_ids_txt_gz)) \/
  (exists other,
      tab_free other = true /\
      In (two_columns other ("rs" ++ d)) (contents fs merged_deprecated_ids_txt_gz)) \/
  In ("rs" ++ d)%string (contents fs deprecated_ids_txt_gz) ->
  In d (extracted_tokens fs) /\
  In d (contents (snd (generate_unique_rs_ids_file fs)) unique_ids_txt).
Proof.
  intros Hd H.
  assert (Hin : In d (extracted_tokens fs)).
  { unfold extracted_tokens. rewrite !in_app_iff.
    destruct H as [[f [chrom [pos [rest [Hf [Hhash [Hc [Hp Hl]]]]]]]]
                  | [[other Hl] | [[other [Ho Hl]] | Hl]]].
    - assert (Htok : In d (Shell.sed_s_rs_g
                             (Shell.cut_f 3 (Shell.grep_v_hash (contents fs f))))).
      { apply in_sed_s_rs_g; [assumption|].
        apply (in_cut_f 3 (vcf_record chrom pos ("rs" ++ d) rest)).
        - apply cut_f3_vcf_record; auto. now apply rs_digits_tab_free.
        - apply grep_v_hash_keeps; [now apply vcf_record_kept | assumption]. }
      destruct Hf as [<- | [<- | [<- | []]]]; auto.
    - right. right. right. left. apply in_sed_s_rs_g; [assumption|].
      apply (in_cut_f 1 (two_columns ("rs" ++ d) other)); [|assumption].
      unfold Shell.cut_f, two_columns. cbn [map].
      change (("rs" ++ d) ++ String Shell.tab EmptyString ++ other)%string
        with (("rs" ++ d) ++ String Shell.tab other)%string.
      rewrite (fields_app _ _ (rs_digits_tab_free d Hd)).
      pose proof (fields_nonempty other) as Hne.
      destruct (Shell.fields other); [now elim Hne | reflexivity].
    - right. right. right. right. left. apply in_sed_s_rs_g; [assumption|].
      apply (in_cut_f 2 (two_columns other ("rs" ++ d))); [|assumption].
      unfold Shell.cut_f, two_columns. cbn [map].
      change (other ++ String Shell.tab EmptyString ++ "rs" ++ d)%string
        with (other ++ String Shell.tab ("rs" ++ d))%string.
      rewrite (fields_app _ _ Ho), (fields_tab_free _ (rs_digits_tab_free d Hd)).
      reflexivity.
    - right. right. right. right. right. now apply in_sed_s_rs_g. }
  split; [assumption|].
  unfold contents. rewrite generate_unique_rs_ids_file_content.
  unfold Shell.sort_u. now apply sort_uniq_In.
Qed.

Lemma released_rs_id_reaches_release_universe_witness :
  In "2" (extracted_tokens release_1_2_3) /\
  In "2" (contents (snd (generate_unique_rs_ids_file release_1_2_3)) unique_ids_txt).
Proof.
  apply (released_rs_id_reaches_release_universe release_1_2_3 "2").
  - reflexivity.
  - left. exists current_ids_vcf_gz, "1", "100", ("A" ++ String Shell.tab "T")%string.
    split; [left; reflexivity|]. split; [reflexivity|]. split; [reflexivity|].
    split; [reflexivity|]. right. right. left. reflexivity.
Defined.

(** ** A collection that cannot be queried *)

Lemma query_collections_unreachable (rs_id_attribute_path : string) (p0 : Mongo.pipeline)
  (ids : list Z) (q : Mongo.pipeline) (handles : list (option (list Mongo.Document))) :
  In rs_id_attribute_path ["accession"; "rs"; "inactiveObjects.rs"] ->
  Mongo.project_accession p0 = rs_id_attribute_path ->
  Mongo.set_in rs_id_attribute_path ids p0 = Some q ->
  Mongo.encodable q = true ->
  In None handles ->
  exists written,
    query_collections handles q rs_id_attribute_path = (written, Some PyMongoError).
Proof.
  intros Hvalid Hproj Hq Henc. induction handles as [|h handles IH]; intros Hin; [destruct Hin|].
  destruct h as [docs|]; [|exists []; reflexivity].
  destruct Hin as [Hin|Hin]; [discriminate Hin|].
  destruct (IH Hin) as [more Hmore].
  destruct (comprehension_ok (line_to_write rs_id_attribute_path) (Mongo.aggregate docs q))
    as [lines_to_write [E _]].
  { intros v Hv.
    exact (line_to_write_matched rs_id_attribute_path p0 Hvalid Hproj ids q docs v Hq Hv). }
  exists (lines_to_write ++ more). cbn [query_collections]. now rewrite Henc, E, Hmore.
Qed.

(** X19: on a non-empty file of digit candidates that are 64-bit
    integers, a category evaluation one of whose collections cannot be
    queried ends with [PyMongoError]: the collection is not skipped. *)
Theorem category_fails_on_unreachable_collection
  (db : Mongo.database) (fs : filesystem) (missing_ids_file : path) (lines : file)
  (q : Mongo.pipeline) (rs_id_attribute_path : string)
  (collections_to_query : list string) (attribution_category : string) (c : string) :
  In (q, rs_id_attribute_path, collections_to_query, attribution_category) category_calls ->
  fs missing_ids_file = Some lines ->
  missing_ids_file <> category_txt attribution_category ->
  lines <> [] ->
  Forall (fun l => Shell.matches_digits l = true) lines ->
  Forall (fun l => int64_line l = true) lines ->
  In c collections_to_query -> db c = None ->
  fst (get_ids_from_mongo_for_category missing_ids_file db q rs_id_attribute_path
         collections_to_query attribution_category fs)
  = Raise PyMongoError.
Proof.
  intros Hcall Hfs Hne Hnil Hdig Hrange Hc Hdb.
  destruct (category_calls_config _ _ _ _ Hcall) as [Hvalid [Hproj [Henc [q0 Hset]]]].
  unfold get_ids_from_mongo_for_category. rewrite Hfs.
  rewrite contents_write_other by assumption. rewrite (contents_some _ _ _ Hfs).
  rewrite (readlines_digits lines Hdig).
  unfold read_next_batch_of_missing_ids, num_lines_to_read.
  rewrite islice_batches_step by (auto; lia). cbn [query_batches].
  destruct (comprehension_ok parse_id (firstn 1000 lines)) as [ids [Eids _]].
  { intros l Hl. apply parse_id_digits. rewrite Forall_forall in Hdig.
    apply Hdig. rewrite <- (firstn_skipn 1000 lines). apply in_or_app. now left. }
  rewrite Eids.
  destruct (set_in_total _ _ ids _ _ Hset) as [q1 Hq1]. rewrite Hq1.
  assert (Hq1enc : Mongo.encodable q1 = true).
  { rewrite (set_in_encodable _ _ Henc _ _ Hq1).
    apply (comprehension_int64 _ _ Eids). intros l Hl. rewrite Forall_forall in Hrange.
    apply Hrange. rewrite <- (firstn_skipn 1000 lines). apply in_or_app. now left. }
  destruct (query_collections_unreachable rs_id_attribute_path q ids q1
              (map db collections_to_query) Hvalid Hproj Hq1 Hq1enc) as [written Ew].
  { apply in_map_iff. exists c. auto. }
  rewrite Ew. reflexivity.
Qed.

Lemma category_fails_on_unreachable_collection_witness :
  fst (get_ids_from_mongo_for_category rs_still_missing_txt
         (fun c => if String.eqb c svoe_collection_name then None else Some [])
         get_merged_ss_query "inactiveObjects.rs"
         [dbsnp_svoe_collection_name; svoe_collection_name]
         "rs_with_merged_ss_parents" (disk [(rs_still_missing_txt, ["4"; "5"])]))
  = Raise PyMongoError.
Proof.
  apply (category_fails_on_unreachable_collection
           (fun c => if String.eqb c svoe_collection_name then None else Some [])
           (disk [(rs_still_missing_txt, ["4"; "5"])]) rs_still_missing_txt ["4"; "5"]
           get_merged_ss_query "inactiveObjects.rs"
           [dbsnp_svoe_collection_name; svoe_collection_name]
           "rs_with_merged_ss_parents" svoe_collection_name).
  - left. reflexivity.
  - reflexivity.
  - discriminate.
  - discriminate.
  - repeat constructor.
  - repeat constructor.
  - right. left. reflexivity.
  - reflexivity.
Defined.

(** ** The residual after a complete attribution *)

(** Column 1 is a subsequence of FILE1. *)
Lemma comm_23_sorted (l1 l2 : file) :
  StronglySorted line_lt l1 -> StronglySorted line_lt (Shell.comm_23 l1 l2).
Proof.
  intros S1. unfold Shell.comm_23, Shell.select_column.
  rewrite <- (comm_file1 l1 l2) in S1.
  remember (Shell.comm l1 l2) as out eqn:Eout. clear Eout.
  induction out as [|[c y] out IH]; simpl in *; [constructor|].
  destruct c; simpl in *; auto.
  - inversion S1 as [|? ? S1' A1]; subst. constructor; auto.
    rewrite Forall_forall in *. intros z Hz. apply A1.
    rewrite in_map_iff in *. destruct Hz as [cl [E Hcl]]. exists cl. split; auto.
    apply filter_In in Hcl. apply filter_In. destruct Hcl as [? Hc]. split; auto.
    now apply column1_not_2.
  - inversion S1; subst. auto.
Qed.

Lemma subtraction_step_exact (missing : file) (attribution_category : string)
  (fs : filesystem) (old att : file) :
  residual_within missing fs ->
  fs rs_still_missing_txt = Some old -> NoDup old ->
  fs (category_txt attribution_category) = Some att ->
  exists fs' new att',
    get_residual_missing_rs_ids_file rs_still_missing_txt
      (category_txt attribution_category) fs
    = (Ok rs_still_missing_txt, fs') /\
    residual_within missing fs' /\
    fs' rs_still_missing_txt = Some new /\ NoDup new /\
    (forall x, In x new <-> In x old /\ ~ In x att) /\
    fs' (category_txt attribution_category) = Some att' /\
    (forall x, In x att' <-> In x att) /\
    forall p, p <> rs_still_missing_txt -> p <> category_txt attribution_category ->
              p <> temp_file -> fs' p = fs p.
Proof.
  intros Hres Hold Hnd Hatt.
  destruct (keeps_residual_subtraction missing (category_txt attribution_category)
              ltac:(discriminate) ltac:(discriminate) fs
              ltac:(cbv beta; rewrite Hatt; discriminate) Hres) as [Hres' _].
  destruct (get_residual_missing_rs_ids_file_spec rs_still_missing_txt
              (category_txt attribution_category) old att fs
              ltac:(discriminate) ltac:(discriminate) ltac:(discriminate) Hold Hatt)
    as [H1 [H2 [H3 [_ H5]]]].
  assert (Hstrict : StronglySorted line_lt (Shell.sort old)).
  { apply sorted_NoDup_strict; [apply sort_sorted | now apply sort_NoDup]. }
  exists (snd (get_residual_missing_rs_ids_file rs_still_missing_txt
                 (category_txt attribution_category) fs)),
         (Shell.comm_23 (Shell.sort old) (Shell.sort att)), (Shell.sort att).
  split; [rewrite <- H1; apply surjective_pairing|].
  split; [assumption|]. split; [assumption|].
  split; [apply strict_sorted_NoDup, comm_23_sorted, Hstrict|].
  split; [|split; [assumption|split; [intros x; apply sort_In|assumption]]].
  intros x. split.
  - intros Hx. split.
    + apply sort_In. now apply comm_23_incl in Hx.
    + rewrite <- sort_In. revert Hx. apply comm_23_sound; [assumption|apply sort_sorted].
  - intros [Hx1 Hx2]. apply comm_23_complete.
    + now apply sort_In.
    + now rewrite sort_In.
Qed.

(** X20: on a reachable store and a duplicate-free missing-IDs file of
    digit lines that are 64-bit integers, the residual file that the attribution leaves, whether it
    returns or raises at the count, holds exactly the missing identifiers
    that are in none of the merged, declustered and tandem-repeat category
    files.  The matches of the non-nucleotide category are written to their
    file but not subtracted. *)
Theorem final_residual_is_missing_minus_three_categories (db : Mongo.database)
  (fs : filesystem) (missing : file) :
  fs missing_ids_txt = Some missing ->
  NoDup missing ->
  Forall (fun l => Shell.matches_digits l = true) missing ->
  Forall (fun l => int64_line l = true) missing ->
  (forall c, In c [dbsnp_svoe_collection_name; svoe_collection_name;
                   dbsnp_cve_collection_name; cve_collection_name;
                   dbsnp_sve_collection_name; sve_collection_name] -> db c <> None) ->
  let fs' := snd (get_missing_ids_attributions missing_ids_txt db fs) in
  exists residual merged declustered tandem_repeats,
    fs' rs_still_missing_txt = Some residual /\
    fs' (category_txt "rs_with_merged_ss_parents") = Some merged /\
    fs' (category_txt "rs_with_declustered_ss_parents") = Some declustered /\
    fs' (category_txt "rs_with_tandem_repeat_type") = Some tandem_repeats /\
    forall x, In x residual <->
              In x missing /\ ~ In x merged /\ ~ In x declustered /\
              ~ In x tandem_repeats.
Proof.
  intros Hfs Hnd Hdig Hrange Hdb. cbv zeta. unfold get_missing_ids_attributions.
  rewrite (bind_ok _ _ _ _ _ (cp_missing_ids fs missing Hfs)).
  assert (M0 : write rs_still_missing_txt (Some missing) fs missing_ids_txt = Some missing).
  { now rewrite write_other by discriminate. }
  assert (R0 : residual_within missing (write rs_still_missing_txt (Some missing) fs)).
  { exists missing. split; [apply write_same | auto]. }
  assert (S0 : write rs_still_missing_txt (Some missing) fs rs_still_missing_txt
               = Some missing) by apply write_same.
  revert M0 R0 S0. generalize (write rs_still_missing_txt (Some missing) fs). clear fs Hfs.
  intros fs0 M0 R0 S0.
  unfold get_rs_with_merged_ss, get_rs_with_declustered_ss, get_rs_with_tandem_repeat_type.
  (* merged *)
  destruct (category_evaluation_step db missing get_merged_ss_query "inactiveObjects.rs"
              [dbsnp_svoe_collection_name; svoe_collection_name]
              "rs_with_merged_ss_parents" fs0) as [fs1 [E1 [R1 [C1 F1]]]]; auto.
  { simpl; auto 10. }
  { intros c Hc. apply Hdb. simpl in *. tauto. }
  rewrite (bind_ok _ _ _ _ _ E1).
  destruct (fs1 (category_txt "rs_with_merged_ss_parents")) as [w1|] eqn:W1;
    [clear C1|now elim C1].
  destruct (subtraction_step_exact missing "rs_with_merged_ss_parents" fs1 missing w1)
    as [fs2 [r1 [a1 [E2 [R2 [S2 [N2 [I2 [A2 [J2 F2]]]]]]]]]]; auto.
  { rewrite F1 by discriminate. exact S0. }
  rewrite (bind_ok _ _ _ _ _ E2).
  (* declustered *)
  destruct (category_evaluation_step db missing get_declustered_ss_query "inactiveObjects.rs"
              [dbsnp_svoe_collection_name; svoe_collection_name]
              "rs_with_declustered_ss_parents" fs2) as [fs3 [E3 [R3 [C3 F3]]]]; auto.
  { simpl; auto 10. }
  { intros c Hc. apply Hdb. simpl in *. tauto. }
  rewrite (bind_ok _ _ _ _ _ E3).
  destruct (fs3 (category_txt "rs_with_declustered_ss_parents")) as [w2|] eqn:W2;
    [clear C3|now elim C3].
  destruct (subtraction_step_exact missing "rs_with_declustered_ss_parents" fs3 r1 w2)
    as [fs4 [r2 [a2 [E4 [R4 [S4 [N4 [I4 [A4 [J4 F4]]]]]]]]]]; auto.
  { rewrite F3 by discriminate. exact S2. }
  rewrite (bind_ok _ _ _ _ _ E4).
  (* tandem repeats *)
  destruct (category_evaluation_step db missing get_tandem_repeat_rs_query "accession"
              [dbsnp_cve_collection_name; cve_collection_name]
              "rs_with_tandem_repeat_type" fs4) as [fs5 [E5 [R5 [C5 F5]]]]; auto.
  { simpl; auto 10. }
  { intros c Hc. apply Hdb. simpl in *. tauto. }
  rewrite (bind_ok _ _ _ _ _ E5).
  destruct (fs5 (category_txt "rs_with_tandem_repeat_type")) as [w3|] eqn:W3;
    [clear C5|now elim C5].
  destruct (subtraction_step_exact missing "rs_with_tandem_repeat_type" fs5 r2 w3)
    as [fs6 [r3 [a3 [E6 [R6 [S6 [N6 [I6 [A6 [J6 F6]]]]]]]]]]; auto.
  { rewrite F5 by discriminate. exact S4. }
  rewrite (bind_ok _ _ _ _ _ E6).
  (* non-nucleotide letters: written, not subtracted *)
  destruct (residual_within_digits missing fs6 Hdig R6) as [residual [Er Hrdig]].
  destruct (residual_within_Forall _ missing fs6 Hrange R6) as [residual' [Er' Hrrange]].
  rewrite Er in Er'. injection Er' as <-.
  destruct (get_rs_with_non_nucleotide_letters_eq db fs6 rs_still_missing_txt residual)
    as [sve [svoe E7]]; auto.
  { intros c. discriminate. }
  { intros c Hc. apply Hdb. simpl in *. tauto. }
  rewrite (bind_ok _ _ _ _ _ E7).
  assert (M : fs6 missing_ids_txt = Some missing).
  { rewrite F6, F5, F4, F3, F2, F1 by discriminate. exact M0. }
  assert (Hend : forall p,
             p <> category_txt "rs_with_non_nucleotide_letters" ->
             p <> category_txt "rs_with_non_nucleotide_letters_SVOE" ->
             p <> category_txt "rs_with_non_nucleotide_letters_SVE" ->
             forall v, fs6 p = v ->
             snd ((out <- run_command_with_output (Cmd.wc_l_from missing_ids_txt) ;;
                   match Py.int (Py.strip (process_output out)) with
                   | Some num_unattributed_missing_rs_ids =>
                       if (num_unattributed_missing_rs_ids >? 0)%Z
                       then raise (Exception_still_missing num_unattributed_missing_rs_ids
                                                           rs_still_missing_txt)
                       else ret tt
                   | None => raise ValueError
                   end)
                    (write (category_txt "rs_with_non_nucleotide_letters")
                       (Some (Shell.uniq (Shell.sort (sve ++ svoe))))
                       (write (category_txt "rs_with_non_nucleotide_letters") (Some [])
                          (write (category_txt "rs_with_non_nucleotide_letters_SVOE")
                             (Some svoe)
                             (write (category_txt "rs_with_non_nucleotide_letters_SVOE")
                                (Some [])
                                (write (category_txt "rs_with_non_nucleotide_letters_SVE")
                                   (Some sve)
                                   (write (category_txt
                                             "rs_with_non_nucleotide_letters_SVE")
                                      (Some []) fs6))))))) p = v).
  { intros p H1 H2 H3 v Hv.
    unfold bind, run_command_with_output, Cmd.wc_l_from.
    rewrite !(write_other _ missing_ids_txt) by discriminate. rewrite M.
    cbn [Z.eqb fst snd]. rewrite int_of_wc_l_output.
    destruct (Z.of_nat (Shell.wc_l missing) >? 0)%Z; cbn [raise ret snd];
      now rewrite !write_other by assumption. }
  exists r3, a1, a2, a3.
  split; [apply Hend; try discriminate; exact S6|].
  split; [apply Hend; try discriminate;
          rewrite F6, F5, F4, F3 by discriminate; exact A2|].
  split; [apply Hend; try discriminate; rewrite F6, F5 by discriminate; exact A4|].
  split; [apply Hend; try discriminate; exact A6|].
  intros x. rewrite I6, I4, I2, J2, J4, J6.
  assert (Hw2 : fs3 (category_txt "rs_with_declustered_ss_parents") = Some w2) by exact W2.
  tauto.
Qed.

Lemma final_residual_is_missing_minus_three_categories_witness :
  let fs' := snd (get_missing_ids_attributions missing_ids_txt store_4_merged_5_declustered
                    (disk [(missing_ids_txt, ["4"; "5"; "6"])])) in
  exists residual merged declustered tandem_repeats,
    fs' rs_still_missing_txt = Some residual /\
    fs' (category_txt "rs_with_merged_ss_parents") = Some merged /\
    fs' (category_txt "rs_with_declustered_ss_parents") = Some declustered /\
    fs' (category_txt "rs_with_tandem_repeat_type") = Some tandem_repeats /\
    forall x, In x residual <->
              In x ["4"; "5"; "6"] /\ ~ In x merged /\ ~ In x declustered /\
              ~ In x tandem_repeats.
Proof.
  apply (final_residual_is_missing_minus_three_categories store_4_merged_5_declustered
           (disk [(missing_ids_txt, ["4"; "5"; "6"])]) ["4"; "5"; "6"]).
  - reflexivity.
  - repeat constructor; simpl; intuition discriminate.
  - repeat constructor.
  - repeat constructor.
  - intros c _. discriminate.
Defined.
